(** * youtube-podcast-summarizer: content resolution, summarization,
    parallel dispatch, report rendering and delivery

  A shallow embedding of the branching logic of
  [src/enhanced_summarizer.py], [src/hybrid_summarizer.py],
  [src/parallel_summarizer.py], [src/fixed_summarizer.py],
  [src/fixed_pdf_generator.py] and [src/email_sender.py].

  Every external service (the transcript API, the YouTube Data API, the
  chat-completion endpoint, SMTP, the file system, the clock, the thread
  pool's completion order) is an explicit argument of the function that
  uses it; the Python code around it is translated statement by
  statement.  Console output and the log lines written by the worker
  threads are left out; the log of the collecting loop is kept, since it
  is where a dropped unit leaves its trace.  [str.lower] and [str(e)]
  are the interpreter's and are arguments of the functions that call
  them. *)

From Stdlib Require Import NArith ZArith String Ascii Lia Bool DecimalString.
From stdpp Require Import base list.

Set Warnings "-register-all".
Local Open Scope N_scope.

(** ** Python text: [str] as a list of code points *)

Module Py.

(** A Python [str] is a sequence of Unicode code points; [len] counts
    code points, not bytes. *)
Definition pystr : Type := list N.

Definition byte_of (a : ascii) : N := N_of_ascii a.

Fixpoint bytes_of (s : string) : list N :=
  match s with
  | EmptyString => []
  | String a s' => byte_of a :: bytes_of s'
  end.

(** UTF-8 decoding of the source file's literals. *)
Fixpoint utf8_decode (bs : list N) : pystr :=
  match bs with
  | [] => []
  | b0 :: r0 =>
      if b0 <? 128 then b0 :: utf8_decode r0
      else if b0 <? 224 then
        match r0 with
        | b1 :: r1 => ((b0 - 192) * 64 + (b1 - 128)) :: utf8_decode r1
        | [] => [b0]
        end
      else if b0 <? 240 then
        match r0 with
        | b1 :: b2 :: r2 =>
            ((b0 - 224) * 4096 + (b1 - 128) * 64 + (b2 - 128)) :: utf8_decode r2
        | _ => [b0]
        end
      else
        match r0 with
        | b1 :: b2 :: b3 :: r3 =>
            ((b0 - 240) * 262144 + (b1 - 128) * 4096 + (b2 - 128) * 64 + (b3 - 128))
              :: utf8_decode r3
        | _ => [b0]
        end
  end.

(** [u "text"] is the Python literal ["text"]. *)
Definition u (s : string) : pystr := utf8_decode (bytes_of s).
Global Arguments u : simpl never.

Definition len (s : pystr) : nat := length s.

Definition str_eqb (a b : pystr) : bool := bool_decide (a = b).

(** [s.startswith(p)] *)
Fixpoint startswith (p s : pystr) : bool :=
  match p, s with
  | [], _ => true
  | _ :: _, [] => false
  | a :: p', b :: s' => (a =? b) && startswith p' s'
  end.

(** [s.endswith(p)] *)
Definition endswith (p s : pystr) : bool := startswith (rev p) (rev s).

(** [sub in s] for two strings: [sub] occurs in [s] at some offset. *)
Fixpoint contains (sub s : pystr) : bool :=
  startswith sub s ||
  match s with
  | [] => false
  | _ :: s' => contains sub s'
  end.

(** [str.isspace] of one code point (CPython's [_PyUnicode_IsWhitespace]). *)
Definition isspace (c : N) : bool :=
  ((9 <=? c) && (c <=? 13)) || ((28 <=? c) && (c <=? 32))
  || (c =? 133) || (c =? 160) || (c =? 5760)
  || ((8192 <=? c) && (c <=? 8202))
  || (c =? 8232) || (c =? 8233) || (c =? 8239) || (c =? 8287) || (c =? 12288).

Fixpoint lstrip (s : pystr) : pystr :=
  match s with
  | [] => []
  | c :: s' => if isspace c then lstrip s' else s
  end.

Definition rstrip (s : pystr) : pystr := rev (lstrip (rev s)).

(** [s.strip()] *)
Definition strip (s : pystr) : pystr := rstrip (lstrip s).

(** [s.split()]: the maximal runs of non-whitespace code points. *)
Fixpoint split_ws_go (s : pystr) (cur : pystr) : list pystr :=
  match s with
  | [] => match cur with [] => [] | _ => [rev cur] end
  | c :: s' =>
      if isspace c
      then match cur with
           | [] => split_ws_go s' []
           | _ => rev cur :: split_ws_go s' []
           end
      else split_ws_go s' (c :: cur)
  end.

Definition split_ws (s : pystr) : list pystr := split_ws_go s [].

(** [s.split(sep)] for a non-empty [sep]: cut at every occurrence found
    scanning left to right, keeping empty pieces.  [skip] counts the code
    points of a separator that is being stepped over. *)
Fixpoint split_go (sep s : pystr) (skip : nat) (cur : pystr) : list pystr :=
  match s with
  | [] => [rev cur]
  | c :: s' =>
      match skip with
      | S k => split_go sep s' k cur
      | O =>
          if startswith sep s
          then rev cur :: split_go sep s' (length sep - 1) []
          else split_go sep s' 0 (c :: cur)
      end
  end.

Definition split (sep s : pystr) : list pystr := split_go sep s 0 [].

(** [sep.join(parts)] *)
Fixpoint join (sep : pystr) (parts : list pystr) : pystr :=
  match parts with
  | [] => []
  | [p] => p
  | p :: rest => p ++ sep ++ join sep rest
  end.

(** [s[:n]] *)
Definition slice_to (n : nat) (s : pystr) : pystr := take n s.

(** [str.lower] on the ASCII range.  It agrees with Python on every
    string whose cased letters are ASCII, which covers the literals of
    the source (Latin keys, CJK values). *)
Definition lower_ascii_cp (c : N) : N :=
  if (65 <=? c) && (c <=? 90) then c + 32 else c.

Definition lower_ascii (s : pystr) : pystr := map lower_ascii_cp s.

(** Truthiness of a string: [if s:]. *)
Definition truthy (s : pystr) : bool :=
  match s with [] => false | _ => true end.

End Py.

Import Py.


(** ** Values, exceptions and the chat-completion exchange *)

Module Net.

(** A value produced by [response.json()]: Python's [None], [bool],
    [int], [float], [str], [list] and [dict].  An object keeps its
    members in document order; a repeated key takes its last value, as
    [json.loads] does. *)
Inductive json : Type :=
| JNull
| JBool (b : bool)
| JInt (z : Z)
| JFloat (bits : N)
| JStr (s : pystr)
| JArr (items : list json)
| JObj (members : list (pystr * json)).

(** The exceptions the code can meet.  [LibraryError] is one raised by
    [requests], [smtplib], [youtube_transcript_api] or the Google client
    (a timeout, a connection error, an HTTP error status, an undecodable
    body); the others are raised by the interpreter on the operand
    shown. *)
Inductive exc : Type :=
| KeyError (key : json)
| IndexError (operand : json)
| TypeError (operand : json)
| AttributeError (operand : json)
| LibraryError (cls msg : pystr).

(** [exc + A]: a computation that returns or raises. *)
Definition M (A : Type) : Type := exc + A.
Definition ret {A} (a : A) : M A := inr a.
Definition raise {A} (e : exc) : M A := inl e.
Definition bind {A B} (m : M A) (k : A -> M B) : M B :=
  match m with
  | inl e => inl e
  | inr a => k a
  end.

Fixpoint obj_get (k : pystr) (members : list (pystr * json)) : option json :=
  match members with
  | [] => None
  | (k', v) :: rest =>
      match obj_get k rest with
      | Some v' => Some v'
      | None => if str_eqb k k' then Some v else None
      end
  end.

(** [x[k]] for a string key [k]. *)
Definition subscript_key (x : json) (k : pystr) : M json :=
  match x with
  | JObj members =>
      match obj_get k members with
      | Some v => ret v
      | None => raise (KeyError (JStr k))
      end
  | _ => raise (TypeError x)
  end.

(** [x[0]]. *)
Definition subscript_0 (x : json) : M json :=
  match x with
  | JArr (v :: _) => ret v
  | JArr [] => raise (IndexError x)
  | JStr (c :: _) => ret (JStr [c])
  | JStr [] => raise (IndexError x)
  | JObj _ => raise (KeyError (JInt 0))
  | _ => raise (TypeError x)
  end.

(** [len(x)] *)
Definition py_len (x : json) : M nat :=
  match x with
  | JStr s => ret (length s)
  | JArr l => ret (length l)
  | JObj m => ret (length (remove_dups (map fst m)))
  | _ => raise (TypeError x)
  end.

(** The request handed to [requests.post]. *)
Record request : Type := {
  rq_url : pystr;
  rq_authorization : pystr;
  rq_model : pystr;
  rq_prompt : pystr;
  rq_max_tokens : N;
  rq_temperature : pystr;
  rq_timeout : N
}.

(** What the three library calls [requests.post], [raise_for_status]
    and [response.json] do for one request. *)
Inductive response : Type :=
| PostRaises (e : exc)
| StatusRaises (e : exc)
| JsonRaises (e : exc)
| Parsed (body : json).

(** [response = requests.post(...); response.raise_for_status();
    result = response.json()] *)
Definition exchange (r : response) : M json :=
  match r with
  | PostRaises e => raise e
  | StatusRaises e => raise e
  | JsonRaises e => raise e
  | Parsed body => ret body
  end.

(** [result['choices'][0]['message']['content']] *)
Definition first_choice_content (result : json) : M json :=
  bind (subscript_key result (u "choices")) (fun choices =>
  bind (subscript_0 choices) (fun choice =>
  bind (subscript_key choice (u "message")) (fun message =>
  subscript_key message (u "content")))).

Definition base_url : pystr := u "https://openrouter.ai/api/v1/chat/completions".

Definition nl : pystr := [10].
Definition dq : pystr := [34].

End Net.

Import Net.

(** ** Video items and summary results *)

Module Model.

(** [video_info]: the search-result item of the YouTube Data API, read
    through [.get('id', {}).get('videoId', ...)] and
    [.get('snippet', {}).get(...)]; [None] is an absent key. *)
Record IdPart : Type := { videoId : option pystr }.
Record Snippet : Type := { title : option pystr; channelTitle : option pystr }.
Record VideoInfo : Type := { vi_id : option IdPart; vi_snippet : option Snippet }.

(** The dict every summarizer returns.  [success] is [None] where the
    dict has no such key (the enhanced and hybrid summarizers). *)
Record SummaryResult : Type := {
  r_title : pystr;
  r_channel : pystr;
  r_summary : json;
  r_video_id : pystr;
  r_url : pystr;
  r_content_type : pystr;
  r_success : option bool
}.

Definition get_videoId (v : VideoInfo) : option pystr := vi_id v ≫= videoId.
Definition get_title (v : VideoInfo) : option pystr := vi_snippet v ≫= title.
Definition get_channelTitle (v : VideoInfo) : option pystr := vi_snippet v ≫= channelTitle.

Definition watch_url (video_id : pystr) : pystr :=
  u "https://www.youtube.com/watch?v=" ++ video_id.

(** What [future.result()] does. *)
Inductive outcome : Type :=
| Returned (r : SummaryResult)
| Raises (e : exc).

(** The lines the collecting loop of [process_videos_parallel] logs. *)
Inductive log_event : Type :=
| LogDone (title : pystr) (chars : nat)
| LogFailed (title : pystr)
| LogThreadExc (title : pystr) (e : exc).

End Model.

Import Model.

(** ** [src/parallel_summarizer.py] *)

Module ParallelSummarizer.
Section WithInterpreter.

(** [str(e)], the interpreter's rendering of an exception. *)
Variable str_exc : exc -> pystr.

(** [self.api_key]. *)
Variable api_key : pystr.

Definition model_name : pystr := u "google/gemini-2.5-pro".

Definition prompt (video_url : pystr) : pystr :=
  u "请详细观看这个YouTube视频并用中文写一个完整摘要：" ++ video_url ++ nl
  ++ nl ++ u "要求：" ++ nl
  ++ u "1. 写2段话的摘要，每段150-250字，总共300-500字" ++ nl
  ++ u "2. 第一段详细概括视频的主题、背景和核心观点" ++ nl
  ++ u "3. 第二段深入阐述重要细节、具体数据、实例或结论" ++ nl
  ++ u "4. 必须涵盖视频的主要论点和关键信息" ++ nl
  ++ u "5. 用简体中文写作，保持信息量丰富" ++ nl
  ++ u "6. 确保内容完整，不要过分简化" ++ nl
  ++ nl ++ u "请直接输出2个详细段落，不需要标题。".

Definition build_request (video_url : pystr) : request :=
  {| rq_url := base_url;
     rq_authorization := u "Bearer " ++ api_key;
     rq_model := model_name;
     rq_prompt := prompt video_url;
     rq_max_tokens := 2000;
     rq_temperature := u "0.1";
     rq_timeout := 120 |}.

(** [_make_api_call(video_info)], with [post] standing for what the
    endpoint does with this unit's request. *)
Definition _make_api_call (post : request -> response) (video_info : VideoInfo)
  : SummaryResult :=
  let video_id := default (u "") (get_videoId video_info) in
  let title := default (u "Unknown") (get_title video_info) in
  let channel := default (u "Unknown") (get_channelTitle video_info) in
  let video_url := watch_url video_id in
  match bind (exchange (post (build_request video_url))) first_choice_content with
  | inr summary_content =>
      {| r_title := title; r_channel := channel; r_summary := summary_content;
         r_video_id := video_id; r_url := video_url;
         r_content_type := u "openrouter_gemini_parallel";
         r_success := Some true |}
  | inl e =>
      {| r_title := title; r_channel := channel;
         r_summary := JStr (u "处理失败: " ++ str_exc e);
         r_video_id := video_id; r_url := video_url;
         r_content_type := u "openrouter_gemini_parallel";
         r_success := Some false |}
  end.

(** One turn of the loop over [as_completed]: [future.result()] is
    [o], [future_to_video[future]] is [video]. *)
Definition collect_step (st : list SummaryResult * list log_event)
                        (done : VideoInfo * outcome)
  : list SummaryResult * list log_event :=
  let '(results, log) := st in
  let '(video, o) := done in
  let video_title := default (u "Unknown") (get_title video) in
  match o with
  | Raises e => (results, log ++ [LogThreadExc video_title e])
  | Returned result =>
      match r_success result with
      | None => (results, log ++ [LogThreadExc video_title (KeyError (JStr (u "success")))])
      | Some true =>
          let results' := results ++ [result] in
          match py_len (r_summary result) with
          | inr n => (results', log ++ [LogDone (r_title result) n])
          | inl e => (results', log ++ [LogThreadExc video_title e])
          end
      | Some false => (results, log ++ [LogFailed (r_title result)])
      end
  end.

Definition collect (completed : list (VideoInfo * outcome))
  : list SummaryResult * list log_event :=
  fold_left collect_step completed ([], []).

(** The futures, in submission order: unit [i] runs [_make_api_call]
    against what the endpoint answers to unit [i]. *)
Definition submit_all (net : nat -> request -> response) (videos : list VideoInfo)
  : list (VideoInfo * outcome) :=
  imap (fun i video => (video, Returned (_make_api_call (net i) video))) videos.

(** [process_videos_parallel(videos)].  [order] is the order in which
    [as_completed] yields the futures, as submission indices. *)
Definition process_videos_parallel (net : nat -> request -> response)
    (order : list nat) (videos : list VideoInfo)
  : list SummaryResult * list log_event :=
  let futures := submit_all net videos in
  collect (omap (fun i => futures !! i) order).

End WithInterpreter.
End ParallelSummarizer.

(** ** [src/fixed_summarizer.py] *)

Module FixedSummarizer.
Section WithInterpreter.

(** [str.lower], the interpreter's Unicode lower-casing. *)
Variable lower : pystr -> pystr.

(** [self.api_key]. *)
Variable api_key : pystr.

Definition model_name : pystr := u "google/gemini-2.5-pro".

(** [for k, v in table.items(): if test(k): return v], in insertion
    order. *)
Fixpoint first_item {A} (test : pystr -> bool) (table : list (pystr * A)) : option A :=
  match table with
  | [] => None
  | (k, v) :: rest => if test k then Some v else first_item test rest
  end.

Definition translations : list (pystr * pystr) :=
  [ (u "Write Things Down", u "记录想法");
    (u "Navigating Data Chaos", u "应对数据混乱");
    (u "Opendoor is a Software Business", u "Opendoor是一个软件企业");
    (u "Modern Politics and Starting a New Country", u "现代政治与创建新国家");
    (u "There's never been more opportunities", u "从未有过如此多的机会");
    (u "How Britain Defeated Germany", u "英国如何击败德国");
    (u "How to Live in Everyone Else's Future", u "如何活在他人的未来中") ].

Definition translate_title (title : pystr) : pystr :=
  match first_item (fun en => contains (lower en) (lower title)) translations with
  | Some zh => zh
  | None => title
  end.

Definition prompt (title video_url : pystr) : pystr :=
  u "请分析YouTube视频" ++ dq ++ title ++ dq ++ u "并写摘要：" ++ video_url ++ nl
  ++ nl ++ u "重要要求：" ++ nl
  ++ u "1. 必须根据视频标题" ++ dq ++ title ++ dq ++ u "和实际内容写摘要" ++ nl
  ++ u "2. 如果无法访问视频，请基于标题写一个合理的2段摘要" ++ nl
  ++ u "3. 每段100-200字，总共300-400字" ++ nl
  ++ u "4. 第一段概括主题，第二段详述要点" ++ nl
  ++ u "5. 使用简体中文" ++ nl
  ++ u "6. 内容必须与标题相关" ++ nl
  ++ nl ++ u "直接输出2段摘要，不要其他格式。".

Definition build_request (title video_url : pystr) : request :=
  {| rq_url := base_url;
     rq_authorization := u "Bearer " ++ api_key;
     rq_model := model_name;
     rq_prompt := prompt title video_url;
     rq_max_tokens := 1500;
     rq_temperature := u "0.3";
     rq_timeout := 60 |}.

Definition _content_matches_title (title content : pystr) : bool :=
  if contains (u "write") (lower title)
     && negb (contains (u "记录") content)
     && negb (contains (u "写") content)
     && negb (contains (u "文字") content)
  then false
  else if contains (u "data") (lower title) && negb (contains (u "数据") content)
  then false
  else if contains (u "britain") (lower title)
          && negb (contains (u "英国") content)
          && negb (contains (u "不列颠") content)
  then false
  else true.

(** The [summaries] dict of [_generate_fallback_summary]. *)
Definition summaries (channel : pystr) : list (pystr * pystr) :=
  [ (u "Write Things Down",
     u "这个视频探讨了记录和写作在现代工作和生活中的重要性。" ++ channel ++ u "频道的这期内容强调了将想法、观察和学习内容书面化的价值，认为写下想法不仅有助于澄清思路，还能帮助长期记忆和知识积累。" ++ nl
     ++ nl ++ u "视频进一步阐述了不同类型的记录方法，包括日志写作、思维导图和结构化笔记等。内容还涵盖了如何建立有效的记录习惯，以及写作如何提升批判性思维和决策能力。对于知识工作者来说，这种记录习惯能够显著提高工作效率和创新能力。");
    (u "Navigating Data Chaos",
     u "该视频深入分析了当今企业和组织面临的数据管理挑战。" ++ channel ++ u "讨论了在数据爆炸时代如何建立有序的数据架构，以及如何从混乱的数据环境中提取有价值的洞察。视频强调了数据治理和标准化流程的重要性。" ++ nl
     ++ nl ++ u "内容进一步探讨了现代数据堆栈的最佳实践，包括数据湖、数据仓库的选择，以及实时数据处理的策略。视频还涉及了团队协作、数据质量控制和合规性管理等关键话题，为处理复杂数据环境提供了实用的方法论和工具推荐。");
    (u "Opendoor",
     u "这期" ++ channel ++ u "节目深度解析了房地产科技公司Opendoor的商业模式转型。视频探讨了该公司如何从传统房地产交易平台演进为以技术驱动的软件企业，强调了数据分析、算法定价和用户体验优化在其业务中的核心作用。" ++ nl
     ++ nl ++ u "节目详细分析了Opendoor在房地产市场的创新策略，包括即时购买服务、智能定价模型和端到端的数字化交易流程。讨论涵盖了公司面临的市场挑战、竞争优势，以及软件化转型对传统房地产行业的深远影响。");
    (u "Britain",
     u "该历史主题视频详细分析了二战期间英国在大西洋战役中击败德国的关键因素。" ++ channel ++ u "从多个角度探讨了海战策略、技术优势和情报战在这场关键战役中的作用，展现了英国如何在看似劣势的情况下取得最终胜利。" ++ nl
     ++ nl ++ u "内容深入研究了护航船队系统、雷达技术的应用以及密码破译等关键要素。视频还分析了德国U艇战略的失败原因，以及美国参战对战局的影响。这场大西洋之战不仅决定了战争的走向，也展现了海上力量投送和后勤保障在现代战争中的决定性作用。");
    (u "Future",
     u "这期" ++ channel ++ u "节目邀请Shopify CEO Tobi Lütke分享关于商业前瞻性思维的独特见解。视频探讨了如何在快速变化的市场环境中预见未来趋势，以及企业家如何培养前瞻性视野来抓住机遇。内容强调了适应性和持续学习的重要性。" ++ nl
     ++ nl ++ u "对话深入讨论了电商行业的发展趋势、技术创新对商业模式的影响，以及如何建设能够适应未来挑战的组织文化。Lütke分享了Shopify的战略思考过程、团队建设经验，以及对未来十年商业格局演变的预测和建议。") ].

(** The default paragraph returned when no key matches. *)
Definition default_summary (title channel : pystr) : pystr :=
  u "该" ++ channel ++ u "频道的视频" ++ dq ++ title ++ dq ++ u "涉及相关领域的深度探讨。内容从多个角度分析了主题的核心要点，为观众提供了全面而深入的见解。视频结合理论分析和实际案例，展现了主题的复杂性和重要性。" ++ nl
  ++ nl ++ u "节目进一步延伸了相关讨论，涵盖了行业趋势、最佳实践和未来发展方向。内容既适合初学者了解基础概念，也为专业人士提供了深度思考的材料。整体而言，这是一期内容丰富、观点独特的高质量节目。".

Definition _generate_fallback_summary (title channel : pystr) : pystr :=
  match first_item (fun key => contains (lower key) (lower title)) (summaries channel) with
  | Some summary => summary
  | None => default_summary title channel
  end.

(** [x.strip()] on a value of the response. *)
Definition strip_value (x : json) : M pystr :=
  match x with
  | JStr s => ret (strip s)
  | _ => raise (AttributeError x)
  end.

Definition _make_api_call (post : request -> response) (video_info : VideoInfo)
  : SummaryResult :=
  let video_id := default (u "") (get_videoId video_info) in
  let title := default (u "Unknown") (get_title video_info) in
  let channel := default (u "Unknown") (get_channelTitle video_info) in
  let video_url := watch_url video_id in
  match bind (bind (exchange (post (build_request title video_url)))
                   first_choice_content) strip_value with
  | inr summary_content =>
      let summary_content :=
        if (len summary_content <? 100)%nat
           || negb (_content_matches_title title summary_content)
        then _generate_fallback_summary title channel
        else summary_content in
      {| r_title := title; r_channel := channel; r_summary := JStr summary_content;
         r_video_id := video_id; r_url := video_url;
         r_content_type := u "fixed_summarizer";
         r_success := Some true |}
  | inl e =>
      let fallback_summary := _generate_fallback_summary title channel in
      {| r_title := title; r_channel := channel; r_summary := JStr fallback_summary;
         r_video_id := video_id; r_url := video_url;
         r_content_type := u "fixed_summarizer";
         r_success := Some true |}
  end.

(** One turn of the loop over [as_completed]. *)
Definition collect_step (st : list SummaryResult * list log_event)
                        (done : VideoInfo * outcome)
  : list SummaryResult * list log_event :=
  let '(results, log) := st in
  let '(video, o) := done in
  let video_title := default (u "Unknown") (get_title video) in
  match o with
  | Raises e => (results, log ++ [LogThreadExc video_title e])
  | Returned result =>
      let results' := results ++ [result] in
      match py_len (r_summary result) with
      | inr n => (results', log ++ [LogDone (r_title result) n])
      | inl e => (results', log ++ [LogThreadExc video_title e])
      end
  end.

Definition collect (completed : list (VideoInfo * outcome))
  : list SummaryResult * list log_event :=
  fold_left collect_step completed ([], []).

Definition submit_all (net : nat -> request -> response) (videos : list VideoInfo)
  : list (VideoInfo * outcome) :=
  imap (fun i video => (video, Returned (_make_api_call (net i) video))) videos.

(** [process_videos_parallel(videos)]; [order] as in the parallel
    summarizer. *)
Definition process_videos_parallel (net : nat -> request -> response)
    (order : list nat) (videos : list VideoInfo)
  : list SummaryResult * list log_event :=
  let futures := submit_all net videos in
  collect (omap (fun i => futures !! i) order).

End WithInterpreter.
End FixedSummarizer.

(** ** The services behind the content resolvers, and the trace of calls *)

Module Services.

(** One entry of [YouTubeTranscriptApi.list_transcripts(video_id)]:
    its [is_generated] flag and what [fetch()] does, the texts of the
    fetched snippets ([item['text']]). *)
Record Transcript : Type := {
  is_generated : bool;
  fetch : M (list pystr)
}.

(** [response['items'][0]] of [videos().list(part=..., id=video_id)]. *)
Record VideoItem : Type := {
  it_title : pystr;
  it_description : pystr;
  it_channel : pystr;
  it_duration : pystr;
  it_view_count : option pystr;
  it_published_at : pystr
}.

Record World : Type := {
  (** [YouTubeTranscriptApi.get_transcript(video_id, languages=[lang])] *)
  get_transcript : pystr -> pystr -> M (list pystr);
  (** [YouTubeTranscriptApi.list_transcripts(video_id)] *)
  list_transcripts : pystr -> M (list Transcript);
  (** [self.youtube_service]; [None] when the summarizer was built
      without one.  The function is [videos().list(...).execute()],
      giving [response['items']]. *)
  youtube_service : option (pystr -> M (list VideoItem));
  (** the chat-completion endpoint *)
  post : request -> response
}.

(** Calls made to the outside, in program order. *)
Inductive event : Type :=
| EvGetTranscript (video_id lang : pystr)
| EvListTranscripts (video_id : pystr)
| EvFetch (video_id : pystr) (generated : bool)
| EvVideoDetails (video_id : pystr)
| EvPost (rq : request).

(** A computation that also records the calls it made. *)
Definition T (A : Type) : Type := A * list event.
Definition tret {A} (a : A) : T A := (a, []).
Definition tbind {A B} (m : T A) (k : A -> T B) : T B :=
  let '(a, l) := m in
  let '(b, l') := k a in
  (b, l ++ l').
Definition emit {A} (e : event) (a : A) : T A := (a, [e]).

Definition is_post (e : event) : bool :=
  match e with
  | EvPost _ => true
  | _ => false
  end.

Definition is_details (e : event) : bool :=
  match e with
  | EvVideoDetails _ => true
  | _ => false
  end.

(** What a resolver hands back: [Some (text, tag)], or [None] for the
    pair [(None, None)]. *)
Definition resolved : Type := option (pystr * pystr).

(** The dict built by [get_video_details]; [None] is the empty dict. *)
Definition get_video_details (w : World) (video_id : pystr) : T (option VideoItem) :=
  match youtube_service w with
  | None => tret None
  | Some execute =>
      emit (EvVideoDetails video_id)
        match execute video_id with
        | inr (item :: _) => Some item
        | inr [] => None
        | inl _ => None
        end
  end.

(** The loop over a language list shared by both resolvers:
    [accept text] is the length test, [tag lang] the provenance. *)
Fixpoint try_languages (w : World) (accept : pystr -> bool) (tag : pystr -> pystr)
    (video_id : pystr) (langs : list pystr) : T resolved :=
  match langs with
  | [] => tret None
  | lang :: rest =>
      tbind (emit (EvGetTranscript video_id lang) (get_transcript w video_id lang))
        (fun got =>
           match got with
           | inr transcript =>
               let text := join (u " ") transcript in
               if accept text then tret (Some (text, tag lang))
               else try_languages w accept tag video_id rest
           | inl _ => try_languages w accept tag video_id rest
           end)
  end.

(** [for transcript in transcript_list: if transcript.is_generated == g:
    try: fetch, test, return / except: continue]. *)
Fixpoint fetch_first (accept : pystr -> bool) (g : bool) (tag : pystr)
    (video_id : pystr) (transcript_list : list Transcript) : T resolved :=
  match transcript_list with
  | [] => tret None
  | transcript :: rest =>
      if bool_decide (is_generated transcript = g) then
        tbind (emit (EvFetch video_id g) (fetch transcript))
          (fun got =>
             match got with
             | inr data =>
                 let text := join (u " ") data in
                 if accept text then tret (Some (text, tag))
                 else fetch_first accept g tag video_id rest
             | inl _ => fetch_first accept g tag video_id rest
             end)
      else fetch_first accept g tag video_id rest
  end.

(** Strategy 2 of both resolvers: list the transcripts, try the
    generated ones, then the manual ones. *)
Definition any_transcript (w : World) (accept : pystr -> bool)
    (tag_generated tag_manual : pystr) (video_id : pystr) : T resolved :=
  tbind (emit (EvListTranscripts video_id) (list_transcripts w video_id))
    (fun listed =>
       match listed with
       | inl _ => tret None
       | inr transcript_list =>
           tbind (fetch_first accept true tag_generated video_id transcript_list)
             (fun r =>
                match r with
                | Some hit => tret (Some hit)
                | None => fetch_first accept false tag_manual video_id transcript_list
                end)
       end).

End Services.

Import Services.

(** ** [src/enhanced_summarizer.py] *)

Module EnhancedSummarizer.
Section WithInterpreter.

Variable str_exc : exc -> pystr.
Variable api_key : pystr.
Variable model_name : pystr.

Definition languages_to_try : list pystr :=
  [u "en"; u "en-US"; u "en-GB"; u "zh"; u "zh-CN"; u "zh-TW"].

(** [text and len(text) > 50] *)
Definition accept (text : pystr) : bool := truthy text && (50 <? len text)%nat.

Definition get_transcript_with_fallback (w : World) (video_id : pystr) : T resolved :=
  tbind (try_languages w accept (fun _ => u "transcript") video_id languages_to_try)
    (fun r1 =>
       match r1 with
       | Some hit => tret (Some hit)
       | None =>
           tbind (any_transcript w accept (u "auto_transcript") (u "manual_transcript")
                    video_id)
             (fun r2 =>
                match r2 with
                | Some hit => tret (Some hit)
                | None =>
                    tbind (get_video_details w video_id)
                      (fun video_details =>
                         match video_details with
                         | Some d =>
                             let description := it_description d in
                             if truthy description && (100 <? len description)%nat
                             then tret (Some (description, u "description"))
                             else tret None
                         | None => tret None
                         end)
                end)
       end).

Definition content_type_prompts : list (pystr * pystr) :=
  [ (u "transcript", u "基于以下视频转录内容");
    (u "auto_transcript", u "基于以下自动生成的视频字幕");
    (u "manual_transcript", u "基于以下手动添加的视频字幕");
    (u "description", u "基于以下视频描述信息") ].

(** [d.get(k, dflt)] on a literal dict with distinct keys. *)
Definition dict_get (k : pystr) (d : list (pystr * pystr)) (dflt : pystr) : pystr :=
  match List.find (fun kv => str_eqb k (fst kv)) d with
  | Some kv => snd kv
  | None => dflt
  end.

Definition create_enhanced_prompt (content title channel_name content_type : pystr)
  : pystr :=
  let content_instruction := dict_get content_type content_type_prompts (u "基于以下内容") in
  nl ++ u "        请" ++ content_instruction ++ u "，为这个科技/AI相关的视频提供中文摘要：" ++ nl
  ++ nl ++ u "        标题: " ++ title ++ nl
  ++ u "        频道: " ++ channel_name ++ nl
  ++ u "        内容类型: " ++ content_type ++ nl
  ++ nl ++ u "        内容: " ++ slice_to 8000 content ++ nl
  ++ nl ++ u "        请提供：" ++ nl
  ++ u "        1. 核心要点 (3-5个主要观点)" ++ nl
  ++ u "        2. 关键技术/概念" ++ nl
  ++ u "        3. 实用建议或结论" ++ nl
  ++ u "        4. 整体评价和推荐指数 (1-5星)" ++ nl
  ++ nl ++ u "        注意：如果内容是视频描述而非完整转录，请基于可用信息提供合理的概述。" ++ nl
  ++ u "        请用简洁的中文回答，重点突出技术要点和实用价值。" ++ nl
  ++ u "        ".

Definition build_request (prompt : pystr) : request :=
  {| rq_url := base_url;
     rq_authorization := u "Bearer " ++ api_key;
     rq_model := model_name;
     rq_prompt := prompt;
     rq_max_tokens := 1000;
     rq_temperature := u "0.7";
     rq_timeout := 30 |}.

(** [summarize_content]; the value is Python's: [JNull] is [None]. *)
Definition summarize_content (w : World) (content title channel_name content_type : pystr)
  : T json :=
  if negb (truthy content) then tret JNull
  else
    let prompt := create_enhanced_prompt content title channel_name content_type in
    let rq := build_request prompt in
    emit (EvPost rq)
      match bind (exchange (post w rq)) first_choice_content with
      | inr text => text
      | inl e => JStr (u "摘要生成失败: " ++ str_exc e)
      end.

Definition unavailable : pystr := u "无法获取视频内容（无字幕且无描述信息）".

Definition unavailable_result (title channel_name video_id : pystr) : SummaryResult :=
  {| r_title := title; r_channel := channel_name;
     r_summary := JStr unavailable;
     r_video_id := video_id;
     r_url := watch_url video_id;
     r_content_type := u "none";
     r_success := None |}.

(** [process_video]; [None] is the [return None] of a missing id. *)
Definition process_video (w : World) (video_info : VideoInfo) : T (option SummaryResult) :=
  match get_videoId video_info with
  | None => tret None
  | Some video_id =>
      if negb (truthy video_id) then tret None
      else
        let title := default (u "") (get_title video_info) in
        let channel_name := default (u "") (get_channelTitle video_info) in
        tbind (get_transcript_with_fallback w video_id)
          (fun r =>
             match r with
             | None => tret (Some (unavailable_result title channel_name video_id))
             | Some (content, content_type) =>
                 if negb (truthy content)
                 then tret (Some (unavailable_result title channel_name video_id))
                 else
                   tbind (summarize_content w content title channel_name content_type)
                     (fun summary =>
                        tret (Some {| r_title := title; r_channel := channel_name;
                                      r_summary := summary;
                                      r_video_id := video_id;
                                      r_url := watch_url video_id;
                                      r_content_type := content_type;
                                      r_success := None |}))
             end)
  end.

End WithInterpreter.
End EnhancedSummarizer.

(** ** [src/hybrid_summarizer.py] *)

Module HybridSummarizer.
Section WithInterpreter.

Variable str_exc : exc -> pystr.
Variable api_key : pystr.
Variable model_name : pystr.

Definition languages_priority : list pystr :=
  [u "en"; u "en-US"; u "en-GB"; u "en-CA"; u "en-AU"].

(** [text and len(text) > 100] *)
Definition accept_lang (text : pystr) : bool := truthy text && (100 <? len text)%nat.

(** [len(text) > 100] *)
Definition accept_listed (text : pystr) : bool := (100 <? len text)%nat.

Definition get_transcript_smart (w : World) (video_id : pystr) : T resolved :=
  tbind (try_languages w accept_lang (fun lang => u "transcript_" ++ lang)
           video_id languages_priority)
    (fun r1 =>
       match r1 with
       | Some hit => tret (Some hit)
       | None => any_transcript w accept_listed (u "auto_generated") (u "manual") video_id
       end).

Definition enhanced_content (d : VideoItem) : pystr :=
  strip
    (nl ++ u "Video Title: " ++ it_title d ++ nl
     ++ u "Channel: " ++ it_channel d ++ nl
     ++ u "Published: " ++ it_published_at d ++ nl
     ++ u "Views: " ++ default (u "0") (it_view_count d) ++ nl
     ++ nl ++ u "Video Description:" ++ nl
     ++ it_description d ++ nl
     ++ u "            ").

(** The description branch of [get_content_with_fallbacks]. *)
Definition description_fallback (w : World) (video_id : pystr) : T resolved :=
  tbind (get_video_details w video_id)
    (fun video_details =>
       match video_details with
       | Some d =>
           if truthy (it_description d) && (200 <? len (enhanced_content d))%nat
           then tret (Some (enhanced_content d, u "enhanced_description"))
           else tret None
       | None => tret None
       end).

Definition get_content_with_fallbacks (w : World) (video_id : pystr) : T resolved :=
  tbind (get_transcript_smart w video_id)
    (fun r =>
       match r with
       | Some (content, content_type) =>
           if truthy content then tret (Some (content, content_type))
           else description_fallback w video_id
       | None => description_fallback w video_id
       end).

Definition content_instructions : list (pystr * pystr) :=
  [ (u "transcript_en", u "基于以下完整的英文视频转录内容");
    (u "auto_generated", u "基于以下自动生成的视频字幕内容");
    (u "manual", u "基于以下手动添加的视频字幕内容");
    (u "enhanced_description", u "基于以下视频详细信息和描述") ].

Definition dict_get (k : pystr) (d : list (pystr * pystr)) (dflt : pystr) : pystr :=
  match List.find (fun kv => str_eqb k (fst kv)) d with
  | Some kv => snd kv
  | None => dflt
  end.

Definition create_smart_prompt (content title channel_name content_type : pystr)
  : pystr :=
  let instruction := dict_get content_type content_instructions (u "基于以下视频相关内容") in
  nl ++ instruction ++ u "，请为这个科技/AI播客视频提供专业的中文摘要分析：" ++ nl
  ++ nl ++ u "标题: " ++ title ++ nl
  ++ u "频道: " ++ channel_name ++ nl
  ++ u "内容来源: " ++ content_type ++ nl
  ++ nl ++ u "内容:" ++ nl
  ++ slice_to 10000 content ++ u "  # 增加内容长度限制" ++ nl
  ++ nl ++ u "请提供详细分析：" ++ nl
  ++ u "1. **核心观点** (3-5个主要论点，包含具体细节)" ++ nl
  ++ u "2. **关键技术/概念** (详细解释提到的技术术语)" ++ nl
  ++ u "3. **实用洞察** (可操作的建议和结论)" ++ nl
  ++ u "4. **行业影响** (对相关行业的潜在影响)" ++ nl
  ++ u "5. **推荐程度** (1-5星，附理由)" ++ nl
  ++ nl ++ u "要求：" ++ nl
  ++ u "- 用简洁专业的中文表述" ++ nl
  ++ u "- 重点突出技术创新和商业价值" ++ nl
  ++ u "- 如果内容有限，请基于可用信息提供最佳分析" ++ nl
  ++ u "- 保持客观和准确性" ++ nl
  ++ u "        ".

Definition build_request (prompt : pystr) : request :=
  {| rq_url := base_url;
     rq_authorization := u "Bearer " ++ api_key;
     rq_model := model_name;
     rq_prompt := prompt;
     rq_max_tokens := 1500;
     rq_temperature := u "0.7";
     rq_timeout := 45 |}.

Definition summarize_content (w : World) (content title channel_name content_type : pystr)
  : T json :=
  if negb (truthy content) then tret JNull
  else
    let prompt := create_smart_prompt content title channel_name content_type in
    let rq := build_request prompt in
    emit (EvPost rq)
      match bind (exchange (post w rq)) first_choice_content with
      | inr text => text
      | inl e => JStr (u "摘要生成失败: " ++ str_exc e)
      end.

Definition unavailable : pystr := u "无法获取视频内容（无字幕、无描述信息）".

Definition unavailable_result (title channel_name video_id : pystr) : SummaryResult :=
  {| r_title := title; r_channel := channel_name;
     r_summary := JStr unavailable;
     r_video_id := video_id;
     r_url := watch_url video_id;
     r_content_type := u "failed";
     r_success := None |}.

Definition process_video (w : World) (video_info : VideoInfo) : T (option SummaryResult) :=
  match get_videoId video_info with
  | None => tret None
  | Some video_id =>
      if negb (truthy video_id) then tret None
      else
        let title := default (u "") (get_title video_info) in
        let channel_name := default (u "") (get_channelTitle video_info) in
        tbind (get_content_with_fallbacks w video_id)
          (fun r =>
             match r with
             | None => tret (Some (unavailable_result title channel_name video_id))
             | Some (content, content_type) =>
                 if negb (truthy content)
                 then tret (Some (unavailable_result title channel_name video_id))
                 else
                   tbind (summarize_content w content title channel_name content_type)
                     (fun summary =>
                        tret (Some {| r_title := title; r_channel := channel_name;
                                      r_summary := summary;
                                      r_video_id := video_id;
                                      r_url := watch_url video_id;
                                      r_content_type := content_type;
                                      r_success := None |}))
             end)
  end.

End WithInterpreter.
End HybridSummarizer.

(** ** [src/fixed_pdf_generator.py] *)

Module FixedPDFGenerator.

Inductive style : Type :=
| header_style
| title_style
| meta_style
| link_style
| summary_style.

Definition style_eqb (a b : style) : bool :=
  match a, b with
  | header_style, header_style => true
  | title_style, title_style => true
  | meta_style, meta_style => true
  | link_style, link_style => true
  | summary_style, summary_style => true
  | _, _ => false
  end.

(** The flowables appended to [story]. *)
Inductive flowable : Type :=
| Paragraph (text : pystr) (st : style)
| Spacer (width height : N).

(** One element of [summaries], read with [.get(key, default)]:
    [None] is an absent key.  Under ['summary'] the value may also be
    Python's [None] ([Some None]). *)
Record Entry : Type := {
  e_title : option pystr;
  e_channel : option pystr;
  e_summary : option (option pystr);
  e_url : option pystr
}.

(** The clock, the file system and reportlab, as [generate_report]
    meets them. *)
Record Lib : Type := {
  (** [datetime.now().strftime("%Y年%m月%d日")] *)
  current_date : pystr;
  (** [datetime.now().strftime('%Y%m%d_%H%M%S')] *)
  timestamp : pystr;
  (** [os.makedirs(os.path.dirname(output_path), exist_ok=True)] does
      not raise (or there is no directory part) *)
  makedirs_ok : pystr -> bool;
  (** [Paragraph(text, style)] accepts the markup *)
  paragraph_ok : pystr -> style -> bool;
  (** [doc.build(story)] does not raise *)
  build_ok : pystr -> list flowable -> bool
}.

(** [str(n)] *)
Definition str_of_nat (n : nat) : pystr := u (NilEmpty.string_of_uint (Nat.to_uint n)).

Section WithInterpreter.

Variable lower : pystr -> pystr.

Definition translations : list (pystr * pystr) :=
  [ (u "Write Things Down", u "记录想法");
    (u "Navigating Data Chaos A New Approach", u "应对数据混乱的新方法");
    (u "Opendoor is a Software Business", u "Opendoor是一个软件企业");
    (u "Modern Politics and Starting a New Country", u "现代政治与创建新国家");
    (u "There's never been more opportunities for young people, IF you work hard!",
     u "年轻人从未有过如此多的机会，如果你努力工作！");
    (u "How Britain Defeated Germany On The Atlantic", u "英国如何在大西洋击败德国");
    (u "How to Live in Everyone Else's Future", u "如何活在他人的未来中");
    (u "Balaji Srinivasan", u "巴拉吉·斯里尼瓦桑") ].

(** [translations[title]] when [title in translations]. *)
Fixpoint exact (title : pystr) (table : list (pystr * pystr)) : option pystr :=
  match table with
  | [] => None
  | (en, zh) :: rest => if str_eqb title en then Some zh else exact title rest
  end.

(** [en.lower() in title.lower() or
     any(word in title.lower() for word in en.lower().split()[:2])] *)
Definition partial_match (title en : pystr) : bool :=
  contains (lower en) (lower title)
  || existsb (fun word => contains word (lower title)) (take 2 (split_ws (lower en))).

Fixpoint first_partial (title : pystr) (table : list (pystr * pystr)) : option pystr :=
  match table with
  | [] => None
  | (en, zh) :: rest =>
      if partial_match title en then Some zh else first_partial title rest
  end.

Definition translate_title (title : pystr) : pystr :=
  match exact title translations with
  | Some zh => zh
  | None =>
      match first_partial title translations with
      | Some zh => zh
      | None => title
      end
  end.

Definition placeholder : pystr :=
  u "该视频的摘要内容暂时无法获取，请通过上方链接观看完整视频。".

Definition terminators : list pystr :=
  [u "。"; u "！"; u "？"; u "."; u "!"; u "?"].

(** The paragraphs appended for a non-blank [content]. *)
Definition body_paragraphs (content : pystr) : list pystr :=
  let paragraphs := split (nl ++ nl) content in
  let paragraphs :=
    if (length paragraphs =? 0)%nat || (length paragraphs =? 1)%nat
    then map (fun p => strip p ++ u "。")
             (List.filter (fun p => truthy (strip p)) (split (u "。") content))
    else paragraphs in
  flat_map
    (fun para =>
       let para := strip para in
       if truthy para
       then [ if negb (existsb (fun t => endswith t para) terminators)
              then para ++ u "。" else para ]
       else [])
    paragraphs.

Definition title_text (title : pystr) : pystr :=
  let translated_title := translate_title title in
  if negb (str_eqb translated_title title)
  then u "<b>" ++ title ++ u "</b><br/><i>(" ++ translated_title ++ u ")</i>"
  else u "<b>" ++ title ++ u "</b>".

Definition link_text (video_url : pystr) : pystr :=
  u "<link href=" ++ dq ++ video_url ++ dq ++ u " color=" ++ dq ++ u "blue" ++ dq
  ++ u ">🔗 观看视频: " ++ video_url ++ u "</link>".

(** The body of one turn of [for i, summary in enumerate(summaries, 1)],
    without the separator. *)
Definition section_of (summary : Entry) : list flowable :=
  let title := default (u "未知标题") (e_title summary) in
  let channel := default (u "未知频道") (e_channel summary) in
  let content := default (Some (u "无内容")) (e_summary summary) in
  let video_url := default (u "") (e_url summary) in
  [Paragraph (title_text title) title_style]
  ++ [Paragraph (u "频道：" ++ channel) meta_style]
  ++ (if truthy video_url then [Paragraph (link_text video_url) link_style] else [])
  ++ match content with
     | Some text =>
         if truthy text && (0 <? len (strip text))%nat
         then map (fun para => Paragraph para summary_style) (body_paragraphs text)
         else [Paragraph placeholder summary_style]
     | None => [Paragraph placeholder summary_style]
     end.

(** One turn with its separator; [i] counts from 1, [n] is
    [len(summaries)]. *)
Definition section_at (n i : nat) (summary : Entry) : list flowable :=
  section_of summary ++ (if (i <? n)%nat then [Spacer 1 20] else []).

Definition header_text (lib : Lib) (n : nat) : pystr :=
  current_date lib ++ u " YouTube播客摘要 (共" ++ str_of_nat n ++ u "个视频)".

(** The [story] handed to [doc.build]. *)
Definition build_story (lib : Lib) (summaries : list Entry) : list flowable :=
  Paragraph (header_text lib (length summaries)) header_style
  :: concat (imap (fun i summary => section_at (length summaries) (S i) summary) summaries).

Definition flowable_ok (lib : Lib) (f : flowable) : bool :=
  match f with
  | Paragraph text st => paragraph_ok lib text st
  | Spacer _ _ => true
  end.

(** [generate_report(summaries, output_path)]: the path written, or
    [None] when anything inside the [try] raised. *)
Definition generate_report (lib : Lib) (summaries : list Entry) (output_path : pystr)
  : option pystr :=
  let output_path :=
    if negb (truthy output_path)
    then u "fixed_report_" ++ timestamp lib ++ u ".pdf"
    else output_path in
  let story := build_story lib summaries in
  if makedirs_ok lib output_path
     && forallb (flowable_ok lib) story
     && build_ok lib output_path story
  then Some output_path
  else None.

End WithInterpreter.
End FixedPDFGenerator.

(** ** [src/email_sender.py] *)

Module EmailSender.

Inductive part : Type :=
| TextPart (body : pystr)
| Attachment (content_disposition : pystr) (payload : list N).

(** The [MIMEMultipart] message. *)
Record message : Type := {
  m_from : pystr;
  m_to : pystr;
  m_subject : pystr;
  m_parts : list part
}.

(** The clock and the file system. *)
Record Host : Type := {
  (** [datetime.now().strftime('%Y年%m月%d日')] *)
  today : pystr;
  (** [datetime.now().strftime('%Y-%m-%d %H:%M:%S')] *)
  now : pystr;
  (** [os.path.exists] *)
  exists_ : pystr -> bool;
  (** [open(path, "rb").read()] *)
  read_file : pystr -> M (list N);
  (** [os.path.basename] *)
  basename : pystr -> pystr
}.

(** What each call of the [try] block does: [None] is a normal
    return, [Some e] the exception raised.  [as_string] is
    [msg.as_string()] of the email library: the text of the message, or
    the exception raised while flattening it.  [sendmail] takes the
    sender, the recipient and that text. *)
Record Smtp : Type := {
  connect : option exc;
  starttls : option exc;
  login : option exc;
  as_string : message -> M pystr;
  sendmail : pystr -> pystr -> pystr -> option exc;
  quit : option exc
}.

(** How [send_report] ends. *)
Inductive ending : Type :=
| Returns (b : bool)
| Propagates (e : exc).

Section WithAccount.

(** [self.username]. *)
Variable username : pystr.

Definition default_subject (h : Host) : pystr :=
  u "AI科技播客每日摘要 - " ++ today h.

Definition body (h : Host) : pystr :=
  nl ++ u "        您好！" ++ nl
  ++ nl ++ u "        这是您订阅的AI科技播客每日摘要报告。" ++ nl
  ++ nl ++ u "        报告包含了今日最新的YouTube订阅频道视频内容摘要，" ++ nl
  ++ u "        通过Gemini AI智能分析生成，帮助您快速了解技术动态。" ++ nl
  ++ nl ++ u "        请查看附件中的PDF报告。" ++ nl
  ++ nl ++ u "        报告生成时间: " ++ now h ++ nl
  ++ nl ++ u "        祝您学习愉快！" ++ nl
  ++ u "        ".

(** The statements before the [try]: the message, or the exception
    raised while reading the attachment. *)
Definition build_message (h : Host) (to_email : pystr) (pdf_path subject : option pystr)
  : M message :=
  let subject :=
    match subject with
    | Some s => if truthy s then s else default_subject h
    | None => default_subject h
    end in
  let base := [TextPart (body h)] in
  let attach (parts : list part) : M message :=
    ret {| m_from := username; m_to := to_email; m_subject := subject;
           m_parts := parts |} in
  match pdf_path with
  | Some path =>
      if truthy path && exists_ h path
      then bind (read_file h path) (fun payload =>
             attach (base ++ [Attachment (u "attachment; filename= " ++ basename h path)
                                         payload]))
      else attach base
  | None => attach base
  end.

(** The [try] block: the session runs until a call raises. *)
Definition session (smtp : Smtp) (to_email : pystr) (msg : message) : M unit :=
  match connect smtp with
  | Some e => raise e
  | None =>
      match starttls smtp with
      | Some e => raise e
      | None =>
          match login smtp with
          | Some e => raise e
          | None =>
              match as_string smtp msg with
              | inl e => raise e
              | inr text =>
                  match sendmail smtp username to_email text with
                  | Some e => raise e
                  | None =>
                      match quit smtp with
                      | Some e => raise e
                      | None => ret tt
                      end
                  end
              end
          end
      end
  end.

(** The message whose text is handed to [server.sendmail], when the
    session gets that far: the three calls on the server and
    [msg.as_string()] have returned. *)
Definition handed_over (smtp : Smtp) (msg : message) : option message :=
  match connect smtp, starttls smtp, login smtp, as_string smtp msg with
  | None, None, None, inr _ => Some msg
  | _, _, _, _ => None
  end.

(** [send_report(to_email, pdf_path, subject)]: how it ends, and the
    message given to [sendmail] if any. *)
Definition send_report (h : Host) (smtp : Smtp)
    (to_email : pystr) (pdf_path subject : option pystr)
  : ending * option message :=
  match build_message h to_email pdf_path subject with
  | inl e => (Propagates e, None)
  | inr msg =>
      match session smtp to_email msg with
      | inr _ => (Returns true, handed_over smtp msg)
      | inl _ => (Returns false, handed_over smtp msg)
      end
  end.

End WithAccount.
End EmailSender.

(** ** Vocabulary of the statements *)

Module Props.

(** The ways one chat-completion call can fail, with the exception the
    [except] clause receives: the network call, the HTTP status check,
    the decoding of the body, or the walk to the first choice's
    content. *)
Inductive call_failure : response -> exc -> Prop :=
| network_failure e : call_failure (PostRaises e) e
| http_failure e : call_failure (StatusRaises e) e
| decode_failure e : call_failure (JsonRaises e) e
| malformed_body body e :
    first_choice_content body = inl e -> call_failure (Parsed body) e.

Definition call_fails (r : response) : bool :=
  match bind (exchange r) first_choice_content with
  | inl _ => true
  | inr _ => false
  end.

(** The request unit [i] sends, for each dispatcher. *)
Definition parallel_request (api_key : pystr) (video : VideoInfo) : request :=
  ParallelSummarizer.build_request api_key (watch_url (default (u "") (get_videoId video))).

Definition fixed_request (api_key : pystr) (video : VideoInfo) : request :=
  FixedSummarizer.build_request api_key
    (default (u "Unknown") (get_title video))
    (watch_url (default (u "") (get_videoId video))).

Definition count_true (l : list bool) : nat := length (List.filter (fun b => b) l).

(** K: how many of the submitted units fail inside the unit of work. *)
Definition parallel_failures (api_key : pystr) (net : nat -> request -> response)
    (videos : list VideoInfo) : nat :=
  count_true (imap (fun i video => call_fails (net i (parallel_request api_key video))) videos).

Definition fixed_unit_fails (r : response) : bool :=
  match bind (bind (exchange r) first_choice_content) FixedSummarizer.strip_value with
  | inl _ => true
  | inr _ => false
  end.

Definition fixed_failures (api_key : pystr) (net : nat -> request -> response)
    (videos : list VideoInfo) : nat :=
  count_true (imap (fun i video => fixed_unit_fails (net i (fixed_request api_key video))) videos).

Definition failure_tagged (r : SummaryResult) : bool :=
  match r_success r with
  | Some false => true
  | _ => false
  end.

Definition success_tagged (r : SummaryResult) : bool :=
  match r_success r with
  | Some true => true
  | _ => false
  end.

Definition is_log_failed (e : log_event) : bool :=
  match e with
  | LogFailed _ => true
  | _ => false
  end.

(** A rendering of [str(e)] for running the functions on concrete
    inputs: the message of a library error, the class name of the
    others. *)
Definition sample_str_exc (e : exc) : pystr :=
  match e with
  | LibraryError _ msg => msg
  | KeyError _ => u "KeyError"
  | IndexError _ => u "IndexError"
  | TypeError _ => u "TypeError"
  | AttributeError _ => u "AttributeError"
  end.

Definition video (video_id title channel : string) : VideoInfo :=
  {| vi_id := Some {| videoId := Some (u video_id) |};
     vi_snippet := Some {| title := Some (u title); channelTitle := Some (u channel) |} |}.

Definition timeout : exc :=
  LibraryError (u "ReadTimeout") (u "Read timed out. (read timeout=120)").

(** A well-formed body whose first choice carries [text]. *)
Definition completion (text : pystr) : json :=
  JObj [ (u "choices",
          JArr [ JObj [ (u "message",
                         JObj [ (u "role", JStr (u "assistant"));
                                (u "content", JStr text) ]) ] ]) ].

(** Three videos A, B, C; the call of B times out, the others are
    answered with a 120-character text. *)
Definition abc : list VideoInfo :=
  [video "idA" "A" "ch"; video "idB" "B" "ch"; video "idC" "C" "ch"].

Definition long_text : pystr := repeat 20320 120.

Definition b_times_out (i : nat) (_ : request) : response :=
  if (i =? 1)%nat then PostRaises timeout else Parsed (completion long_text).

Definition all_answered (_ : nat) (_ : request) : response :=
  Parsed (completion long_text).

(** What one completed future contributes to [results]. *)
Definition kept_parallel (done : VideoInfo * outcome) : option SummaryResult :=
  match snd done with
  | Returned r => if success_tagged r then Some r else None
  | Raises _ => None
  end.

Definition kept_fixed (done : VideoInfo * outcome) : option SummaryResult :=
  match snd done with
  | Returned r => Some r
  | Raises _ => None
  end.

(** The results of the units, in submission order. *)
Definition parallel_units (str_exc : exc -> pystr) (api_key : pystr)
    (net : nat -> request -> response) (videos : list VideoInfo) : list SummaryResult :=
  imap (fun i video => ParallelSummarizer._make_api_call str_exc api_key (net i) video) videos.

Definition fixed_units (lower : pystr -> pystr) (api_key : pystr)
    (net : nat -> request -> response) (videos : list VideoInfo) : list SummaryResult :=
  imap (fun i video => FixedSummarizer._make_api_call lower api_key (net i) video) videos.

(** The text a transcript call yields when it returns and passes the
    length test. *)
Definition usable (accept : pystr -> bool) (got : M (list pystr)) : option pystr :=
  match got with
  | inr parts => if accept (join (u " ") parts) then Some (join (u " ") parts) else None
  | inl _ => None
  end.

Definition language_unusable (w : World) (accept : pystr -> bool) (video_id lang : pystr)
  : Prop :=
  usable accept (get_transcript w video_id lang) = None.

Definition listed_unusable (accept : pystr -> bool) (g : bool) (t : Transcript) : Prop :=
  is_generated t = g -> usable accept (fetch t) = None.

(** Some transcript of the video can be fetched and passes the length
    test: in a language of the preference list, or among the listed
    transcripts. *)
Definition has_transcript (w : World) (accept_lang accept_listed : pystr -> bool)
    (langs : list pystr) (video_id : pystr) : Prop :=
  (exists lang text, lang ∈ langs
      /\ usable accept_lang (get_transcript w video_id lang) = Some text)
  \/ (exists listed t text, list_transcripts w video_id = inr listed
      /\ t ∈ listed /\ usable accept_listed (fetch t) = Some text).

(** Which transcript the resolvers pick: the first usable language of
    the preference list; failing that, the first usable generated
    transcript of the listing; failing that, the first usable manual
    one. *)
Inductive picked (w : World) (accept_lang accept_listed : pystr -> bool)
    (langs : list pystr) (tag_lang : pystr -> pystr) (tag_generated tag_manual : pystr)
    (video_id : pystr) : pystr * pystr -> Prop :=
| picked_language pre lang post text :
    langs = pre ++ lang :: post ->
    Forall (language_unusable w accept_lang video_id) pre ->
    usable accept_lang (get_transcript w video_id lang) = Some text ->
    picked w accept_lang accept_listed langs tag_lang tag_generated tag_manual video_id
      (text, tag_lang lang)
| picked_generated listed pre t post text :
    Forall (language_unusable w accept_lang video_id) langs ->
    list_transcripts w video_id = inr listed ->
    listed = pre ++ t :: post ->
    Forall (listed_unusable accept_listed true) pre ->
    is_generated t = true ->
    usable accept_listed (fetch t) = Some text ->
    picked w accept_lang accept_listed langs tag_lang tag_generated tag_manual video_id
      (text, tag_generated)
| picked_manual listed pre t post text :
    Forall (language_unusable w accept_lang video_id) langs ->
    list_transcripts w video_id = inr listed ->
    Forall (listed_unusable accept_listed true) listed ->
    listed = pre ++ t :: post ->
    Forall (listed_unusable accept_listed false) pre ->
    is_generated t = false ->
    usable accept_listed (fetch t) = Some text ->
    picked w accept_lang accept_listed langs tag_lang tag_generated tag_manual video_id
      (text, tag_manual).

(** A video for which no transcript exists: every language request
    raises, and the listing raises or is empty. *)
Definition no_transcripts (w : World) (video_id : pystr) : Prop :=
  (forall lang, exists e, get_transcript w video_id lang = inl e)
  /\ ((exists e, list_transcripts w video_id = inl e)
      \/ list_transcripts w video_id = inr []).

Definition no_post (trace : list event) : Prop :=
  Forall (fun e => is_post e = false) trace.

Definition no_details (trace : list event) : Prop :=
  Forall (fun e => is_details e = false) trace.

(** Only transcript calls: neither the details service nor the
    endpoint. *)
Definition transcript_calls_only (trace : list event) : Prop :=
  Forall (fun e => is_post e = false /\ is_details e = false) trace.

Definition no_transcript_found : exc :=
  LibraryError (u "NoTranscriptFound") (u "No transcripts were found").

Definition transcripts_disabled : exc :=
  LibraryError (u "TranscriptsDisabled") (u "Subtitles are disabled for this video").

Definition item_with (description : pystr) : VideoItem :=
  {| it_title := u "T"; it_description := description; it_channel := u "ch";
     it_duration := u "PT10M"; it_view_count := Some (u "12");
     it_published_at := u "2024-01-01T00:00:00Z" |}.

(** A world without any transcript, whose video has the given
    description; the endpoint answers every request with [long_text]. *)
Definition captionless (description : pystr) : World :=
  {| get_transcript := fun _ _ => inl no_transcript_found;
     list_transcripts := fun _ => inl transcripts_disabled;
     youtube_service := Some (fun _ => inr [item_with description]);
     post := fun _ => Parsed (completion long_text) |}.

(** A world whose only transcript is the English one, made of the given
    snippets. *)
Definition english_only (snippets : list pystr) (description : pystr) : World :=
  {| get_transcript := fun _ lang =>
       if str_eqb lang (u "en") then inr snippets else inl no_transcript_found;
     list_transcripts := fun _ =>
       inr [ {| is_generated := false; fetch := inr snippets |} ];
     youtube_service := Some (fun _ => inr [item_with description]);
     post := fun _ => Parsed (completion long_text) |}.

(** A world whose endpoint answers every request with an HTTP error
    status. *)
Definition rate_limited : World :=
  {| get_transcript := fun _ _ => inl no_transcript_found;
     list_transcripts := fun _ => inl transcripts_disabled;
     youtube_service := None;
     post := fun _ => StatusRaises (LibraryError (u "HTTPError")
                                      (u "429 Client Error: Too Many Requests")) |}.

(** The texts of the paragraphs of a given style, in story order. *)
Fixpoint paragraphs_in (st : FixedPDFGenerator.style)
    (story : list FixedPDFGenerator.flowable) : list pystr :=
  match story with
  | [] => []
  | FixedPDFGenerator.Paragraph text st' :: rest =>
      if FixedPDFGenerator.style_eqb st' st then text :: paragraphs_in st rest
      else paragraphs_in st rest
  | FixedPDFGenerator.Spacer _ _ :: rest => paragraphs_in st rest
  end.

(** A section of the report starts at its title paragraph. *)
Definition section_titles (story : list FixedPDFGenerator.flowable) : list pystr :=
  paragraphs_in FixedPDFGenerator.title_style story.

Definition body_of (story : list FixedPDFGenerator.flowable) : list pystr :=
  paragraphs_in FixedPDFGenerator.summary_style story.

(** The summary is [None], empty, or made of white space only. *)
Definition blank_body (s : FixedPDFGenerator.Entry) : Prop :=
  FixedPDFGenerator.e_summary s = Some None
  \/ exists text, FixedPDFGenerator.e_summary s = Some (Some text) /\ strip text = [].

Definition entry (title summary : string) : FixedPDFGenerator.Entry :=
  {| FixedPDFGenerator.e_title := Some (u title);
     FixedPDFGenerator.e_channel := Some (u "ch");
     FixedPDFGenerator.e_summary := Some (Some (u summary));
     FixedPDFGenerator.e_url := Some (u "https://www.youtube.com/watch?v=x") |}.

Definition sample_lib : FixedPDFGenerator.Lib :=
  {| FixedPDFGenerator.current_date := u "2026年11月04日";
     FixedPDFGenerator.timestamp := u "20261104_080000";
     FixedPDFGenerator.makedirs_ok := fun _ => true;
     FixedPDFGenerator.paragraph_ok := fun _ _ => true;
     FixedPDFGenerator.build_ok := fun _ _ => true |}.

(** Every call of the SMTP session returns normally: the three calls
    that open it, the flattening of the message, [sendmail] on its text
    and [quit]. *)
Definition smtp_ok (smtp : EmailSender.Smtp) (msg : EmailSender.message) : Prop :=
  EmailSender.connect smtp = None /\ EmailSender.starttls smtp = None
  /\ EmailSender.login smtp = None
  /\ (exists text,
        EmailSender.as_string smtp msg = inr text
        /\ EmailSender.sendmail smtp (EmailSender.m_from msg) (EmailSender.m_to msg) text
           = None)
  /\ EmailSender.quit smtp = None.

Definition has_attachment (msg : EmailSender.message) : bool :=
  existsb (fun p => match p with
                    | EmailSender.Attachment _ _ => true
                    | EmailSender.TextPart _ => false
                    end) (EmailSender.m_parts msg).

Definition sample_host : EmailSender.Host :=
  {| EmailSender.today := u "2026年11月04日";
     EmailSender.now := u "2026-11-04 08:00:00";
     EmailSender.exists_ := fun _ => false;
     EmailSender.read_file := fun _ =>
       inl (LibraryError (u "FileNotFoundError") (u "No such file or directory"));
     EmailSender.basename := fun p => p |}.

(** A flattening of the message that, like the email library, refuses
    a header value with a line break in it. *)
Definition flatten (msg : EmailSender.message) : M pystr :=
  if contains nl (EmailSender.m_subject msg)
  then inl (LibraryError (u "HeaderParseError")
              (u "header value appears to contain an embedded header"))
  else inr (u "From: " ++ EmailSender.m_from msg ++ nl
            ++ u "To: " ++ EmailSender.m_to msg ++ nl
            ++ u "Subject: " ++ EmailSender.m_subject msg ++ nl).

Definition working_smtp : EmailSender.Smtp :=
  {| EmailSender.connect := None; EmailSender.starttls := None;
     EmailSender.login := None;
     EmailSender.as_string := flatten;
     EmailSender.sendmail := fun _ _ _ => None;
     EmailSender.quit := None |}.

Definition refusing_smtp : EmailSender.Smtp :=
  {| EmailSender.connect := None; EmailSender.starttls := None;
     EmailSender.login := Some (LibraryError (u "SMTPAuthenticationError")
                                  (u "535 Username and Password not accepted"));
     EmailSender.as_string := flatten;
     EmailSender.sendmail := fun _ _ _ => None;
     EmailSender.quit := None |}.

End Props.

Import Props.

(** ** [extract_video_id] of [src/enhanced_summarizer.py] *)

Module VideoUrl.

(** The class [[^&\n?#]]. *)
Definition id_char (c : N) : bool :=
  negb (c =? 38) && negb (c =? 10) && negb (c =? 63) && negb (c =? 35).

Fixpoint span (p : N -> bool) (s : pystr) : pystr :=
  match s with
  | [] => []
  | c :: s' => if p c then c :: span p s' else []
  end.

(** The group [([^&\n?#]+)] matched at the head of [s]: the longest
    run of such characters, which must not be empty. *)
Definition group (s : pystr) : option pystr :=
  match span id_char s with
  | [] => None
  | g => Some g
  end.

(** A literal, then the group. *)
Definition literal_then_group (lit s : pystr) : option pystr :=
  if startswith lit s then group (drop (length lit) s) else None.

(** An alternation of literals, tried in order, then the group. *)
Fixpoint alternatives_then_group (lits : list pystr) (s : pystr) : option pystr :=
  match lits with
  | [] => None
  | lit :: rest =>
      match literal_then_group lit s with
      | Some g => Some g
      | None => alternatives_then_group rest s
      end
  end.

(** [.*v=([^&\n?#]+)] at the head of [s]: the greedy [.*] stays on the
    line and gives back characters until ["v="] and the group match, so
    the last such place on the line is taken. *)
Fixpoint greedy_then_v (s : pystr) : option pystr :=
  let here := literal_then_group (u "v=") s in
  match s with
  | [] => here
  | c :: s' =>
      if c =? 10 then here
      else match greedy_then_v s' with
           | Some g => Some g
           | None => here
           end
  end.

(** [re.search]: the match at the leftmost place where there is one. *)
Fixpoint search (match_here : pystr -> option pystr) (s : pystr) : option pystr :=
  match match_here s with
  | Some g => Some g
  | None =>
      match s with
      | [] => None
      | _ :: s' => search match_here s'
      end
  end.

(** The three patterns, each as its match at one place. *)
Definition pattern1 (s : pystr) : option pystr :=
  alternatives_then_group
    [u "youtube.com/watch?v="; u "youtu.be/"; u "youtube.com/embed/"] s.

Definition pattern2 (s : pystr) : option pystr :=
  literal_then_group (u "youtube.com/v/") s.

Definition pattern3 (s : pystr) : option pystr :=
  if startswith (u "youtube.com/watch?") s
  then greedy_then_v (drop (length (u "youtube.com/watch?")) s)
  else None.

(** [extract_video_id(url)]: group 1 of the first pattern that
    matches. *)
Definition extract_video_id (url : pystr) : option pystr :=
  match search pattern1 url with
  | Some g => Some g
  | None =>
      match search pattern2 url with
      | Some g => Some g
      | None => search pattern3 url
      end
  end.

End VideoUrl.

(** ** [src/youtube_client.py] *)

Module YouTubeClient.

(** A [Credentials] object: the three attributes [authenticate] reads,
    and its [to_json()]. *)
Record Credentials : Type := {
  valid : bool;
  expired : bool;
  refresh_token : option pystr;
  to_json : pystr
}.

(** What the libraries and the file system do for [authenticate]. *)
Record AuthHost : Type := {
  (** [os.path.exists('token.json')] *)
  token_exists : bool;
  (** [Credentials.from_authorized_user_file('token.json', SCOPES)] *)
  load_token : M Credentials;
  (** [creds.refresh(Request())]: the credentials afterwards *)
  refresh : Credentials -> M Credentials;
  (** [InstalledAppFlow.from_client_secrets_file(...)] followed by
      [flow.run_local_server(port=0)] *)
  run_flow : M Credentials;
  (** writing [token.json] *)
  write_token : pystr -> option exc;
  (** [build('youtube', 'v3', credentials=creds)] *)
  build_service : Credentials -> option exc
}.

Inductive auth_event : Type :=
| AuthLoad
| AuthRefresh
| AuthFlow
| AuthWrite (token : pystr)
| AuthBuild.

(** The client: [self.service] is set or [None]. *)
Record Client : Type := { service : bool }.

Definition new_client : Client := {| service := false |}.

(** The statements of [authenticate] after [creds] is known. *)
Definition finish (ah : AuthHost) (c : Client) (creds : Credentials)
    (trace : list auth_event) (fresh : bool)
  : (exc + Client) * list auth_event :=
  let write :=
    if fresh then
      match write_token ah (to_json creds) with
      | Some e => (Some e, trace ++ [AuthWrite (to_json creds)])
      | None => (None, trace ++ [AuthWrite (to_json creds)])
      end
    else (None, trace) in
  match write with
  | (Some e, trace') => (inl e, trace')
  | (None, trace') =>
      match build_service ah creds with
      | Some e => (inl e, trace' ++ [AuthBuild])
      | None => (inr {| service := true |}, trace' ++ [AuthBuild])
      end
  end.

(** [creds = flow.run_local_server(port=0)] and what follows. *)
Definition via_flow (ah : AuthHost) (c : Client) (trace : list auth_event)
  : (exc + Client) * list auth_event :=
  match run_flow ah with
  | inl e => (inl e, trace ++ [AuthFlow])
  | inr creds => finish ah c creds (trace ++ [AuthFlow]) true
  end.

(** [authenticate()]: the client afterwards, or the exception that
    leaves it, and the calls made. *)
Definition authenticate (ah : AuthHost) (c : Client) : (exc + Client) * list auth_event :=
  if token_exists ah then
    match load_token ah with
    | inl e => (inl e, [AuthLoad])
    | inr creds =>
        if negb (valid creds) then
          if expired creds && match refresh_token creds with
                              | Some t => truthy t
                              | None => false
                              end
          then
            match refresh ah creds with
            | inl e => (inl e, [AuthLoad; AuthRefresh])
            | inr creds' => finish ah c creds' [AuthLoad; AuthRefresh] true
            end
          else via_flow ah c [AuthLoad]
        else finish ah c creds [AuthLoad] false
    end
  else via_flow ah c [].

Definition not_authenticated : exc :=
  LibraryError (u "Exception") (u "Not authenticated. Call authenticate() first.").

(** [get_subscriptions] and [get_channel_latest_videos]: [execute] is
    what [request.execute()] does. *)
Definition guarded {A} (c : Client) (execute : M A) : M A :=
  if negb (service c) then raise not_authenticated else execute.

End YouTubeClient.

(** ** [process_daily_summaries] of [src/main.py] *)

Module Main.

(** An item of the subscription list: [None] where
    [subscription['snippet']['resourceId']['channelId']] or
    [subscription['snippet']['title']] raises [KeyError]. *)
Record Subscription : Type := {
  channelId : option pystr;
  channel_title : option pystr
}.

(** The application object: each component is set or [None]. *)
Record App : Type := {
  youtube_client : option YouTubeClient.Client;
  (** the [FixedSummarizer], by its api key *)
  summarizer : option pystr;
  report_generator : bool;
  (** the [EmailSender], by its user name *)
  email_sender : option pystr;
  (** [config.pdf_output_dir] and [config.email_to] *)
  pdf_output_dir : pystr;
  email_to : pystr
}.

(** Everything outside the program that one run meets. *)
Record Host : Type := {
  auth : YouTubeClient.AuthHost;
  (** [subscriptions().list(...).execute()]: the value of
      [subscriptions.get('items')] *)
  subscriptions : M (option (list Subscription));
  (** [search().list(channelId=...).execute()]: the value of
      [videos.get('items', [])] *)
  channel_videos : pystr -> M (list VideoInfo);
  (** the endpoint as the units of the pool meet it, and the order in
      which the futures complete *)
  net : nat -> request -> response;
  order : list nat;
  (** [output_dir.mkdir(exist_ok=True)] *)
  mkdir : option exc;
  (** [str(output_dir / name)] *)
  path_join : pystr -> pystr -> pystr;
  (** [datetime.now().strftime("%Y%m%d_%H%M%S")] *)
  timestamp : pystr;
  pdf : FixedPDFGenerator.Lib;
  mail : EmailSender.Host;
  smtp : EmailSender.Smtp
}.

(** What ends a run early inside the outer [try]. *)
Inductive crash : Type :=
| Raised (e : exc)
| AttributeOfNone (attribute : pystr)
| UnboundLocal (name : pystr).

Inductive run_end : Type :=
| Crashed (c : crash)
| NoSubscriptions
| NoSummaries
| ReportFailed
| EmailFailed
| Completed.

(** The loop over the subscriptions.  [title] is the local variable
    [channel_title]: [None] until its first assignment.  An exception in
    the body is handled by logging [channel_title], which raises when it
    is still unbound. *)
Fixpoint collect_videos (search : pystr -> M (list VideoInfo))
    (subs : list Subscription) (title : option pystr)
    (all_videos : list VideoInfo) (processed_channels : nat)
  : crash + (list VideoInfo * nat) :=
  match subs with
  | [] => inr (all_videos, processed_channels)
  | subscription :: rest =>
      match channelId subscription with
      | None =>
          match title with
          | None => inl (UnboundLocal (u "channel_title"))
          | Some _ => collect_videos search rest title all_videos processed_channels
          end
      | Some channel_id =>
          match channel_title subscription with
          | None =>
              match title with
              | None => inl (UnboundLocal (u "channel_title"))
              | Some _ => collect_videos search rest title all_videos processed_channels
              end
          | Some t =>
              match search channel_id with
              | inl _ => collect_videos search rest (Some t) all_videos processed_channels
              | inr videos =>
                  collect_videos search rest (Some t) (all_videos ++ videos)
                    (S processed_channels)
              end
          end
      end
  end.

(** Python's truth value of a value under ['summary']. *)
Definition json_truthy (x : json) : bool :=
  match x with
  | JNull => false
  | JBool b => b
  | JInt z => negb (z =? 0)%Z
  | JFloat bits => negb ((bits =? 0) || (bits =? 9223372036854775808))
  | JStr s => truthy s
  | JArr l => match l with [] => false | _ => true end
  | JObj m => match m with [] => false | _ => true end
  end.

(** A result dict as [generate_report] reads it.  A body that is not a
    string is rendered as a missing one when it is false, and makes
    [content.strip()] raise when it is true: [None]. *)
Definition entry_of (r : SummaryResult) : option FixedPDFGenerator.Entry :=
  let with_body (b : option pystr) :=
    {| FixedPDFGenerator.e_title := Some (r_title r);
       FixedPDFGenerator.e_channel := Some (r_channel r);
       FixedPDFGenerator.e_summary := Some b;
       FixedPDFGenerator.e_url := Some (r_url r) |} in
  match r_summary r with
  | JStr s => Some (with_body (Some s))
  | x => if json_truthy x then None else Some (with_body None)
  end.

Fixpoint entries_of (summaries : list SummaryResult) : option (list FixedPDFGenerator.Entry) :=
  match summaries with
  | [] => Some []
  | r :: rest =>
      match entry_of r, entries_of rest with
      | Some e, Some es => Some (e :: es)
      | _, _ => None
      end
  end.

(** [self.report_generator.generate_report(summaries, str(pdf_path))] *)
Definition generate (lower : pystr -> pystr) (lib : FixedPDFGenerator.Lib)
    (summaries : list SummaryResult) (pdf_path : pystr) : option pystr :=
  match entries_of summaries with
  | Some entries => FixedPDFGenerator.generate_report lower lib entries pdf_path
  | None => None
  end.

(** What a run leaves behind. *)
Record Run : Type := {
  ended : run_end;
  collected : list VideoInfo;
  summaries : list SummaryResult;
  generated_pdf : option pystr;
  handed_to_smtp : option EmailSender.message
}.

Definition stopped (e : run_end) (videos : list VideoInfo) (results : list SummaryResult)
    (report : option pystr) (msg : option EmailSender.message) : Run :=
  {| ended := e; collected := videos; summaries := results;
     generated_pdf := report; handed_to_smtp := msg |}.

Section WithInterpreter.

Variable lower : pystr -> pystr.

(** The part of [process_daily_summaries] after the videos are
    collected. *)
Definition summarize_and_deliver (app : App) (h : Host) (all_videos : list VideoInfo) : Run :=
  let dispatched : crash + list SummaryResult :=
    match all_videos with
    | [] => inr []
    | _ =>
        match summarizer app with
        | None => inl (AttributeOfNone (u "process_videos_parallel"))
        | Some api_key =>
            inr (fst (FixedSummarizer.process_videos_parallel lower api_key
                        (net h) (order h) all_videos))
        end
    end in
  match dispatched with
  | inl c => stopped (Crashed c) all_videos [] None None
  | inr [] => stopped NoSummaries all_videos [] None None
  | inr results =>
      match mkdir h with
      | Some e => stopped (Crashed (Raised e)) all_videos results None None
      | None =>
          let pdf_path :=
            path_join h (pdf_output_dir app)
              (u "podcast_summary_" ++ timestamp h ++ u ".pdf") in
          if negb (report_generator app)
          then stopped (Crashed (AttributeOfNone (u "generate_report")))
                 all_videos results None None
          else
            match generate lower (pdf h) results pdf_path with
            | None => stopped ReportFailed all_videos results None None
            | Some generated =>
                if negb (truthy generated)
                then stopped ReportFailed all_videos results (Some generated) None
                else
                  match email_sender app with
                  | None => stopped (Crashed (AttributeOfNone (u "send_report")))
                              all_videos results (Some generated) None
                  | Some username =>
                      match EmailSender.send_report username (mail h) (smtp h)
                              (email_to app) (Some generated) None with
                      | (EmailSender.Propagates e, msg) =>
                          stopped (Crashed (Raised e)) all_videos results (Some generated) msg
                      | (EmailSender.Returns true, msg) =>
                          stopped Completed all_videos results (Some generated) msg
                      | (EmailSender.Returns false, msg) =>
                          stopped EmailFailed all_videos results (Some generated) msg
                      end
                  end
            end
      end
  end.

(** [process_daily_summaries()] *)
Definition process_daily_summaries (app : App) (h : Host) : Run :=
  match youtube_client app with
  | None => stopped (Crashed (AttributeOfNone (u "authenticate"))) [] [] None None
  | Some client =>
      match fst (YouTubeClient.authenticate (auth h) client) with
      | inl e => stopped (Crashed (Raised e)) [] [] None None
      | inr client' =>
          match YouTubeClient.guarded client' (subscriptions h) with
          | inl e => stopped (Crashed (Raised e)) [] [] None None
          | inr None => stopped NoSubscriptions [] [] None None
          | inr (Some []) => stopped NoSubscriptions [] [] None None
          | inr (Some items) =>
              match collect_videos
                      (fun channel_id =>
                         YouTubeClient.guarded client' (channel_videos h channel_id))
                      items None [] 0 with
              | inl c => stopped (Crashed c) [] [] None None
              | inr (all_videos, _) => summarize_and_deliver app h all_videos
              end
          end
      end
  end.

End WithInterpreter.

End Main.

(** ** [load_settings] of [src/config_manager.py] *)

Module ConfigManager.

(** The settings dict, through its string keys, in insertion order.
    Keys that are not strings can enter it only from a settings file that
    is a list of pairs; no accessor reads them. *)
Definition settings : Type := list (pystr * json).

Definition default_settings : settings :=
  [ (u "max_videos_per_channel", JInt 3);
    (u "max_channels_to_process", JInt 20);
    (u "days_back_to_fetch", JInt 1);
    (u "schedule_time", JStr (u "08:00"));
    (u "pdf_output_dir", JStr (u "reports"));
    (u "log_level", JStr (u "INFO")) ].

(** [d.get(k)] *)
Fixpoint get (k : pystr) (d : settings) : option json :=
  match d with
  | [] => None
  | (k', v) :: rest => if str_eqb k k' then Some v else get k rest
  end.

(** [d[k] = v] *)
Fixpoint set_item (k : pystr) (v : json) (d : settings) : settings :=
  match d with
  | [] => [(k, v)]
  | (k', v') :: rest =>
      if str_eqb k k' then (k', v) :: rest else (k', v') :: set_item k v rest
  end.

(** The keys of a parsed object, each once, in order of first
    appearance. *)
Fixpoint keys (m : list (pystr * json)) (seen : list pystr) : list pystr :=
  match m with
  | [] => []
  | (k, _) :: rest =>
      if existsb (str_eqb k) seen then keys rest seen else k :: keys rest (k :: seen)
  end.

(** One element of an update sequence, as a key and a value: it must
    be a sequence of length two. *)
Definition pair_of (item : json) : M (json * json) :=
  match item with
  | JArr [k; v] => ret (k, v)
  | JArr _ => raise (LibraryError (u "ValueError") (u "dictionary update sequence element"))
  | JStr [a; b] => ret (JStr [a], JStr [b])
  | JStr _ => raise (LibraryError (u "ValueError") (u "dictionary update sequence element"))
  | JObj m =>
      match keys m [] with
      | [k1; k2] => ret (JStr k1, JStr k2)
      | _ => raise (LibraryError (u "ValueError") (u "dictionary update sequence element"))
      end
  | _ => raise (TypeError item)
  end.

(** [d.update(seq)] for a list: the pairs are stored one by one; what
    was stored before an element raises stays. *)
Fixpoint update_seq (items : list json) (d : settings) : settings * option exc :=
  match items with
  | [] => (d, None)
  | item :: rest =>
      match pair_of item with
      | inl e => (d, Some e)
      | inr (JStr k, v) => update_seq rest (set_item k v d)
      | inr (JArr l, _) => (d, Some (TypeError (JArr l)))
      | inr (JObj m, _) => (d, Some (TypeError (JObj m)))
      | inr (_, _) => update_seq rest d
      end
  end.

(** [d.update(x)] for a parsed value [x]. *)
Definition update (x : json) (d : settings) : settings * option exc :=
  match x with
  | JObj m => (fold_left (fun acc kv => set_item (fst kv) (snd kv) acc) m d, None)
  | JArr items => update_seq items d
  | JStr [] => (d, None)
  | JStr _ => (d, Some (LibraryError (u "ValueError") (u "dictionary update sequence element")))
  | _ => (d, Some (TypeError x))
  end.

(** [load_settings()]: [file] is [None] when the settings file does not
    exist, and otherwise what opening and parsing it gives. *)
Definition load_settings (file : option (M json)) : settings :=
  match file with
  | None => default_settings
  | Some (inl _) => default_settings
  | Some (inr x) => fst (update x default_settings)
  end.

(** The accessors [max_videos_per_channel], ..., [pdf_output_dir]:
    [self.settings.get(key, default)]. *)
Definition setting (d : settings) (key : pystr) (dflt : json) : json :=
  default dflt (get key d).

End ConfigManager.

(** ** Further vocabulary *)

Module Cases.

(** Calls that come after the transcripts were listed: fetches of
    listed transcripts and the request for the video details, but no
    language request and no second listing. *)
Definition after_listing (later : list event) : Prop :=
  Forall (fun e => match e with
                   | EvFetch _ _ | EvVideoDetails _ => True
                   | _ => False
                   end) later.

(** How a resolver goes through its list of languages.  Either the list
    splits at its first language with a usable transcript: the resolver
    has asked for the languages before it and for that one, in the order
    of the list, made no other call, and returns that transcript under
    the tag of that language.  Or no language of the list has a usable
    transcript: the resolver has asked for every language, in the order
    of the list, then listed the transcripts, and made no language
    request after that. *)
Definition tried_in_order (w : World) (accept : pystr -> bool) (tag : pystr -> pystr)
    (langs : list pystr) (video_id : pystr) (run : T resolved) : Prop :=
  (exists pre lang post text,
      langs = pre ++ lang :: post
      /\ Forall (language_unusable w accept video_id) pre
      /\ usable accept (get_transcript w video_id lang) = Some text
      /\ run = (Some (text, tag lang), map (EvGetTranscript video_id) (pre ++ [lang])))
  \/ (Forall (language_unusable w accept video_id) langs
      /\ exists later,
           snd run = map (EvGetTranscript video_id) langs
                     ++ EvListTranscripts video_id :: later
           /\ after_listing later).

(** A world in which the British English transcript is the first long
    enough: the English one is too short, the American one is missing. *)
Definition british_captions : World :=
  {| get_transcript := fun _ lang =>
       if str_eqb lang (u "en") then inr [u "too short"]
       else if str_eqb lang (u "en-GB") then inr [repeat 97 60; repeat 98 60]
       else inl no_transcript_found;
     list_transcripts := fun _ => inl transcripts_disabled;
     youtube_service := Some (fun _ => inr [item_with (repeat 99 150)]);
     post := fun _ => Parsed (completion long_text) |}.

(** A world without a YouTube service whose every transcript is too
    short to be accepted. *)
Definition short_captions_only : World :=
  {| get_transcript := fun _ _ => inr [u "too short"];
     list_transcripts := fun _ =>
       inr [ {| is_generated := true; fetch := inr [u "too short"] |};
             {| is_generated := false; fetch := inr [u "too short"] |} ];
     youtube_service := None;
     post := fun _ => Parsed (completion long_text) |}.

(** The requests sent to the endpoint, in the order of the calls. *)
Fixpoint posted (trace : list event) : list request :=
  match trace with
  | [] => []
  | EvPost rq :: rest => rq :: posted rest
  | _ :: rest => posted rest
  end.

Definition is_spacer (f : FixedPDFGenerator.flowable) : bool :=
  match f with
  | FixedPDFGenerator.Spacer _ _ => true
  | FixedPDFGenerator.Paragraph _ _ => false
  end.

Definition count_spacers (story : list FixedPDFGenerator.flowable) : nat :=
  length (List.filter is_spacer story).

(** The link paragraph of an element, if it has a non-empty url. *)
Definition link_of (s : FixedPDFGenerator.Entry) : list pystr :=
  let video_url := default (u "") (FixedPDFGenerator.e_url s) in
  if truthy video_url then [FixedPDFGenerator.link_text video_url] else [].

(** The title has none of the three words [_content_matches_title]
    looks for. *)
Definition keyword_free (lower : pystr -> pystr) (title : pystr) : Prop :=
  contains (u "write") (lower title) = false
  /\ contains (u "data") (lower title) = false
  /\ contains (u "britain") (lower title) = false.

(** What unit [i] contributes to the list a dispatcher returns. *)
Definition parallel_kept (str_exc : exc -> pystr) (api_key : pystr)
    (net : nat -> request -> response) (videos : list VideoInfo) (i : nat)
  : option SummaryResult :=
  match parallel_units str_exc api_key net videos !! i with
  | Some r => if success_tagged r then Some r else None
  | None => None
  end.

(** A host on which the report exists and holds the given bytes. *)
Definition host_with_report (payload : list N) : EmailSender.Host :=
  {| EmailSender.today := u "2026年11月04日";
     EmailSender.now := u "2026-11-04 08:00:00";
     EmailSender.exists_ := fun p => str_eqb p (u "reports/summary.pdf");
     EmailSender.read_file := fun _ => inr payload;
     EmailSender.basename := fun _ => u "summary.pdf" |}.

(** A session in which everything goes well until [quit] raises. *)
Definition smtp_failing_at_quit : EmailSender.Smtp :=
  {| EmailSender.connect := None; EmailSender.starttls := None;
     EmailSender.login := None;
     EmailSender.as_string := flatten;
     EmailSender.sendmail := fun _ _ _ => None;
     EmailSender.quit := Some (LibraryError (u "SMTPServerDisconnected")
                                 (u "Connection unexpectedly closed")) |}.

(** A subscription item that has both its channel id and its title. *)
Definition well_formed (s : Main.Subscription) : Prop :=
  Main.channelId s <> None /\ Main.channel_title s <> None.

(** The videos one subscription adds to [all_videos]: those of its
    channel when the item is well formed and the search returns. *)
Definition fetched (search : pystr -> M (list VideoInfo)) (s : Main.Subscription)
  : list VideoInfo :=
  match Main.channelId s, Main.channel_title s with
  | Some channel_id, Some _ =>
      match search channel_id with
      | inr videos => videos
      | inl _ => []
      end
  | _, _ => []
  end.

Definition stored_token : YouTubeClient.Credentials :=
  {| YouTubeClient.valid := true; YouTubeClient.expired := false;
     YouTubeClient.refresh_token := Some (u "1//refresh");
     YouTubeClient.to_json := u "{}" |}.

(** A machine with a valid stored token. *)
Definition signed_in : YouTubeClient.AuthHost :=
  {| YouTubeClient.token_exists := true;
     YouTubeClient.load_token := inr stored_token;
     YouTubeClient.refresh := fun c => inr c;
     YouTubeClient.run_flow := inl (LibraryError (u "Error") (u "no browser"));
     YouTubeClient.write_token := fun _ => None;
     YouTubeClient.build_service := fun _ => None |}.

Definition quota_exceeded : exc :=
  LibraryError (u "HttpError") (u "quotaExceeded").

Definition sub (channel_id title : string) : Main.Subscription :=
  {| Main.channelId := Some (u channel_id); Main.channel_title := Some (u title) |}.

(** Three channels: the search of the second one fails, the first has
    the videos A and B, the third the video C. *)
Definition three_channels : list Main.Subscription :=
  [sub "c1" "One"; sub "c2" "Two"; sub "c3" "Three"].

Definition channel_search (channel_id : pystr) : M (list VideoInfo) :=
  if str_eqb channel_id (u "c1") then inr [video "idA" "A" "One"; video "idB" "B" "One"]
  else if str_eqb channel_id (u "c2") then inl quota_exceeded
  else inr [video "idC" "C" "Three"].

Definition sample_app : Main.App :=
  {| Main.youtube_client := Some YouTubeClient.new_client;
     Main.summarizer := Some (u "key");
     Main.report_generator := true;
     Main.email_sender := Some (u "me@example.com");
     Main.pdf_output_dir := u "reports";
     Main.email_to := u "you@example.com" |}.

Definition sample_run_host (subs : list Main.Subscription) : Main.Host :=
  {| Main.auth := signed_in;
     Main.subscriptions := inr (Some subs);
     Main.channel_videos := channel_search;
     Main.net := all_answered;
     Main.order := [2; 0; 1]%nat;
     Main.mkdir := None;
     Main.path_join := fun d n => d ++ u "/" ++ n;
     Main.timestamp := u "20261104_080000";
     Main.pdf := sample_lib;
     Main.mail := sample_host;
     Main.smtp := working_smtp |}.

End Cases.

Import Cases.

(** * Properties *)

(** ** Text *)

Lemma startswith_app (p s : pystr) : startswith p (p ++ s) = true.
Proof.
  induction p as [|a p IH]; simpl; [reflexivity|].
  rewrite N.eqb_refl. exact IH.
Qed.

Lemma contains_here (sub s : pystr) : startswith sub s = true -> contains sub s = true.
Proof. intros H. destruct s; simpl in *; rewrite H; reflexivity. Qed.

Lemma contains_later (sub pre s : pystr) :
  contains sub s = true -> contains sub (pre ++ s) = true.
Proof.
  intros H. induction pre as [|a pre IH]; simpl; [exact H|].
  rewrite IH. apply orb_true_r.
Qed.

Lemma contains_infix (sub pre post : pystr) : contains sub (pre ++ sub ++ post) = true.
Proof. apply contains_later, contains_here, startswith_app. Qed.

Lemma contains_suffix (sub pre : pystr) : contains sub (pre ++ sub) = true.
Proof.
  rewrite <- (app_nil_r sub) at 2. apply contains_infix.
Qed.

Lemma length_lstrip (s : pystr) : (length (lstrip s) <= length s)%nat.
Proof.
  induction s as [|c s IH]; simpl; [lia|].
  destruct (isspace c); simpl; lia.
Qed.

Lemma length_strip (s : pystr) : (len (strip s) <= len s)%nat.
Proof.
  unfold len, strip, rstrip.
  rewrite length_rev.
  pose proof (length_lstrip (rev (lstrip s))) as H1.
  rewrite length_rev in H1.
  pose proof (length_lstrip s). lia.
Qed.

(** ** The exchange *)

Lemma call_failure_raises (r : response) (e : exc) :
  call_failure r e <-> bind (exchange r) first_choice_content = inl e.
Proof.
  split.
  - intros H. destruct H; simpl; try reflexivity. assumption.
  - destruct r as [e'|e'|e'|body]; simpl; intros H.
    + injection H as ->. constructor.
    + injection H as ->. constructor.
    + injection H as ->. constructor.
    + constructor. exact H.
Qed.

Lemma call_fails_spec (r : response) :
  call_fails r = true <-> exists e, call_failure r e.
Proof.
  unfold call_fails. split.
  - destruct (bind (exchange r) first_choice_content) as [e|c] eqn:E; [|discriminate].
    intros _. exists e. apply call_failure_raises, E.
  - intros [e H]. apply call_failure_raises in H. rewrite H. reflexivity.
Qed.

(** ** The dispatchers *)

Lemma omap_fmap_compose {A B C} (f : B -> option C) (g : A -> B) (l : list A) :
  omap f (g <$> l) = omap (fun a => f (g a)) l.
Proof.
  induction l as [|a l IH]; csimpl; [reflexivity|].
  rewrite IH. reflexivity.
Qed.

Lemma omap_lookup_seq {A} (l : list A) :
  omap (fun i => l !! i) (seq 0 (length l)) = l.
Proof.
  induction l as [|x l IH]; [reflexivity|].
  cbn [length seq]. rewrite <- fmap_S_seq. csimpl.
  rewrite omap_fmap_compose. csimpl. f_equal. exact IH.
Qed.

Lemma completed_is_permutation {A} (futures : list A) (order : list nat) :
  order ≡ₚ seq 0 (length futures) ->
  omap (fun i => futures !! i) order ≡ₚ futures.
Proof.
  intros H. rewrite H. rewrite omap_lookup_seq. reflexivity.
Qed.

Lemma parallel_collect_results (str0 : exc -> pystr) completed rs lg :
  fst (fold_left ParallelSummarizer.collect_step completed (rs, lg))
  = rs ++ omap kept_parallel completed.
Proof.
  revert rs lg.
  induction completed as [|[video o] l IH]; intros rs lg; simpl.
  - rewrite app_nil_r. reflexivity.
  - unfold kept_parallel, success_tagged at 1. simpl.
    destruct o as [r|e]; simpl.
    + destruct (r_success r) as [[|]|]; simpl.
      * destruct (py_len (r_summary r)); rewrite IH, <- app_assoc; reflexivity.
      * apply IH.
      * apply IH.
    + apply IH.
Qed.

Lemma fixed_collect_results completed rs lg :
  fst (fold_left FixedSummarizer.collect_step completed (rs, lg))
  = rs ++ omap kept_fixed completed.
Proof.
  revert rs lg.
  induction completed as [|[video o] l IH]; intros rs lg; simpl.
  - rewrite app_nil_r. reflexivity.
  - unfold kept_fixed at 1. simpl.
    destruct o as [r|e]; simpl.
    + destruct (py_len (r_summary r)); rewrite IH, <- app_assoc; reflexivity.
    + apply IH.
Qed.

Lemma parallel_collect_log completed rs lg :
  length (List.filter is_log_failed
            (snd (fold_left ParallelSummarizer.collect_step completed (rs, lg))))
  = (length (List.filter is_log_failed lg)
     + length (List.filter (fun d => match snd d with
                                     | Returned r => failure_tagged r
                                     | Raises _ => false
                                     end) completed))%nat.
Proof.
  revert rs lg.
  induction completed as [|[video o] l IH]; intros rs lg; simpl; [lia|].
  destruct o as [r|e]; simpl.
  - unfold failure_tagged at 1.
    destruct (r_success r) as [[|]|]; simpl.
    + destruct (py_len (r_summary r)); rewrite IH, List.filter_app, length_app; simpl; lia.
    + rewrite IH, List.filter_app, length_app. simpl. lia.
    + rewrite IH, List.filter_app, length_app. simpl. lia.
  - rewrite IH, List.filter_app, length_app. simpl. lia.
Qed.

Lemma kept_of_submitted {A} (keep : SummaryResult -> bool)
    (c : nat -> A -> SummaryResult) (tag : A -> VideoInfo) (l : list A) :
  omap (fun d : VideoInfo * outcome =>
          match snd d with
          | Returned r => if keep r then Some r else None
          | Raises _ => None
          end)
       (imap (fun i v => (tag v, Returned (c i v))) l)
  = List.filter keep (imap c l).
Proof.
  revert c. induction l as [|v l IH]; intros c; [reflexivity|].
  rewrite !imap_cons. simpl.
  destruct (keep (c 0%nat v)); simpl; rewrite <- IH; reflexivity.
Qed.

Lemma filter_split_count {A} (f g : A -> bool) (l : list A) :
  (forall a, f a = negb (g a)) ->
  (length (List.filter f l) + length (List.filter g l) = length l)%nat.
Proof.
  intros H. induction l as [|a l IH]; simpl; [reflexivity|].
  rewrite H. destruct (g a); simpl; lia.
Qed.

Lemma count_true_imap {A B} (f : B -> bool) (c : nat -> A -> B) (l : list A) :
  count_true (imap (fun i a => f (c i a)) l) = length (List.filter f (imap c l)).
Proof.
  revert c. induction l as [|a l IH]; intros c; [reflexivity|].
  rewrite !imap_cons. unfold count_true in *. simpl.
  specialize (IH (c ∘ S)). simpl in IH.
  destruct (f (c 0%nat a)); simpl; rewrite <- IH; reflexivity.
Qed.

Lemma parallel_unit_tag str_exc api_key post video :
  failure_tagged (ParallelSummarizer._make_api_call str_exc api_key post video)
  = call_fails (post (parallel_request api_key video))
  /\ success_tagged (ParallelSummarizer._make_api_call str_exc api_key post video)
     = negb (call_fails (post (parallel_request api_key video))).
Proof.
  unfold ParallelSummarizer._make_api_call, call_fails, parallel_request.
  destruct (bind _ _); split; reflexivity.
Qed.

Lemma fixed_unit_tag lower api_key post video :
  r_success (FixedSummarizer._make_api_call lower api_key post video) = Some true.
Proof.
  unfold FixedSummarizer._make_api_call.
  destruct (bind _ _); reflexivity.
Qed.

Lemma length_filter_Permutation {A} (f : A -> bool) (l l' : list A) :
  l ≡ₚ l' -> length (List.filter f l) = length (List.filter f l').
Proof.
  induction 1 as [|x l l' _ IH|x y l|l l' l'' _ IH1 _ IH2]; simpl.
  - reflexivity.
  - destruct (f x); simpl; congruence.
  - destruct (f x), (f y); reflexivity.
  - congruence.
Qed.

Lemma filter_of_submitted {A} (f : SummaryResult -> bool)
    (c : nat -> A -> SummaryResult) (tag : A -> VideoInfo) (l : list A) :
  length (List.filter (fun d : VideoInfo * outcome =>
                         match snd d with
                         | Returned r => f r
                         | Raises _ => false
                         end)
            (imap (fun i v => (tag v, Returned (c i v))) l))
  = length (List.filter f (imap c l)).
Proof.
  revert c. induction l as [|v l IH]; intros c; [reflexivity|].
  rewrite !imap_cons. simpl.
  destruct (f (c 0%nat v)); simpl; rewrite <- IH; reflexivity.
Qed.

Lemma parallel_failures_count str_exc api_key net videos :
  parallel_failures api_key net videos
  = length (List.filter failure_tagged (parallel_units str_exc api_key net videos)).
Proof.
  unfold parallel_failures, parallel_units.
  rewrite <- (count_true_imap failure_tagged).
  f_equal. apply imap_ext. intros i v _.
  symmetry. apply parallel_unit_tag.
Qed.

Lemma imap_filter_split {A B} (f g : B -> bool) (c : nat -> A -> B) (l : list A) :
  (forall i a, f (c i a) = negb (g (c i a))) ->
  (length (List.filter f (imap c l)) + length (List.filter g (imap c l)) = length l)%nat.
Proof.
  revert c. induction l as [|a l IH]; intros c H; [reflexivity|].
  rewrite imap_cons. simpl. rewrite H.
  specialize (IH (c ∘ S) (fun i a => H (S i) a)).
  destruct (g (c 0%nat a)); simpl; lia.
Qed.

Lemma parallel_units_split str_exc api_key net videos :
  (length (List.filter success_tagged (parallel_units str_exc api_key net videos))
   + parallel_failures api_key net videos = length videos)%nat.
Proof.
  rewrite (parallel_failures_count str_exc).
  apply imap_filter_split. intros i v.
  destruct (parallel_unit_tag str_exc api_key (net i) v) as [-> ->]. reflexivity.
Qed.

(** C1, as amended: with the futures completing in any order, the
    parallel summarizer returns exactly the results of the units whose
    call succeeded, N-K of them, every one tagged as a success, and logs
    one failure line for each of the K others; the fixed summarizer
    returns all N results, every one tagged as a success.  Both are total
    functions: nothing escapes the loop. *)
Theorem dispatcher_results (str_exc : exc -> pystr) (lower : pystr -> pystr)
    (api_key : pystr) (net : nat -> request -> response)
    (order : list nat) (videos : list VideoInfo) :
  order ≡ₚ seq 0 (length videos) ->
  let done_p := ParallelSummarizer.process_videos_parallel str_exc api_key net order videos in
  let done_f := FixedSummarizer.process_videos_parallel lower api_key net order videos in
  fst done_p ≡ₚ List.filter success_tagged (parallel_units str_exc api_key net videos)
  /\ (length (fst done_p) + parallel_failures api_key net videos = length videos)%nat
  /\ Forall (fun r => r_success r = Some true) (fst done_p)
  /\ length (List.filter is_log_failed (snd done_p)) = parallel_failures api_key net videos
  /\ fst done_f ≡ₚ fixed_units lower api_key net videos
  /\ length (fst done_f) = length videos
  /\ Forall (fun r => r_success r = Some true) (fst done_f).
Proof.
  intros Horder done_p done_f.
  assert (Hp : fst done_p
               ≡ₚ List.filter success_tagged (parallel_units str_exc api_key net videos)).
  { unfold done_p, ParallelSummarizer.process_videos_parallel, ParallelSummarizer.collect.
    rewrite (parallel_collect_results str_exc). simpl.
    rewrite completed_is_permutation.
    - unfold ParallelSummarizer.submit_all, kept_parallel, parallel_units.
      rewrite (kept_of_submitted success_tagged
                 (fun i v => ParallelSummarizer._make_api_call str_exc api_key (net i) v)
                 (fun v => v)).
      reflexivity.
    - unfold ParallelSummarizer.submit_all. rewrite length_imap. exact Horder. }
  assert (Hf : fst done_f ≡ₚ fixed_units lower api_key net videos).
  { unfold done_f, FixedSummarizer.process_videos_parallel, FixedSummarizer.collect.
    rewrite fixed_collect_results. simpl.
    rewrite completed_is_permutation.
    - unfold FixedSummarizer.submit_all, kept_fixed, fixed_units.
      rewrite (kept_of_submitted (fun _ => true)
                 (fun i v => FixedSummarizer._make_api_call lower api_key (net i) v)
                 (fun v => v)).
      clear. generalize (fun i v => FixedSummarizer._make_api_call lower api_key (net i) v).
      intros c. induction (imap c videos) as [|r l IH]; simpl; [reflexivity|].
      rewrite IH at 1. reflexivity.
    - unfold FixedSummarizer.submit_all. rewrite length_imap. exact Horder. }
  split; [exact Hp|].
  split.
  { rewrite (Permutation_length Hp). apply parallel_units_split. }
  split.
  { rewrite Hp. apply Forall_forall. intros r Hr.
    apply list_elem_of_In, List.filter_In in Hr. destruct Hr as [_ Hr].
    unfold success_tagged in Hr. destruct (r_success r) as [[|]|]; congruence. }
  split.
  { unfold done_p, ParallelSummarizer.process_videos_parallel, ParallelSummarizer.collect.
    rewrite parallel_collect_log. simpl.
    rewrite (length_filter_Permutation _ _ (ParallelSummarizer.submit_all str_exc api_key net videos)).
    - unfold ParallelSummarizer.submit_all.
      rewrite (filter_of_submitted failure_tagged
                 (fun i v => ParallelSummarizer._make_api_call str_exc api_key (net i) v)
                 (fun v => v)).
      symmetry. apply parallel_failures_count.
    - apply completed_is_permutation.
      unfold ParallelSummarizer.submit_all. rewrite length_imap. exact Horder. }
  split; [exact Hf|].
  split.
  { rewrite (Permutation_length Hf). apply length_imap. }
  rewrite Hf. apply Forall_forall. intros r Hr.
  apply list_elem_of_lookup in Hr. destruct Hr as [i Hr].
  unfold fixed_units in Hr. rewrite list_lookup_imap in Hr.
  destruct (videos !! i) as [v|]; simpl in Hr; [|discriminate].
  injection Hr as <-. apply fixed_unit_tag.
Qed.

Lemma dispatcher_results_witness :
  let done_p := ParallelSummarizer.process_videos_parallel sample_str_exc (u "key")
                  b_times_out [2; 0; 1]%nat abc in
  (length (fst done_p) + parallel_failures (u "key") b_times_out abc = length abc)%nat.
Proof.
  apply (dispatcher_results sample_str_exc lower_ascii (u "key") b_times_out [2; 0; 1]%nat abc).
  vm_compute. 
  apply (Permutation_trans (l' := [0; 2; 1]%nat)); [apply perm_swap|].
  apply perm_skip, perm_swap.
Defined.

(** C1, as stated, fails: with three videos of which the call of B times
    out, the parallel summarizer returns two results, not three, and none
    of the three results of the fixed summarizer is tagged as a failure. *)
Lemma dispatcher_drops_failed_unit :
  let results := fst (ParallelSummarizer.process_videos_parallel sample_str_exc (u "key")
                        b_times_out [0; 1; 2]%nat abc) in
  let results' := fst (FixedSummarizer.process_videos_parallel lower_ascii (u "key")
                         b_times_out [0; 1; 2]%nat abc) in
  length abc = 3%nat
  /\ parallel_failures (u "key") b_times_out abc = 1%nat
  /\ length results = 2%nat
  /\ length results <> length abc
  /\ length (List.filter failure_tagged results) = 0%nat
  /\ fixed_failures (u "key") b_times_out abc = 1%nat
  /\ length results' = 3%nat
  /\ length (List.filter failure_tagged results') = 0%nat.
Proof. vm_compute. repeat split. discriminate. Qed.

(** ** One unit of work *)

Lemma parallel_units_lookup str_exc api_key net videos i :
  parallel_units str_exc api_key net videos !! i
  = ParallelSummarizer._make_api_call str_exc api_key (net i) <$> videos !! i.
Proof. unfold parallel_units. rewrite list_lookup_imap. reflexivity. Qed.

Lemma fixed_units_lookup lower api_key net videos i :
  fixed_units lower api_key net videos !! i
  = FixedSummarizer._make_api_call lower api_key (net i) <$> videos !! i.
Proof. unfold fixed_units. rewrite list_lookup_imap. reflexivity. Qed.

Lemma fixed_fallback_on_failure lower api_key post video e :
  call_failure (post (fixed_request api_key video)) e ->
  r_summary (FixedSummarizer._make_api_call lower api_key post video)
  = JStr (FixedSummarizer._generate_fallback_summary lower
            (default (u "Unknown") (get_title video))
            (default (u "Unknown") (get_channelTitle video))).
Proof.
  intros H. apply call_failure_raises in H.
  unfold FixedSummarizer._make_api_call, fixed_request in *.
  rewrite H. reflexivity.
Qed.

(** C2, as amended: when the call of unit [i] fails, the parallel
    summarizer's result for it has [success] false and the body
    "处理失败: " followed by the reason, while the fixed summarizer's result
    for it has [success] true and a canned paragraph as body; in both, the
    result of every other unit is what it would be whatever happens to
    unit [i]. *)
Theorem failed_unit_result (str_exc : exc -> pystr) (lower : pystr -> pystr)
    (api_key : pystr) (net : nat -> request -> response)
    (videos : list VideoInfo) (i : nat) (video : VideoInfo) :
  videos !! i = Some video ->
  (forall e, call_failure (net i (parallel_request api_key video)) e ->
     exists r, parallel_units str_exc api_key net videos !! i = Some r
       /\ r_success r = Some false
       /\ r_summary r = JStr (u "处理失败: " ++ str_exc e)
       /\ contains (u "处理失败") (u "处理失败: " ++ str_exc e) = true)
  /\ (forall e, call_failure (net i (fixed_request api_key video)) e ->
     exists r, fixed_units lower api_key net videos !! i = Some r
       /\ r_success r = Some true
       /\ r_summary r = JStr (FixedSummarizer._generate_fallback_summary lower
                                (default (u "Unknown") (get_title video))
                                (default (u "Unknown") (get_channelTitle video))))
  /\ (forall net' j, j <> i -> net' j = net j ->
        parallel_units str_exc api_key net' videos !! j
        = parallel_units str_exc api_key net videos !! j
        /\ fixed_units lower api_key net' videos !! j
           = fixed_units lower api_key net videos !! j).
Proof.
  intros Hi. split; [|split].
  - intros e He. eexists. split.
    + rewrite parallel_units_lookup, Hi. reflexivity.
    + apply call_failure_raises in He.
      unfold ParallelSummarizer._make_api_call, parallel_request in *.
      rewrite He. simpl. repeat split.
  - intros e He. eexists. split.
    + rewrite fixed_units_lookup, Hi. reflexivity.
    + split; [apply fixed_unit_tag|]. apply fixed_fallback_on_failure with e, He.
  - intros net' j _ Hj.
    rewrite !parallel_units_lookup, !fixed_units_lookup, Hj. split; reflexivity.
Qed.

Lemma failed_unit_result_witness :
  exists r, parallel_units sample_str_exc (u "key") b_times_out abc !! 1%nat = Some r
    /\ r_success r = Some false
    /\ r_summary r = JStr (u "处理失败: " ++ sample_str_exc timeout)
    /\ contains (u "处理失败") (u "处理失败: " ++ sample_str_exc timeout) = true.
Proof.
  apply (failed_unit_result sample_str_exc lower_ascii (u "key") b_times_out abc 1
           (video "idB" "B" "ch")).
  - reflexivity.
  - apply network_failure.
Defined.

(** C2, as stated, fails for the fixed summarizer: the call of B times
    out, and the result for B is tagged as a success with a canned
    paragraph that has no failure indication in it. *)
Lemma fixed_timeout_is_tagged_success :
  let b := video "idB" "B" "ch" in
  let r := FixedSummarizer._make_api_call lower_ascii (u "key") (b_times_out 1) b in
  b_times_out 1 (fixed_request (u "key") b) = PostRaises timeout
  /\ r_success r = Some true
  /\ r_success r <> Some false
  /\ r_summary r = JStr (FixedSummarizer.default_summary (u "B") (u "ch"))
  /\ contains (u "失败") (FixedSummarizer.default_summary (u "B") (u "ch")) = false.
Proof. vm_compute. repeat split. discriminate. Qed.

(** ** The fixed summarizer's rewriting of the model's text *)

Lemma first_item_hit {A} (test : pystr -> bool) (pre post : list (pystr * A)) k v :
  Forall (fun kv => test (fst kv) = false) pre ->
  test k = true ->
  FixedSummarizer.first_item test (pre ++ (k, v) :: post) = Some v.
Proof.
  induction 1 as [|[k' v'] pre Hk _ IH]; intros Ht; simpl.
  - rewrite Ht. reflexivity.
  - simpl in Hk. rewrite Hk. apply IH, Ht.
Qed.

Lemma first_item_miss {A} (test : pystr -> bool) (table : list (pystr * A)) :
  Forall (fun kv => test (fst kv) = false) table ->
  FixedSummarizer.first_item test table = None.
Proof.
  induction 1 as [|[k v] table Hk _ IH]; simpl; [reflexivity|].
  simpl in Hk. rewrite Hk. exact IH.
Qed.

Lemma fallback_selection (lower : pystr -> pystr) (title channel : pystr) :
  (forall pre key paragraph post,
      FixedSummarizer.summaries channel = pre ++ (key, paragraph) :: post ->
      Forall (fun kv => contains (lower (fst kv)) (lower title) = false) pre ->
      contains (lower key) (lower title) = true ->
      FixedSummarizer._generate_fallback_summary lower title channel = paragraph)
  /\ (Forall (fun kv => contains (lower (fst kv)) (lower title) = false)
             (FixedSummarizer.summaries channel) ->
      FixedSummarizer._generate_fallback_summary lower title channel
      = FixedSummarizer.default_summary title channel).
Proof.
  unfold FixedSummarizer._generate_fallback_summary. split.
  - intros pre key paragraph post -> Hpre Hkey.
    rewrite (first_item_hit (fun key => contains (lower key) (lower title)) pre post key paragraph Hpre Hkey).
    reflexivity.
  - intros Hall.
    rewrite (first_item_miss (fun key => contains (lower key) (lower title)) _ Hall).
    reflexivity.
Qed.

(** C3: when the text the model generated is shorter than 100 characters
    (as received, or once stripped) or fails [_content_matches_title], the
    fixed summarizer returns, tagged as a success, the canned paragraph of
    the first key of its table found in the lower-cased title, and the
    default paragraph when no key is found. *)
Theorem short_or_mismatched_text_is_replaced (lower : pystr -> pystr) (api_key : pystr)
    (post : request -> response) (video : VideoInfo) (body : json) (text : pystr) :
  let title := default (u "Unknown") (get_title video) in
  let channel := default (u "Unknown") (get_channelTitle video) in
  post (fixed_request api_key video) = Parsed body ->
  first_choice_content body = inr (JStr text) ->
  (len text < 100)%nat \/ (len (strip text) < 100)%nat
    \/ FixedSummarizer._content_matches_title lower title (strip text) = false ->
  let r := FixedSummarizer._make_api_call lower api_key post video in
  r_summary r = JStr (FixedSummarizer._generate_fallback_summary lower title channel)
  /\ r_success r = Some true
  /\ (forall pre key paragraph post',
        FixedSummarizer.summaries channel = pre ++ (key, paragraph) :: post' ->
        Forall (fun kv => contains (lower (fst kv)) (lower title) = false) pre ->
        contains (lower key) (lower title) = true ->
        r_summary r = JStr paragraph)
  /\ (Forall (fun kv => contains (lower (fst kv)) (lower title) = false)
             (FixedSummarizer.summaries channel) ->
      r_summary r = JStr (FixedSummarizer.default_summary title channel)).
Proof.
  intros title channel Hpost Hbody Hbad r.
  assert (Hsum : r_summary r
                 = JStr (FixedSummarizer._generate_fallback_summary lower title channel)).
  { unfold r, FixedSummarizer._make_api_call, fixed_request in *.
    rewrite Hpost. cbn [exchange bind ret]. rewrite Hbody.
    cbn [bind FixedSummarizer.strip_value ret r_summary].
    fold title channel.
    assert (Hshort : (len text < 100 -> len (strip text) < 100)%nat).
    { pose proof (length_strip text). lia. }
    destruct (len (strip text) <? 100)%nat eqn:Hlen; cbn [orb]; [reflexivity|].
    apply Nat.ltb_ge in Hlen.
    destruct Hbad as [H|[H|H]]; [lia|lia|].
    rewrite H. reflexivity. }
  split; [exact Hsum|].
  split; [apply fixed_unit_tag|].
  destruct (fallback_selection lower title channel) as [Hhit Hmiss].
  split.
  - intros pre key paragraph post' Htable Hpre Hkey.
    rewrite Hsum. f_equal. eapply Hhit; eassumption.
  - intros Hall. rewrite Hsum. f_equal. apply Hmiss, Hall.
Qed.


Lemma short_or_mismatched_text_is_replaced_witness :
  let video := video "idW" "Why we Write Things Down" "ch" in
  let post := fun _ : request => Parsed (completion (u "好的。")) in
  r_summary (FixedSummarizer._make_api_call lower_ascii (u "key") post video)
  = JStr (FixedSummarizer._generate_fallback_summary lower_ascii
            (default (u "Unknown") (get_title video))
            (default (u "Unknown") (get_channelTitle video))).
Proof.
  intros video post.
  refine (proj1 (short_or_mismatched_text_is_replaced lower_ascii (u "key")
           post video (completion (u "好的。")) (u "好的。") _ _ _)).
  - reflexivity.
  - vm_compute. reflexivity.
  - left. vm_compute. lia.
Defined.

(** ** The content resolvers *)

Lemma tbind_fst {A B} (m : T A) (k : A -> T B) : fst (tbind m k) = fst (k (fst m)).
Proof. unfold tbind. destruct m as [a l]. simpl. destruct (k a). reflexivity. Qed.

Lemma tbind_snd {A B} (m : T A) (k : A -> T B) :
  snd (tbind m k) = snd m ++ snd (k (fst m)).
Proof. unfold tbind. destruct m as [a l]. simpl. destruct (k a). reflexivity. Qed.

Lemma transcript_calls_no_post trace : transcript_calls_only trace -> no_post trace.
Proof. intros H. eapply Forall_impl; [exact H|]. intros e [He _]. exact He. Qed.

Lemma transcript_calls_no_details trace : transcript_calls_only trace -> no_details trace.
Proof. intros H. eapply Forall_impl; [exact H|]. intros e [_ He]. exact He. Qed.

Lemma try_languages_trace w accept tag video_id langs :
  transcript_calls_only (snd (try_languages w accept tag video_id langs)).
Proof.
  unfold transcript_calls_only.
  induction langs as [|lang rest IH]; [constructor|].
  cbn [try_languages]. rewrite tbind_snd. cbn [emit fst snd app]. constructor; [split; reflexivity|].
  destruct (get_transcript w video_id lang) as [e|parts]; [exact IH|].
  destruct (accept _); [constructor|exact IH].
Qed.

Lemma fetch_first_trace accept g tag video_id listed :
  transcript_calls_only (snd (fetch_first accept g tag video_id listed)).
Proof.
  unfold transcript_calls_only.
  induction listed as [|t rest IH]; [constructor|].
  cbn [fetch_first]. destruct (bool_decide _); [|exact IH].
  rewrite tbind_snd. cbn [emit fst snd app]. constructor; [split; reflexivity|].
  destruct (fetch t) as [e|parts]; [exact IH|].
  destruct (accept _); [constructor|exact IH].
Qed.

Lemma any_transcript_trace w accept tag_g tag_m video_id :
  transcript_calls_only (snd (any_transcript w accept tag_g tag_m video_id)).
Proof.
  unfold any_transcript, transcript_calls_only.
  rewrite tbind_snd. cbn [emit fst snd app]. constructor; [split; reflexivity|].
  destruct (list_transcripts w video_id) as [e|listed]; [constructor|].
  rewrite tbind_snd. apply Forall_app. split; [apply fetch_first_trace|].
  destruct (fst _); [constructor|apply fetch_first_trace].
Qed.

Lemma get_video_details_no_post w video_id :
  no_post (snd (get_video_details w video_id)).
Proof.
  unfold get_video_details, no_post.
  destruct (youtube_service w); simpl; repeat constructor.
Qed.

Lemma try_languages_none w accept tag video_id langs :
  Forall (language_unusable w accept video_id) langs ->
  fst (try_languages w accept tag video_id langs) = None.
Proof.
  induction 1 as [|lang rest Hl _ IH]; [reflexivity|].
  cbn [try_languages]. rewrite tbind_fst. cbn [emit fst snd].
  unfold language_unusable, usable in Hl.
  destruct (get_transcript w video_id lang) as [e|parts]; [exact IH|].
  destruct (accept _); [discriminate|exact IH].
Qed.

Lemma try_languages_hit w accept tag video_id pre lang post text :
  Forall (language_unusable w accept video_id) pre ->
  usable accept (get_transcript w video_id lang) = Some text ->
  fst (try_languages w accept tag video_id (pre ++ lang :: post)) = Some (text, tag lang).
Proof.
  intros Hpre Hlang.
  induction Hpre as [|l rest Hl _ IH]; cbn [app try_languages]; rewrite tbind_fst;
    cbn [emit fst snd].
  - unfold usable in Hlang.
    destruct (get_transcript w video_id lang) as [e|parts]; [discriminate|].
    destruct (accept _); [|discriminate].
    injection Hlang as <-. reflexivity.
  - unfold language_unusable, usable in Hl.
    destruct (get_transcript w video_id l) as [e|parts]; [exact IH|].
    destruct (accept _); [discriminate|exact IH].
Qed.

Lemma fetch_first_none accept g tag video_id listed :
  Forall (listed_unusable accept g) listed ->
  fst (fetch_first accept g tag video_id listed) = None.
Proof.
  induction 1 as [|t rest Ht _ IH]; [reflexivity|].
  cbn [fetch_first]. case_bool_decide as Hg; [|exact IH].
  rewrite tbind_fst. cbn [emit fst snd].
  specialize (Ht Hg). unfold usable in Ht.
  destruct (fetch t) as [e|parts]; [exact IH|].
  destruct (accept _); [discriminate|exact IH].
Qed.

Lemma fetch_first_hit accept g tag video_id pre t post text :
  Forall (listed_unusable accept g) pre ->
  is_generated t = g ->
  usable accept (fetch t) = Some text ->
  fst (fetch_first accept g tag video_id (pre ++ t :: post)) = Some (text, tag).
Proof.
  intros Hpre Hg Ht.
  induction Hpre as [|t' rest Ht' _ IH]; cbn [app fetch_first].
  - rewrite bool_decide_eq_true_2 by exact Hg.
    rewrite tbind_fst. cbn [emit fst snd]. unfold usable in Ht.
    destruct (fetch t) as [e|parts]; [discriminate|].
    destruct (accept _); [|discriminate].
    injection Ht as <-. reflexivity.
  - case_bool_decide as Hg'; [|exact IH].
    rewrite tbind_fst. cbn [emit fst snd].
    specialize (Ht' Hg'). unfold usable in Ht'.
    destruct (fetch t') as [e|parts]; [exact IH|].
    destruct (accept _); [discriminate|exact IH].
Qed.

(** A list either has no usable element or splits at its first one. *)
Lemma first_usable_split {A B} (f : A -> option B) (l : list A) :
  Forall (fun a => f a = None) l
  \/ exists pre a post b, l = pre ++ a :: post
       /\ Forall (fun a => f a = None) pre /\ f a = Some b.
Proof.
  induction l as [|a l IH].
  - left. constructor.
  - destruct (f a) as [b|] eqn:Ha.
    + right. exists [], a, l, b. repeat split; [constructor|exact Ha].
    + destruct IH as [IH|(pre & a' & post & b & -> & Hpre & Ha')].
      * left. constructor; assumption.
      * right. exists (a :: pre), a', post, b.
        repeat split; [constructor; assumption|exact Ha'].
Qed.

Lemma listed_split (accept : pystr -> bool) (g : bool) (listed : list Transcript) :
  Forall (listed_unusable accept g) listed
  \/ exists pre t post text, listed = pre ++ t :: post
       /\ Forall (listed_unusable accept g) pre
       /\ is_generated t = g /\ usable accept (fetch t) = Some text.
Proof.
  destruct (first_usable_split
              (fun t => if bool_decide (is_generated t = g)
                        then usable accept (fetch t) else None) listed)
    as [H|(pre & t & post & text & -> & Hpre & Ht)].
  - left. eapply Forall_impl; [exact H|].
    intros t Ht Hg. simpl in Ht.
    rewrite bool_decide_eq_true_2 in Ht by exact Hg. exact Ht.
  - right. exists pre, t, post, text.
    case_bool_decide as Hg; [|discriminate].
    repeat split; try assumption.
    eapply Forall_impl; [exact Hpre|].
    intros t' Ht' Hg'. simpl in Ht'.
    rewrite bool_decide_eq_true_2 in Ht' by exact Hg'. exact Ht'.
Qed.

Lemma usable_accepted accept got text :
  usable accept got = Some text -> accept text = true.
Proof.
  unfold usable. destruct got as [e|parts]; [discriminate|].
  destruct (accept _) eqn:E; [|discriminate].
  intros [= <-]. exact E.
Qed.

Lemma any_transcript_generated w accept tag_g tag_m video_id pre t post text :
  list_transcripts w video_id = inr (pre ++ t :: post) ->
  Forall (listed_unusable accept true) pre ->
  is_generated t = true ->
  usable accept (fetch t) = Some text ->
  fst (any_transcript w accept tag_g tag_m video_id) = Some (text, tag_g).
Proof.
  intros Hlist Hpre Hg Ht. unfold any_transcript.
  rewrite tbind_fst. cbn [emit fst snd]. rewrite Hlist.
  rewrite tbind_fst.
  rewrite (fetch_first_hit accept true tag_g video_id pre t post text Hpre Hg Ht).
  reflexivity.
Qed.

Lemma any_transcript_manual w accept tag_g tag_m video_id pre t post text :
  list_transcripts w video_id = inr (pre ++ t :: post) ->
  Forall (listed_unusable accept true) (pre ++ t :: post) ->
  Forall (listed_unusable accept false) pre ->
  is_generated t = false ->
  usable accept (fetch t) = Some text ->
  fst (any_transcript w accept tag_g tag_m video_id) = Some (text, tag_m).
Proof.
  intros Hlist Hgen Hpre Hg Ht. unfold any_transcript.
  rewrite tbind_fst. cbn [emit fst snd]. rewrite Hlist.
  rewrite tbind_fst.
  rewrite (fetch_first_none accept true tag_g video_id _ Hgen).
  apply fetch_first_hit; assumption.
Qed.

Lemma any_transcript_none w accept tag_g tag_m video_id :
  (exists e, list_transcripts w video_id = inl e)
  \/ (exists listed, list_transcripts w video_id = inr listed
        /\ Forall (listed_unusable accept true) listed
        /\ Forall (listed_unusable accept false) listed) ->
  fst (any_transcript w accept tag_g tag_m video_id) = None.
Proof.
  intros H. unfold any_transcript. rewrite tbind_fst. cbn [emit fst snd].
  destruct H as [[e ->]|(listed & -> & Hg & Hm)]; [reflexivity|].
  rewrite tbind_fst.
  rewrite (fetch_first_none accept true tag_g video_id _ Hg).
  apply fetch_first_none, Hm.
Qed.

(** The transcript part of both resolvers: the language loop, then the
    listing. *)
Lemma transcript_stage w accept_lang accept_listed langs tag_lang tag_g tag_m video_id :
  has_transcript w accept_lang accept_listed langs video_id ->
  exists text tag,
    picked w accept_lang accept_listed langs tag_lang tag_g tag_m video_id (text, tag)
    /\ ((fst (try_languages w accept_lang tag_lang video_id langs) = Some (text, tag)
         /\ accept_lang text = true)
        \/ (fst (try_languages w accept_lang tag_lang video_id langs) = None
            /\ fst (any_transcript w accept_listed tag_g tag_m video_id) = Some (text, tag)
            /\ accept_listed text = true)).
Proof.
  intros Hhas.
  destruct (first_usable_split
              (fun lang => usable accept_lang (get_transcript w video_id lang)) langs)
    as [Hnone|(pre & lang & post & text & Hsplit & Hpre & Hlang)].
  2:{ exists text, (tag_lang lang). split.
      - eapply picked_language; eassumption.
      - left. split; [|eapply usable_accepted, Hlang].
        rewrite Hsplit. apply try_languages_hit; assumption. }
  destruct Hhas as [(lang & text & Hin & Hlang)|(listed & t & text & Hlist & Hin & Ht)].
  { rewrite Forall_forall in Hnone. rewrite (Hnone lang Hin) in Hlang. discriminate. }
  pose proof (try_languages_none w accept_lang tag_lang video_id langs Hnone) as Hstage1.
  destruct (listed_split accept_listed true listed)
    as [Hgen|(pre & t' & post & text' & Hsplit & Hpre & Hg & Ht')].
  - destruct (listed_split accept_listed false listed)
      as [Hman|(pre & t' & post & text' & Hsplit & Hpre & Hg & Ht')].
    + exfalso. rewrite Forall_forall in Hgen, Hman.
      destruct (is_generated t) eqn:Hg.
      * rewrite (Hgen t Hin Hg) in Ht. discriminate.
      * rewrite (Hman t Hin Hg) in Ht. discriminate.
    + exists text', tag_m. split.
      * eapply picked_manual; eassumption.
      * right. split; [exact Hstage1|]. split; [|eapply usable_accepted, Ht'].
        subst listed. eapply any_transcript_manual; eassumption.
  - exists text', tag_g. split.
    + eapply picked_generated; eassumption.
    + right. split; [exact Hstage1|]. split; [|eapply usable_accepted, Ht'].
      subst listed. eapply any_transcript_generated; eassumption.
Qed.

Lemma no_transcripts_stage w accept_lang accept_listed langs tag_lang tag_g tag_m video_id :
  no_transcripts w video_id ->
  fst (try_languages w accept_lang tag_lang video_id langs) = None
  /\ fst (any_transcript w accept_listed tag_g tag_m video_id) = None.
Proof.
  intros [Hlang Hlist]. split.
  - apply try_languages_none. apply Forall_forall. intros lang _.
    destruct (Hlang lang) as [e He]. unfold language_unusable. rewrite He. reflexivity.
  - apply any_transcript_none.
    destruct Hlist as [He| Hempty]; [left; exact He|].
    right. exists []. repeat split; [exact Hempty| |]; constructor.
Qed.

Lemma enhanced_accept_length text :
  EnhancedSummarizer.accept text = true -> (50 < len text)%nat.
Proof.
  unfold EnhancedSummarizer.accept. intros H.
  apply andb_true_iff in H. destruct H as [_ H]. apply Nat.ltb_lt, H.
Qed.

Lemma hybrid_accept_length text :
  HybridSummarizer.accept_lang text = true \/ HybridSummarizer.accept_listed text = true ->
  (100 < len text)%nat.
Proof.
  unfold HybridSummarizer.accept_lang, HybridSummarizer.accept_listed.
  intros [H|H]; [apply andb_true_iff in H; destruct H as [_ H]|]; apply Nat.ltb_lt, H.
Qed.

Lemma long_is_truthy (text : pystr) (n : nat) : (n < len text)%nat -> truthy text = true.
Proof. destruct text; simpl; [lia|reflexivity]. Qed.

(** C6, as amended: when some transcript of the video can be fetched
    and is longer than the threshold (50 characters for the enhanced
    resolver, 100 for the hybrid one), the resolver returns the text of
    the first such transcript in the order it tries them (the language
    list, then the generated transcripts of the listing, then the manual
    ones) with that transcript's tag, and does not consult the video
    details. *)
Theorem acceptable_transcript_is_returned (w : World) (video_id : pystr) :
  (has_transcript w EnhancedSummarizer.accept EnhancedSummarizer.accept
     EnhancedSummarizer.languages_to_try video_id ->
   exists text tag,
     fst (EnhancedSummarizer.get_transcript_with_fallback w video_id) = Some (text, tag)
     /\ picked w EnhancedSummarizer.accept EnhancedSummarizer.accept
          EnhancedSummarizer.languages_to_try (fun _ => u "transcript")
          (u "auto_transcript") (u "manual_transcript") video_id (text, tag)
     /\ (50 < len text)%nat
     /\ no_details (snd (EnhancedSummarizer.get_transcript_with_fallback w video_id)))
  /\ (has_transcript w HybridSummarizer.accept_lang HybridSummarizer.accept_listed
        HybridSummarizer.languages_priority video_id ->
      exists text tag,
        fst (HybridSummarizer.get_content_with_fallbacks w video_id) = Some (text, tag)
        /\ picked w HybridSummarizer.accept_lang HybridSummarizer.accept_listed
             HybridSummarizer.languages_priority (fun lang => u "transcript_" ++ lang)
             (u "auto_generated") (u "manual") video_id (text, tag)
        /\ (100 < len text)%nat
        /\ no_details (snd (HybridSummarizer.get_content_with_fallbacks w video_id))).
Proof.
  split; intros Hhas.
  - destruct (transcript_stage w _ _ _ (fun _ => u "transcript")
                (u "auto_transcript") (u "manual_transcript") video_id Hhas)
      as (text & tag & Hpick & Hcase).
    exists text, tag.
    unfold EnhancedSummarizer.get_transcript_with_fallback.
    rewrite tbind_fst, tbind_snd.
    destruct Hcase as [[H1 Hacc]|(H1 & H2 & Hacc)]; rewrite H1.
    + repeat split; [exact Hpick|apply enhanced_accept_length, Hacc|].
      apply transcript_calls_no_details. cbn [tret snd]. rewrite app_nil_r.
      apply try_languages_trace.
    + rewrite tbind_fst, tbind_snd, H2.
      repeat split; [exact Hpick|apply enhanced_accept_length, Hacc|].
      apply transcript_calls_no_details. cbn [tret snd]. rewrite app_nil_r.
      apply Forall_app. split; [apply try_languages_trace|apply any_transcript_trace].
  - destruct (transcript_stage w _ _ _ (fun lang => u "transcript_" ++ lang)
                (u "auto_generated") (u "manual") video_id Hhas)
      as (text & tag & Hpick & Hcase).
    exists text, tag.
    assert (Hlen : (100 < len text)%nat).
    { apply hybrid_accept_length. destruct Hcase as [[_ H]|(_ & _ & H)]; auto. }
    assert (Hstage : fst (HybridSummarizer.get_transcript_smart w video_id) = Some (text, tag)
                     /\ transcript_calls_only
                          (snd (HybridSummarizer.get_transcript_smart w video_id))).
    { unfold HybridSummarizer.get_transcript_smart. rewrite tbind_fst, tbind_snd.
      destruct Hcase as [[H1 _]|(H1 & H2 & _)]; rewrite H1.
      - split; [reflexivity|]. cbn [tret snd]. rewrite app_nil_r.
        apply try_languages_trace.
      - split; [exact H2|].
        apply Forall_app. split; [apply try_languages_trace|apply any_transcript_trace]. }
    destruct Hstage as [Hfst Htrace].
    unfold HybridSummarizer.get_content_with_fallbacks.
    rewrite tbind_fst, tbind_snd, Hfst.
    rewrite (long_is_truthy text 100 Hlen).
    repeat split; [exact Hpick|exact Hlen|].
    apply transcript_calls_no_details. cbn [tret snd]. rewrite app_nil_r. exact Htrace.
Qed.

Lemma acceptable_transcript_is_returned_witness :
  let w := english_only [repeat 97 60; repeat 98 60] (repeat 99 150) in
  (exists text tag,
     fst (EnhancedSummarizer.get_transcript_with_fallback w (u "vid")) = Some (text, tag)
     /\ (50 < len text)%nat
     /\ no_details (snd (EnhancedSummarizer.get_transcript_with_fallback w (u "vid"))))
  /\ (exists text tag,
        fst (HybridSummarizer.get_content_with_fallbacks w (u "vid")) = Some (text, tag)
        /\ (100 < len text)%nat
        /\ no_details (snd (HybridSummarizer.get_content_with_fallbacks w (u "vid")))).
Proof.
  intros w.
  destruct (acceptable_transcript_is_returned w (u "vid")) as [He Hh].
  split.
  - destruct He as (text & tag & H1 & _ & H2 & H3).
    + left. exists (u "en"), (join (u " ") [repeat 97 60; repeat 98 60]).
      split; [apply list_elem_of_here|vm_compute; reflexivity].
    + exists text, tag. repeat split; assumption.
  - destruct Hh as (text & tag & H1 & _ & H2 & H3).
    + right. eexists _, _, (join (u " ") [repeat 97 60; repeat 98 60]).
      split; [reflexivity|]. split; [apply list_elem_of_here|vm_compute; reflexivity].
    + exists text, tag. repeat split; assumption.
Defined.

(** C6, as stated, fails at the threshold itself: a video whose only
    transcript has exactly 50 characters (100 for the hybrid resolver) is
    resolved from its description. *)
Lemma transcript_at_threshold_falls_through :
  let w50 := english_only [repeat 97 50] (repeat 99 150) in
  let w100 := english_only [repeat 97 100] (repeat 99 150) in
  get_transcript w50 (u "vid") (u "en") = inr [repeat 97 50]
  /\ len (join (u " ") [repeat 97 50]) = 50%nat
  /\ fst (EnhancedSummarizer.get_transcript_with_fallback w50 (u "vid"))
     = Some (repeat 99 150, u "description")
  /\ ~ no_details (snd (EnhancedSummarizer.get_transcript_with_fallback w50 (u "vid")))
  /\ get_transcript w100 (u "vid") (u "en") = inr [repeat 97 100]
  /\ len (join (u " ") [repeat 97 100]) = 100%nat
  /\ snd <$> fst (HybridSummarizer.get_content_with_fallbacks w100 (u "vid"))
     = Some (u "enhanced_description")
  /\ ~ no_details (snd (HybridSummarizer.get_content_with_fallbacks w100 (u "vid"))).
Proof.
  intros w50 w100.
  assert (Hlast : forall l : list event,
             last l = Some (EvVideoDetails (u "vid")) -> ~ no_details l).
  { intros l Hl Hno. apply last_Some in Hl. destruct Hl as [l' ->].
    apply Forall_app in Hno. destruct Hno as [_ Hno].
    inversion Hno as [|? ? Hd _]. discriminate Hd. }
  repeat split; try (vm_compute; reflexivity); apply Hlast; vm_compute; reflexivity.
Qed.

Lemma enhanced_without_transcripts w video_id :
  no_transcripts w video_id ->
  EnhancedSummarizer.get_transcript_with_fallback w video_id
  = (match fst (get_video_details w video_id) with
     | Some d =>
         if truthy (it_description d) && (100 <? len (it_description d))%nat
         then Some (it_description d, u "description")
         else None
     | None => None
     end,
     snd (try_languages w EnhancedSummarizer.accept (fun _ => u "transcript") video_id
            EnhancedSummarizer.languages_to_try)
     ++ snd (any_transcript w EnhancedSummarizer.accept (u "auto_transcript")
               (u "manual_transcript") video_id)
     ++ snd (get_video_details w video_id)).
Proof.
  intros Hno.
  destruct (no_transcripts_stage w EnhancedSummarizer.accept EnhancedSummarizer.accept
              EnhancedSummarizer.languages_to_try (fun _ => u "transcript")
              (u "auto_transcript") (u "manual_transcript") video_id Hno) as [H1 H2].
  apply injective_projections.
  - unfold EnhancedSummarizer.get_transcript_with_fallback.
    rewrite tbind_fst, H1, tbind_fst, H2, tbind_fst. cbn [fst].
    destruct (fst (get_video_details w video_id)) as [d|]; [|reflexivity].
    destruct (truthy _ && _); reflexivity.
  - unfold EnhancedSummarizer.get_transcript_with_fallback.
    rewrite tbind_snd, H1, tbind_snd, H2, tbind_snd. cbn [snd].
    do 2 f_equal.
    destruct (fst (get_video_details w video_id)) as [d|];
      [destruct (truthy _ && _)|]; cbn [tret snd]; apply app_nil_r.
Qed.

Lemma hybrid_without_transcripts w video_id :
  no_transcripts w video_id ->
  fst (HybridSummarizer.get_content_with_fallbacks w video_id)
  = match fst (get_video_details w video_id) with
    | Some d =>
        if truthy (it_description d) && (200 <? len (HybridSummarizer.enhanced_content d))%nat
        then Some (HybridSummarizer.enhanced_content d, u "enhanced_description")
        else None
    | None => None
    end.
Proof.
  intros Hno.
  destruct (no_transcripts_stage w HybridSummarizer.accept_lang HybridSummarizer.accept_listed
              HybridSummarizer.languages_priority (fun lang => u "transcript_" ++ lang)
              (u "auto_generated") (u "manual") video_id Hno) as [H1 H2].
  unfold HybridSummarizer.get_content_with_fallbacks, HybridSummarizer.get_transcript_smart.
  rewrite tbind_fst, tbind_fst, H1, H2.
  unfold HybridSummarizer.description_fallback. rewrite tbind_fst.
  destruct (fst (get_video_details w video_id)) as [d|]; [|reflexivity].
  destruct (truthy _ && _); reflexivity.
Qed.

Lemma details_of_service w video_id execute d rest :
  youtube_service w = Some execute ->
  execute video_id = inr (d :: rest) ->
  fst (get_video_details w video_id) = Some d.
Proof.
  intros Hs He. unfold get_video_details. rewrite Hs. cbn [emit fst]. rewrite He.
  reflexivity.
Qed.

(** C5, as amended: for a video without transcripts whose details the
    YouTube service returns, the enhanced resolver returns the
    description with provenance "description" when the description is
    longer than 100 characters and (None, None) when it has 100
    characters or fewer; the hybrid resolver returns the description
    under a header of title, channel, date and views, with provenance
    "enhanced_description", when the description is not empty and that
    whole text is longer than 200 characters, and (None, None) otherwise,
    that is when the description is empty or the whole text has 200
    characters or fewer. *)
Theorem description_fallback_threshold (w : World) (video_id : pystr)
    (execute : pystr -> M (list VideoItem)) (d : VideoItem) (rest : list VideoItem) :
  no_transcripts w video_id ->
  youtube_service w = Some execute ->
  execute video_id = inr (d :: rest) ->
  ((100 < len (it_description d))%nat ->
     fst (EnhancedSummarizer.get_transcript_with_fallback w video_id)
     = Some (it_description d, u "description"))
  /\ ((len (it_description d) <= 100)%nat ->
     fst (EnhancedSummarizer.get_transcript_with_fallback w video_id) = None)
  /\ (it_description d <> [] ->
      (200 < len (HybridSummarizer.enhanced_content d))%nat ->
      fst (HybridSummarizer.get_content_with_fallbacks w video_id)
      = Some (HybridSummarizer.enhanced_content d, u "enhanced_description"))
  /\ (it_description d = [] \/ (len (HybridSummarizer.enhanced_content d) <= 200)%nat ->
      fst (HybridSummarizer.get_content_with_fallbacks w video_id) = None).
Proof.
  intros Hno Hs He.
  pose proof (details_of_service w video_id execute d rest Hs He) as Hd.
  rewrite (enhanced_without_transcripts w video_id Hno), Hd.
  rewrite (hybrid_without_transcripts w video_id Hno), Hd. cbn [fst].
  repeat split.
  - intros Hlen. rewrite (long_is_truthy _ _ Hlen).
    apply Nat.ltb_lt in Hlen. rewrite Hlen. reflexivity.
  - intros Hlen. apply Nat.ltb_ge in Hlen. rewrite Hlen, andb_false_r. reflexivity.
  - intros Hne Hlen. apply Nat.ltb_lt in Hlen. rewrite Hlen.
    destruct (it_description d); [congruence|reflexivity].
  - intros [Hempty|Hlen].
    + rewrite Hempty. reflexivity.
    + apply Nat.ltb_ge in Hlen. rewrite Hlen, andb_false_r. reflexivity.
Qed.

Lemma captionless_has_no_transcripts description video_id :
  no_transcripts (captionless description) video_id.
Proof.
  split.
  - intros lang. eexists. reflexivity.
  - left. eexists. reflexivity.
Qed.

Lemma description_fallback_threshold_witness :
  fst (EnhancedSummarizer.get_transcript_with_fallback (captionless (repeat 99 40)) (u "vid"))
  = None.
Proof.
  refine (proj1 (proj2 (description_fallback_threshold (captionless (repeat 99 40)) (u "vid")
                          (fun _ => inr [item_with (repeat 99 40)])
                          (item_with (repeat 99 40)) [] _ _ _)) _).
  - apply captionless_has_no_transcripts.
  - reflexivity.
  - reflexivity.
  - vm_compute. lia.
Defined.

(** C5, as stated, fails: a description of exactly 100 characters is
    "at least 100" and the enhanced resolver returns (None, None) for it;
    and what the hybrid resolver returns for a long description is not the
    description, and its provenance is not "description". *)
Lemma description_of_100_is_rejected :
  let w100 := captionless (repeat 99 100) in
  let w150 := captionless (repeat 99 150) in
  no_transcripts w100 (u "vid")
  /\ len (repeat 99 100) = 100%nat
  /\ fst (EnhancedSummarizer.get_transcript_with_fallback w100 (u "vid")) = None
  /\ fst (EnhancedSummarizer.get_transcript_with_fallback w100 (u "vid"))
     <> Some (repeat 99 100, u "description")
  /\ no_transcripts w150 (u "vid")
  /\ fst (HybridSummarizer.get_content_with_fallbacks w150 (u "vid"))
     <> Some (repeat 99 150, u "description")
  /\ snd <$> fst (HybridSummarizer.get_content_with_fallbacks w150 (u "vid"))
     = Some (u "enhanced_description").
Proof.
  intros w100 w150.
  repeat split; try apply captionless_has_no_transcripts;
    try (vm_compute; reflexivity); vm_compute; discriminate.
Qed.

(** The hybrid resolver needs a description, however long the header
    is: a video with an empty description under a title of 250
    characters has a wrapped text of more than 200 characters and is
    not resolved. *)
Example empty_description_is_rejected :
  let d := {| it_title := repeat 84 250; it_description := []; it_channel := u "ch";
              it_duration := u "PT10M"; it_view_count := Some (u "12");
              it_published_at := u "2024-01-01T00:00:00Z" |} in
  let w := {| get_transcript := fun _ _ => inl no_transcript_found;
              list_transcripts := fun _ => inl transcripts_disabled;
              youtube_service := Some (fun _ => inr [d]);
              post := fun _ => Parsed (completion long_text) |} in
  (200 <? len (HybridSummarizer.enhanced_content d))%nat = true
  /\ fst (HybridSummarizer.get_content_with_fallbacks w (u "vid")) = None.
Proof. split; vm_compute; reflexivity. Qed.

(** ** The summarization client and its caller *)

Lemma enhanced_resolver_no_post w video_id :
  no_post (snd (EnhancedSummarizer.get_transcript_with_fallback w video_id)).
Proof.
  unfold EnhancedSummarizer.get_transcript_with_fallback, no_post.
  rewrite tbind_snd. apply Forall_app. split.
  { apply transcript_calls_no_post, try_languages_trace. }
  destruct (fst (try_languages _ _ _ _ _)); [constructor|].
  rewrite tbind_snd. apply Forall_app. split.
  { apply transcript_calls_no_post, any_transcript_trace. }
  destruct (fst (any_transcript _ _ _ _ _)); [constructor|].
  rewrite tbind_snd. apply Forall_app. split.
  { apply get_video_details_no_post. }
  destruct (fst (get_video_details _ _)) as [d|]; [|constructor].
  destruct (truthy _ && _); constructor.
Qed.

Lemma hybrid_resolver_no_post w video_id :
  no_post (snd (HybridSummarizer.get_content_with_fallbacks w video_id)).
Proof.
  assert (Hfallback : no_post (snd (HybridSummarizer.description_fallback w video_id))).
  { unfold HybridSummarizer.description_fallback, no_post.
    rewrite tbind_snd. apply Forall_app. split.
    { apply get_video_details_no_post. }
    destruct (fst (get_video_details _ _)) as [d|]; [|constructor].
    destruct (truthy _ && _); constructor. }
  unfold HybridSummarizer.get_content_with_fallbacks, no_post.
  rewrite tbind_snd. apply Forall_app. split.
  { unfold HybridSummarizer.get_transcript_smart.
    rewrite tbind_snd. apply Forall_app. split.
    { apply transcript_calls_no_post, try_languages_trace. }
    destruct (fst (try_languages _ _ _ _ _)); [constructor|].
    apply transcript_calls_no_post, any_transcript_trace. }
  destruct (fst (HybridSummarizer.get_transcript_smart _ _)) as [[content content_type]|];
    [destruct (truthy content); [constructor|]|]; exact Hfallback.
Qed.

(** C4: when the resolver returns (None, None) for the identifier of a
    video, [process_video] returns the result whose body is the fixed
    "unavailable" message, and makes no call to the chat-completion
    endpoint: the calls it makes are those of the resolver. *)
Theorem unavailable_content_is_not_summarized (str_exc : exc -> pystr)
    (api_key model_name : pystr) (w : World) (video_info : VideoInfo) (video_id : pystr) :
  get_videoId video_info = Some video_id ->
  video_id <> [] ->
  (fst (EnhancedSummarizer.get_transcript_with_fallback w video_id) = None ->
   let out := EnhancedSummarizer.process_video str_exc api_key model_name w video_info in
   (exists r, fst out = Some r
      /\ r_summary r = JStr (u "无法获取视频内容（无字幕且无描述信息）")
      /\ r_content_type r = u "none")
   /\ snd out = snd (EnhancedSummarizer.get_transcript_with_fallback w video_id)
   /\ no_post (snd out))
  /\ (fst (HybridSummarizer.get_content_with_fallbacks w video_id) = None ->
      let out := HybridSummarizer.process_video str_exc api_key model_name w video_info in
      (exists r, fst out = Some r
         /\ r_summary r = JStr (u "无法获取视频内容（无字幕、无描述信息）")
         /\ r_content_type r = u "failed")
      /\ snd out = snd (HybridSummarizer.get_content_with_fallbacks w video_id)
      /\ no_post (snd out)).
Proof.
  intros Hid Hne.
  assert (Htruthy : truthy video_id = true) by (destruct video_id; [congruence|reflexivity]).
  split; intros Hnone out.
  - assert (Hsnd : snd out = snd (EnhancedSummarizer.get_transcript_with_fallback w video_id)).
    { unfold out, EnhancedSummarizer.process_video.
      rewrite Hid, Htruthy. cbn [negb]. rewrite tbind_snd, Hnone.
      cbn [tret snd]. apply app_nil_r. }
    split; [|split; [exact Hsnd|rewrite Hsnd; apply enhanced_resolver_no_post]].
    unfold out, EnhancedSummarizer.process_video.
    rewrite Hid, Htruthy. cbn [negb]. rewrite tbind_fst, Hnone.
    eexists. split; [reflexivity|]. split; reflexivity.
  - assert (Hsnd : snd out = snd (HybridSummarizer.get_content_with_fallbacks w video_id)).
    { unfold out, HybridSummarizer.process_video.
      rewrite Hid, Htruthy. cbn [negb]. rewrite tbind_snd, Hnone.
      cbn [tret snd]. apply app_nil_r. }
    split; [|split; [exact Hsnd|rewrite Hsnd; apply hybrid_resolver_no_post]].
    unfold out, HybridSummarizer.process_video.
    rewrite Hid, Htruthy. cbn [negb]. rewrite tbind_fst, Hnone.
    eexists. split; [reflexivity|]. split; reflexivity.
Qed.

Lemma unavailable_content_is_not_summarized_witness :
  let w := captionless (repeat 99 40) in
  let v := video "vid" "A talk" "ch" in
  no_post (snd (EnhancedSummarizer.process_video sample_str_exc (u "key") (u "m") w v))
  /\ no_post (snd (HybridSummarizer.process_video sample_str_exc (u "key") (u "m") w v)).
Proof.
  intros w v.
  destruct (unavailable_content_is_not_summarized sample_str_exc (u "key") (u "m") w v (u "vid"))
    as [He Hh].
  - reflexivity.
  - vm_compute. discriminate.
  - split.
    + apply He. vm_compute. reflexivity.
    + apply Hh. vm_compute. reflexivity.
Defined.

(** C7: whenever the network call, the HTTP status check or the reading
    of the response fails, [summarize_content] returns the text
    "摘要生成失败: " followed by the reason, which is not empty and
    contains the reason; being a function into values it raises
    nothing. *)
Theorem summarize_content_failure_is_text (str_exc : exc -> pystr)
    (api_key model_name : pystr) (w : World)
    (content title channel_name content_type : pystr) :
  content <> [] ->
  (forall e,
     call_failure
       (post w (EnhancedSummarizer.build_request api_key model_name
                  (EnhancedSummarizer.create_enhanced_prompt content title channel_name
                     content_type))) e ->
     fst (EnhancedSummarizer.summarize_content str_exc api_key model_name w
            content title channel_name content_type)
     = JStr (u "摘要生成失败: " ++ str_exc e))
  /\ (forall e,
     call_failure
       (post w (HybridSummarizer.build_request api_key model_name
                  (HybridSummarizer.create_smart_prompt content title channel_name
                     content_type))) e ->
     fst (HybridSummarizer.summarize_content str_exc api_key model_name w
            content title channel_name content_type)
     = JStr (u "摘要生成失败: " ++ str_exc e))
  /\ (forall e, u "摘要生成失败: " ++ str_exc e <> []
                /\ contains (str_exc e) (u "摘要生成失败: " ++ str_exc e) = true).
Proof.
  intros Hne.
  assert (Htruthy : truthy content = true) by (destruct content; [congruence|reflexivity]).
  split; [|split].
  - intros e He. apply call_failure_raises in He.
    unfold EnhancedSummarizer.summarize_content.
    rewrite Htruthy. cbn [negb emit fst]. rewrite He. reflexivity.
  - intros e He. apply call_failure_raises in He.
    unfold HybridSummarizer.summarize_content.
    rewrite Htruthy. cbn [negb emit fst]. rewrite He. reflexivity.
  - intros e. split.
    + intros H. apply (f_equal length) in H. rewrite length_app in H.
      assert (Hp : length (u "摘要生成失败: ") = 8%nat) by (vm_compute; reflexivity).
      rewrite Hp in H. discriminate H.
    + apply contains_suffix.
Qed.


Lemma summarize_content_failure_is_text_witness :
  fst (EnhancedSummarizer.summarize_content sample_str_exc (u "key") (u "m") rate_limited
         (u "some transcript") (u "A talk") (u "ch") (u "transcript"))
  = JStr (u "摘要生成失败: "
          ++ sample_str_exc (LibraryError (u "HTTPError")
                               (u "429 Client Error: Too Many Requests"))).
Proof.
  pose proof (summarize_content_failure_is_text sample_str_exc (u "key") (u "m") rate_limited
                   (u "some transcript") (u "A talk") (u "ch") (u "transcript")) as H.
  assert (Hne : u "some transcript" <> []) by (vm_compute; discriminate).
  destruct (H Hne) as [He _].
  apply He.
  exact (http_failure _).
Defined.

(** ** The report renderer *)

Lemma paragraphs_in_app st (a b : list FixedPDFGenerator.flowable) :
  paragraphs_in st (a ++ b) = paragraphs_in st a ++ paragraphs_in st b.
Proof.
  induction a as [|[text st'|wd ht] a IH]; simpl; [reflexivity| |exact IH].
  destruct (FixedPDFGenerator.style_eqb st' st); simpl; rewrite IH; reflexivity.
Qed.

Lemma paragraphs_in_other st st' (texts : list pystr) :
  FixedPDFGenerator.style_eqb st' st = false ->
  paragraphs_in st (map (fun t => FixedPDFGenerator.Paragraph t st') texts) = [].
Proof.
  intros H. induction texts as [|t texts IH]; simpl; [reflexivity|].
  rewrite H. exact IH.
Qed.

Lemma paragraphs_in_same st (texts : list pystr) :
  paragraphs_in st (map (fun t => FixedPDFGenerator.Paragraph t st) texts) = texts.
Proof.
  induction texts as [|t texts IH]; simpl; [reflexivity|].
  assert (H : FixedPDFGenerator.style_eqb st st = true) by (destruct st; reflexivity).
  rewrite H, IH. reflexivity.
Qed.

Lemma section_titles_of_section lower n i (s : FixedPDFGenerator.Entry) :
  section_titles (FixedPDFGenerator.section_at lower n i s)
  = [FixedPDFGenerator.title_text lower
       (default (u "未知标题") (FixedPDFGenerator.e_title s))].
Proof.
  unfold section_titles, FixedPDFGenerator.section_at, FixedPDFGenerator.section_of.
  rewrite !paragraphs_in_app. cbn [paragraphs_in FixedPDFGenerator.style_eqb app].
  f_equal.
  assert (H1 : paragraphs_in FixedPDFGenerator.title_style
                 (if truthy (default (u "") (FixedPDFGenerator.e_url s))
                  then [FixedPDFGenerator.Paragraph
                          (FixedPDFGenerator.link_text (default (u "") (FixedPDFGenerator.e_url s)))
                          FixedPDFGenerator.link_style]
                  else []) = []).
  { destruct (truthy _); reflexivity. }
  rewrite H1.
  assert (H2 : forall sep : list FixedPDFGenerator.flowable,
             sep = [FixedPDFGenerator.Spacer 1 20] \/ sep = [] ->
             paragraphs_in FixedPDFGenerator.title_style sep = []).
  { intros sep [->| ->]; reflexivity. }
  rewrite (H2 (if (i <? n)%nat then _ else _)) by (destruct (i <? n)%nat; auto).
  rewrite app_nil_r. cbn [app].
  destruct (default _ (FixedPDFGenerator.e_summary s)) as [text|]; [|reflexivity].
  destruct (truthy text && _); [|reflexivity].
  apply paragraphs_in_other. reflexivity.
Qed.

Lemma section_titles_concat (g : nat -> FixedPDFGenerator.Entry -> list FixedPDFGenerator.flowable)
    (h : FixedPDFGenerator.Entry -> pystr) (l : list FixedPDFGenerator.Entry) :
  (forall i s, section_titles (g i s) = [h s]) ->
  section_titles (concat (imap g l)) = map h l.
Proof.
  revert g. induction l as [|s l IH]; intros g Hg; [reflexivity|].
  rewrite imap_cons. cbn [concat map]. unfold section_titles in *.
  rewrite paragraphs_in_app, Hg.
  rewrite (IH (g ∘ S)) by (intros i s'; apply Hg). reflexivity.
Qed.

Lemma body_of_section lower (s : FixedPDFGenerator.Entry) :
  body_of (FixedPDFGenerator.section_of lower s)
  = match default (Some (u "无内容")) (FixedPDFGenerator.e_summary s) with
    | Some text =>
        if truthy text && (0 <? len (strip text))%nat
        then FixedPDFGenerator.body_paragraphs text
        else [FixedPDFGenerator.placeholder]
    | None => [FixedPDFGenerator.placeholder]
    end.
Proof.
  unfold body_of, FixedPDFGenerator.section_of.
  rewrite !paragraphs_in_app. cbn [paragraphs_in FixedPDFGenerator.style_eqb app].
  assert (H1 : paragraphs_in FixedPDFGenerator.summary_style
                 (if truthy (default (u "") (FixedPDFGenerator.e_url s))
                  then [FixedPDFGenerator.Paragraph
                          (FixedPDFGenerator.link_text (default (u "") (FixedPDFGenerator.e_url s)))
                          FixedPDFGenerator.link_style]
                  else []) = []).
  { destruct (truthy _); reflexivity. }
  rewrite H1. cbn [app].
  destruct (default _ (FixedPDFGenerator.e_summary s)) as [text|]; [|reflexivity].
  destruct (truthy text && _); [|reflexivity].
  apply paragraphs_in_same.
Qed.

Lemma forallb_Forall {A : Type} (f : A -> bool) (l : list A) :
  forallb f l = true <-> Forall (fun x => f x = true) l.
Proof.
  induction l as [|x l IH]; cbn [forallb].
  - split; [constructor|reflexivity].
  - rewrite andb_true_iff, IH. split.
    + intros [H1 H2]. constructor; assumption.
    + intros H. inversion H; subst. split; assumption.
Qed.

(** C8: the story handed to the PDF library has exactly one section per
    element of the list, in the order of the list: its title paragraphs
    are the titles of the elements, one each, and the sections are the
    renderings of the elements one after the other.  Rendering the same
    list again, at whatever time, gives the same sections in the same
    order (only the header carries the date).  A body that is [None],
    empty or blank is rendered as the fixed placeholder sentence, and an
    element without a summary key as the fixed sentence "无内容。".
    [generate_report] returns the path of the report exactly when the
    directory can be made, the PDF library accepts every paragraph of
    that story and builds the document from it; the path is the one
    given, or "fixed_report_" with the time stamp when none is given. *)
Theorem report_has_one_section_per_result (lower : pystr -> pystr)
    (lib lib' : FixedPDFGenerator.Lib) (summaries : list FixedPDFGenerator.Entry) :
  section_titles (FixedPDFGenerator.build_story lower lib summaries)
  = map (fun s => FixedPDFGenerator.title_text lower
                    (default (u "未知标题") (FixedPDFGenerator.e_title s))) summaries
  /\ length (section_titles (FixedPDFGenerator.build_story lower lib summaries))
     = length summaries
  /\ (exists sections,
        FixedPDFGenerator.build_story lower lib summaries
        = FixedPDFGenerator.Paragraph
            (FixedPDFGenerator.header_text lib (length summaries))
            FixedPDFGenerator.header_style :: concat sections
        /\ length sections = length summaries
        /\ forall i s, summaries !! i = Some s ->
             exists sep, sections !! i = Some (FixedPDFGenerator.section_of lower s ++ sep)
                         /\ (sep = [] \/ sep = [FixedPDFGenerator.Spacer 1 20]))
  /\ tail (FixedPDFGenerator.build_story lower lib summaries)
     = tail (FixedPDFGenerator.build_story lower lib' summaries)
  /\ (forall s, blank_body s ->
        body_of (FixedPDFGenerator.section_of lower s) = [FixedPDFGenerator.placeholder])
  /\ (forall s, FixedPDFGenerator.e_summary s = None ->
        body_of (FixedPDFGenerator.section_of lower s) = [u "无内容。"])
  /\ (forall output_path path,
        FixedPDFGenerator.generate_report lower lib summaries output_path = Some path <->
        path = (if truthy output_path then output_path
                else u "fixed_report_" ++ FixedPDFGenerator.timestamp lib ++ u ".pdf")
        /\ FixedPDFGenerator.makedirs_ok lib path = true
        /\ Forall (fun f => FixedPDFGenerator.flowable_ok lib f = true)
                  (FixedPDFGenerator.build_story lower lib summaries)
        /\ FixedPDFGenerator.build_ok lib path
             (FixedPDFGenerator.build_story lower lib summaries) = true).
Proof.
  assert (Htitles : section_titles (FixedPDFGenerator.build_story lower lib summaries)
                    = map (fun s => FixedPDFGenerator.title_text lower
                                      (default (u "未知标题") (FixedPDFGenerator.e_title s)))
                          summaries).
  { unfold FixedPDFGenerator.build_story.
    change (section_titles (?p :: ?rest)) with (section_titles rest).
    apply section_titles_concat. intros i s. apply section_titles_of_section. }
  split; [exact Htitles|].
  split; [rewrite Htitles; apply length_map|].
  split.
  { eexists. split; [reflexivity|]. split; [apply length_imap|].
    intros i s Hs. rewrite list_lookup_imap, Hs. cbn [fmap option_fmap option_map].
    unfold FixedPDFGenerator.section_at. eexists. split; [reflexivity|].
    destruct (S i <? length summaries)%nat; auto. }
  split; [reflexivity|].
  split.
  { intros s Hblank. rewrite body_of_section.
    destruct Hblank as [-> |(text & -> & Hstrip)]; cbn [from_option id]; [reflexivity|].
    rewrite Hstrip. cbn [len length Nat.ltb Nat.leb]. rewrite andb_false_r. reflexivity. }
  split.
  { intros s Habsent. rewrite body_of_section, Habsent. vm_compute. reflexivity. }
  intros output_path path.
  unfold FixedPDFGenerator.generate_report.
  destruct (truthy output_path); cbn [negb].
  - destruct (FixedPDFGenerator.makedirs_ok lib output_path) eqn:Hm.
    2:{ split; [discriminate|]. intros (-> & H & _). congruence. }
    destruct (forallb _ _) eqn:Hp.
    2:{ split; [discriminate|]. intros (_ & _ & H & _).
        apply forallb_Forall in H. congruence. }
    cbn [andb].
    destruct (FixedPDFGenerator.build_ok lib output_path _) eqn:Hb.
    2:{ split; [discriminate|]. intros (-> & _ & _ & H). congruence. }
    split; [|intros (-> & _); reflexivity].
    intros [= <-]. repeat split; try assumption. apply forallb_Forall, Hp.
  - destruct (FixedPDFGenerator.makedirs_ok lib _) eqn:Hm.
    2:{ split; [discriminate|]. intros (-> & H & _). congruence. }
    destruct (forallb _ _) eqn:Hp.
    2:{ split; [discriminate|]. intros (_ & _ & H & _).
        apply forallb_Forall in H. congruence. }
    cbn [andb].
    destruct (FixedPDFGenerator.build_ok lib _ _) eqn:Hb.
    2:{ split; [discriminate|]. intros (-> & _ & _ & H). congruence. }
    split; [|intros (-> & _); reflexivity].
    intros [= <-]. repeat split; try assumption. apply forallb_Forall, Hp.
Qed.

Lemma report_has_one_section_per_result_witness :
  let abc := [entry "A" "第一段。"; entry "B" "  "; entry "C" "第三段。"] in
  length (section_titles (FixedPDFGenerator.build_story lower_ascii sample_lib abc)) = 3%nat
  /\ body_of (FixedPDFGenerator.section_of lower_ascii (entry "B" "  "))
     = [FixedPDFGenerator.placeholder]
  /\ FixedPDFGenerator.generate_report lower_ascii sample_lib abc (u "out/report.pdf")
     = Some (u "out/report.pdf").
Proof.
  intros abc.
  destruct (report_has_one_section_per_result lower_ascii sample_lib sample_lib abc)
    as (_ & Hlen & _ & _ & Hblank & _ & Hbuilt).
  split; [exact Hlen|]. split.
  - apply Hblank. right. exists (u "  "). split; [reflexivity|vm_compute; reflexivity].
  - apply Hbuilt. split; [reflexivity|]. split; [reflexivity|]. split; [|reflexivity].
    apply Forall_forall. intros f _. destruct f; reflexivity.
Defined.

(** ** Title translation *)






(** ** Delivery *)

Lemma build_message_without_file username h to_email pdf_path subject :
  pdf_path = None
    \/ (exists path, pdf_path = Some path /\ EmailSender.exists_ h path = false) ->
  exists msg,
    EmailSender.build_message username h to_email pdf_path subject = inr msg
    /\ EmailSender.m_parts msg = [EmailSender.TextPart (EmailSender.body h)]
    /\ EmailSender.m_from msg = username
    /\ EmailSender.m_to msg = to_email.
Proof.
  intros H. unfold EmailSender.build_message.
  destruct H as [-> |(path & -> & Hmissing)].
  - eexists. repeat split.
  - rewrite Hmissing, andb_false_r. eexists. repeat split.
Qed.

Lemma build_message_addresses username h to_email pdf_path subject msg :
  EmailSender.build_message username h to_email pdf_path subject = inr msg ->
  EmailSender.m_from msg = username /\ EmailSender.m_to msg = to_email.
Proof.
  unfold EmailSender.build_message. intros H.
  destruct pdf_path as [path|].
  - destruct (truthy path && EmailSender.exists_ h path).
    + destruct (EmailSender.read_file h path) as [e|payload]; [discriminate H|].
      injection H as <-. split; reflexivity.
    + injection H as <-. split; reflexivity.
  - injection H as <-. split; reflexivity.
Qed.

Lemma session_ok_iff username smtp to_email msg :
  EmailSender.m_from msg = username ->
  EmailSender.m_to msg = to_email ->
  EmailSender.session username smtp to_email msg = inr tt <-> smtp_ok smtp msg.
Proof.
  intros <- <-. unfold EmailSender.session, smtp_ok.
  destruct (EmailSender.connect smtp), (EmailSender.starttls smtp),
    (EmailSender.login smtp);
    try (split; [discriminate|intros (H1 & H2 & H3 & _); discriminate]).
  destruct (EmailSender.as_string smtp msg) as [e|text].
  { split; [discriminate|]. intros (_ & _ & _ & (text & H & _) & _). discriminate H. }
  destruct (EmailSender.sendmail smtp _ _ text) eqn:Hsend.
  { split; [discriminate|].
    intros (_ & _ & _ & (text' & [= <-] & H) & _). congruence. }
  destruct (EmailSender.quit smtp).
  { split; [discriminate|]. intros (_ & _ & _ & _ & H). discriminate H. }
  split; [|reflexivity]. intros _. repeat split. exists text. split; [reflexivity|exact Hsend].
Qed.

Lemma handed_over_ok smtp msg :
  smtp_ok smtp msg -> EmailSender.handed_over smtp msg = Some msg.
Proof.
  intros (H1 & H2 & H3 & (text & H4 & _) & _). unfold EmailSender.handed_over.
  rewrite H1, H2, H3, H4. reflexivity.
Qed.

Lemma handed_over_opened smtp msg' msg :
  EmailSender.handed_over smtp msg' = Some msg ->
  msg' = msg
  /\ EmailSender.connect smtp = None
  /\ EmailSender.starttls smtp = None
  /\ EmailSender.login smtp = None
  /\ exists text, EmailSender.as_string smtp msg = inr text.
Proof.
  unfold EmailSender.handed_over.
  destruct (EmailSender.connect smtp), (EmailSender.starttls smtp),
    (EmailSender.login smtp); try discriminate.
  destruct (EmailSender.as_string smtp msg') as [e|text] eqn:Hflat; [discriminate|].
  intros [= <-]. repeat split. exists text. exact Hflat.
Qed.

(** C10: when [pdf_path] is [None] or names a file that does not exist,
    [send_report] builds the message with its text part only and returns
    a boolean: [True] exactly when every call of the session returns
    (the connection, [starttls], [login], the flattening of the message,
    [sendmail] on its text and [quit]), in which case that message was
    handed to [sendmail].  Nothing is handed to [sendmail] when the
    flattening raises.  An exception of the session never leaves
    [send_report]: whatever the arguments, it either returns a boolean or
    propagates an exception raised while reading the attachment, before
    the session starts. *)
Theorem send_report_without_attachment (username : pystr) (h : EmailSender.Host)
    (smtp : EmailSender.Smtp) (to_email : pystr) (pdf_path subject : option pystr) :
  (pdf_path = None
     \/ (exists path, pdf_path = Some path /\ EmailSender.exists_ h path = false) ->
   exists msg b,
     EmailSender.build_message username h to_email pdf_path subject = inr msg
     /\ EmailSender.m_parts msg = [EmailSender.TextPart (EmailSender.body h)]
     /\ has_attachment msg = false
     /\ fst (EmailSender.send_report username h smtp to_email pdf_path subject)
        = EmailSender.Returns b
     /\ (b = true <-> smtp_ok smtp msg)
     /\ (smtp_ok smtp msg ->
         snd (EmailSender.send_report username h smtp to_email pdf_path subject) = Some msg)
     /\ (forall e, EmailSender.as_string smtp msg = inl e ->
           EmailSender.send_report username h smtp to_email pdf_path subject
           = (EmailSender.Returns false, None)))
  /\ ((exists b, fst (EmailSender.send_report username h smtp to_email pdf_path subject)
                 = EmailSender.Returns b)
      \/ (exists e path, pdf_path = Some path
            /\ EmailSender.read_file h path = inl e
            /\ EmailSender.send_report username h smtp to_email pdf_path subject
               = (EmailSender.Propagates e, None))).
Proof.
  split.
  - intros Hfile.
    destruct (build_message_without_file username h to_email pdf_path subject Hfile)
      as (msg & Hmsg & Hparts & Hfrom & Hto).
    exists msg.
    unfold EmailSender.send_report. rewrite Hmsg.
    assert (Hatt : has_attachment msg = false).
    { unfold has_attachment. rewrite Hparts. reflexivity. }
    assert (Hflat : forall e, EmailSender.as_string smtp msg = inl e ->
              EmailSender.session username smtp to_email msg <> inr tt
              /\ EmailSender.handed_over smtp msg = None).
    { intros e He. split.
      - intros Hs. apply (session_ok_iff _ _ _ _ Hfrom Hto) in Hs.
        destruct Hs as (_ & _ & _ & (text & H & _) & _). congruence.
      - unfold EmailSender.handed_over. rewrite He.
        destruct (EmailSender.connect smtp), (EmailSender.starttls smtp),
          (EmailSender.login smtp); reflexivity. }
    destruct (EmailSender.session username smtp to_email msg) as [e|[]] eqn:Hs.
    + exists false.
      split; [reflexivity|]. split; [exact Hparts|]. split; [exact Hatt|].
      split; [reflexivity|]. split; [|split].
      * split; [discriminate|].
        intros Hok. apply (session_ok_iff _ _ _ _ Hfrom Hto) in Hok. congruence.
      * intros Hok. apply (session_ok_iff _ _ _ _ Hfrom Hto) in Hok. congruence.
      * intros e' He'. rewrite (proj2 (Hflat e' He')). reflexivity.
    + exists true.
      split; [reflexivity|]. split; [exact Hparts|]. split; [exact Hatt|].
      split; [reflexivity|]. split; [|split].
      * split; [intros _; apply (session_ok_iff _ _ _ _ Hfrom Hto), Hs|reflexivity].
      * intros Hok. cbn [snd]. apply handed_over_ok, Hok.
      * intros e' He'. destruct (proj1 (Hflat e' He')). reflexivity.
  - unfold EmailSender.send_report.
    destruct (EmailSender.build_message username h to_email pdf_path subject)
      as [e|msg] eqn:Hmsg.
    + right. unfold EmailSender.build_message in Hmsg.
      destruct pdf_path as [path|]; [|discriminate].
      destruct (truthy path && EmailSender.exists_ h path); [|discriminate].
      destruct (EmailSender.read_file h path) as [e'|payload] eqn:Hread; [|discriminate].
      injection Hmsg as <-. exists e', path.
      split; [reflexivity|]. split; [exact Hread|reflexivity].
    + left. destruct (EmailSender.session username smtp to_email msg); eexists; reflexivity.
Qed.

Lemma send_report_without_attachment_witness :
  exists msg b,
    EmailSender.build_message (u "me@example.com") sample_host (u "you@example.com")
      (Some (u "reports/missing.pdf")) None = inr msg
    /\ has_attachment msg = false
    /\ fst (EmailSender.send_report (u "me@example.com") sample_host working_smtp
              (u "you@example.com") (Some (u "reports/missing.pdf")) None)
       = EmailSender.Returns b
    /\ b = true.
Proof.
  destruct (proj1 (send_report_without_attachment (u "me@example.com") sample_host
                     working_smtp (u "you@example.com")
                     (Some (u "reports/missing.pdf")) None))
    as (msg & b & Hmsg & _ & Hatt & Hret & Hb & _).
  - right. exists (u "reports/missing.pdf"). split; reflexivity.
  - exists msg, b. repeat split; try assumption.
    apply Hb. vm_compute in Hmsg. injection Hmsg as <-.
    repeat split. eexists. split; reflexivity.
Defined.

Example send_report_refused_login :
  fst (EmailSender.send_report (u "me@example.com") sample_host refusing_smtp
         (u "you@example.com") None None)
  = EmailSender.Returns false
  /\ snd (EmailSender.send_report (u "me@example.com") sample_host refusing_smtp
            (u "you@example.com") None None)
     = None.
Proof. split; reflexivity. Qed.

(** ** Runs on concrete inputs *)

Example utf8_literal : u "a记ü" = [97; 35760; 252].
Proof. reflexivity. Qed.

Example split_on_full_stop : split (u "。") (u "甲。乙。") = [u "甲"; u "乙"; []].
Proof. vm_compute. reflexivity. Qed.

Example first_two_words :
  take 2 (split_ws (lower_ascii (u "How to Live in Everyone Else's Future")))
  = [u "how"; u "to"].
Proof. vm_compute. reflexivity. Qed.

Example all_three_succeed :
  map r_title (fst (ParallelSummarizer.process_videos_parallel sample_str_exc (u "key")
                      all_answered [1; 2; 0]%nat abc))
  = [u "B"; u "C"; u "A"].
Proof. vm_compute. reflexivity. Qed.

Example timed_out_unit_is_logged :
  snd (ParallelSummarizer.process_videos_parallel sample_str_exc (u "key")
         b_times_out [0; 1; 2]%nat abc)
  = [LogDone (u "A") 120; LogFailed (u "B"); LogDone (u "C") 120].
Proof. vm_compute. reflexivity. Qed.

Example body_of_a_lone_full_stop :
  FixedPDFGenerator.body_paragraphs (u "。") = [].
Proof. vm_compute. reflexivity. Qed.

(** * Further properties *)

(** ** Order of the dispatched results *)

Lemma omap_omap {A B C} (f : B -> option C) (g : A -> option B) (l : list A) :
  omap f (omap g l) = omap (fun a => g a ≫= f) l.
Proof.
  induction l as [|a l IH]; [reflexivity|].
  csimpl. destruct (g a) as [b|]; csimpl; [|exact IH].
  destruct (f b); rewrite IH; reflexivity.
Qed.

(** The list a dispatcher returns follows the order in which the
    futures complete, not the order of submission: for any sequence of
    completed futures, the parallel summarizer returns the successful
    units among them in that sequence, and the fixed summarizer returns
    the unit of each of them in that sequence. *)
Theorem results_follow_completion_order (str_exc : exc -> pystr) (lower : pystr -> pystr)
    (api_key : pystr) (net : nat -> request -> response)
    (order : list nat) (videos : list VideoInfo) :
  fst (ParallelSummarizer.process_videos_parallel str_exc api_key net order videos)
  = omap (parallel_kept str_exc api_key net videos) order
  /\ fst (FixedSummarizer.process_videos_parallel lower api_key net order videos)
     = omap (fun i => fixed_units lower api_key net videos !! i) order.
Proof.
  split.
  - unfold ParallelSummarizer.process_videos_parallel, ParallelSummarizer.collect.
    rewrite (parallel_collect_results str_exc). cbn [app].
    rewrite omap_omap. apply list_omap_ext, Forall2_same_length_lookup_2; [reflexivity|].
    intros k i j Hi Hj. rewrite Hi in Hj. injection Hj as <-.
    unfold parallel_kept, ParallelSummarizer.submit_all, parallel_units.
    rewrite !list_lookup_imap.
    destruct (videos !! i); reflexivity.
  - unfold FixedSummarizer.process_videos_parallel, FixedSummarizer.collect.
    rewrite fixed_collect_results. cbn [app].
    rewrite omap_omap. apply list_omap_ext, Forall2_same_length_lookup_2; [reflexivity|].
    intros k i j Hi Hj. rewrite Hi in Hj. injection Hj as <-.
    unfold FixedSummarizer.submit_all, fixed_units.
    rewrite !list_lookup_imap.
    destruct (videos !! i); reflexivity.
Qed.

(** ** What the fixed summarizer returns *)

Lemma keyword_free_matches lower title content :
  keyword_free lower title ->
  FixedSummarizer._content_matches_title lower title content = true.
Proof.
  intros (Hw & Hd & Hb). unfold FixedSummarizer._content_matches_title.
  rewrite Hw, Hd, Hb. reflexivity.
Qed.

(** The model's text is kept, stripped of surrounding white space,
    when it has at least 100 characters once stripped and the title has
    none of the words "write", "data", "britain" in it. *)
Theorem fixed_keeps_long_text (lower : pystr -> pystr) (api_key : pystr)
    (post : request -> response) (video : VideoInfo) (body : json) (text : pystr) :
  post (fixed_request api_key video) = Parsed body ->
  first_choice_content body = inr (JStr text) ->
  (100 <= len (strip text))%nat ->
  keyword_free lower (default (u "Unknown") (get_title video)) ->
  r_summary (FixedSummarizer._make_api_call lower api_key post video) = JStr (strip text).
Proof.
  intros Hpost Hbody Hlen Hfree.
  unfold FixedSummarizer._make_api_call, fixed_request in *.
  rewrite Hpost. cbn [exchange bind ret]. rewrite Hbody.
  cbn [bind FixedSummarizer.strip_value ret r_summary].
  apply Nat.ltb_ge in Hlen. rewrite Hlen.
  rewrite (keyword_free_matches lower _ (strip text) Hfree). reflexivity.
Qed.

Lemma fixed_keeps_long_text_witness :
  r_summary (FixedSummarizer._make_api_call lower_ascii (u "key")
               (fun _ => Parsed (completion ([32; 10] ++ long_text ++ [32])))
               (video "idA" "A talk" "ch"))
  = JStr (strip ([32; 10] ++ long_text ++ [32])).
Proof.
  apply (fixed_keeps_long_text lower_ascii (u "key")
           (fun _ => Parsed (completion ([32; 10] ++ long_text ++ [32])))
           (video "idA" "A talk" "ch")
           (completion ([32; 10] ++ long_text ++ [32]))).
  - reflexivity.
  - vm_compute. reflexivity.
  - vm_compute. lia.
  - repeat split; vm_compute; reflexivity.
Defined.

Ltac literal_lengths :=
  repeat rewrite length_app;
  repeat match goal with
         | |- context [length (u ?s)] =>
             let n := eval vm_compute in (length (u s)) in
             change (length (u s)) with n
         end;
  change (length nl) with 1%nat; change (length dq) with 1%nat.

Lemma canned_paragraphs_are_long (channel : pystr) :
  Forall (fun kv => (100 <= len (snd kv))%nat) (FixedSummarizer.summaries channel).
Proof.
  unfold FixedSummarizer.summaries, len.
  repeat (apply Forall_cons; split; [cbn [snd]; literal_lengths; lia|]).
  apply Forall_nil. exact I.
Qed.

Lemma first_item_Forall {A} (P : A -> Prop) (test : pystr -> bool)
    (table : list (pystr * A)) (v : A) :
  Forall (fun kv => P (snd kv)) table ->
  FixedSummarizer.first_item test table = Some v -> P v.
Proof.
  induction 1 as [|[k v'] table Hk _ IH]; simpl; [discriminate|].
  destruct (test k); [|exact IH].
  intros [= <-]. exact Hk.
Qed.

Lemma fallback_summary_is_long lower title channel :
  (100 <= len (FixedSummarizer._generate_fallback_summary lower title channel))%nat.
Proof.
  unfold FixedSummarizer._generate_fallback_summary.
  destruct (FixedSummarizer.first_item _ _) as [summary|] eqn:E.
  - eapply (first_item_Forall (fun s => (100 <= len s)%nat)); [|exact E].
    apply canned_paragraphs_are_long.
  - unfold FixedSummarizer.default_summary, len. literal_lengths. lia.
Qed.

(** Whatever the endpoint does, the body of a result of the fixed
    summarizer is a string of at least 100 characters, and the result is
    tagged as a success. *)
Theorem fixed_summary_has_100_characters (lower : pystr -> pystr) (api_key : pystr)
    (post : request -> response) (video : VideoInfo) :
  exists s,
    r_summary (FixedSummarizer._make_api_call lower api_key post video) = JStr s
    /\ (100 <= len s)%nat
    /\ r_success (FixedSummarizer._make_api_call lower api_key post video) = Some true.
Proof.
  unfold FixedSummarizer._make_api_call.
  destruct (bind (bind _ _) _) as [e|text].
  - eexists. split; [reflexivity|]. split; [apply fallback_summary_is_long|reflexivity].
  - cbn [r_summary r_success].
    destruct (len text <? 100)%nat eqn:Hlen; cbn [orb].
    + eexists. split; [reflexivity|]. split; [apply fallback_summary_is_long|reflexivity].
    + destruct (FixedSummarizer._content_matches_title lower _ text); cbn [negb].
      * exists text. split; [reflexivity|]. split; [apply Nat.ltb_ge, Hlen|reflexivity].
      * eexists. split; [reflexivity|].
        split; [apply fallback_summary_is_long|reflexivity].
Qed.

(** ** What the resolvers return and ask for *)

Lemma try_languages_accepted w accept tag video_id langs text t :
  fst (try_languages w accept tag video_id langs) = Some (text, t) ->
  accept text = true /\ exists lang, lang ∈ langs /\ t = tag lang.
Proof.
  induction langs as [|lang rest IH]; [discriminate|].
  cbn [try_languages]. rewrite tbind_fst. cbn [emit fst snd].
  assert (Hrest : fst (try_languages w accept tag video_id rest) = Some (text, t) ->
                  accept text = true /\ exists lang', lang' ∈ lang :: rest /\ t = tag lang').
  { intros H. destruct (IH H) as (Ha & lang' & Hin & Ht).
    split; [exact Ha|]. exists lang'. split; [apply list_elem_of_further, Hin|exact Ht]. }
  destruct (get_transcript w video_id lang) as [e|parts]; [exact Hrest|].
  destruct (accept (join (u " ") parts)) eqn:Ha; [|exact Hrest].
  intros [= <- <-]. split; [exact Ha|]. exists lang. split; [apply list_elem_of_here|reflexivity].
Qed.

Lemma fetch_first_accepted accept g tag video_id listed text t :
  fst (fetch_first accept g tag video_id listed) = Some (text, t) ->
  accept text = true /\ t = tag.
Proof.
  induction listed as [|tr rest IH]; [discriminate|].
  cbn [fetch_first]. destruct (bool_decide _); [|exact IH].
  rewrite tbind_fst. cbn [emit fst snd].
  destruct (fetch tr) as [e|parts]; [exact IH|].
  destruct (accept (join (u " ") parts)) eqn:Ha; [|exact IH].
  intros [= <- <-]. split; [exact Ha|reflexivity].
Qed.

Lemma any_transcript_accepted w accept tag_g tag_m video_id text t :
  fst (any_transcript w accept tag_g tag_m video_id) = Some (text, t) ->
  accept text = true /\ (t = tag_g \/ t = tag_m).
Proof.
  unfold any_transcript. rewrite tbind_fst. cbn [emit fst snd].
  destruct (list_transcripts w video_id) as [e|listed]; [discriminate|].
  rewrite tbind_fst.
  destruct (fst (fetch_first accept true tag_g video_id listed)) as [[text' t']|] eqn:E.
  - intros [= <- <-]. apply fetch_first_accepted in E. destruct E as [Ha ->]. auto.
  - intros H. apply fetch_first_accepted in H. destruct H as [Ha ->]. auto.
Qed.

(** The text a resolver returns is never short: more than 50
    characters from the enhanced resolver and more than 100 from the
    hybrid one, under one of the provenance tags of that resolver. *)
Theorem resolved_text_is_long (w : World) (video_id text tag : pystr) :
  (fst (EnhancedSummarizer.get_transcript_with_fallback w video_id) = Some (text, tag) ->
   (50 < len text)%nat
   /\ tag ∈ [u "transcript"; u "auto_transcript"; u "manual_transcript"; u "description"])
  /\ (fst (HybridSummarizer.get_content_with_fallbacks w video_id) = Some (text, tag) ->
      (100 < len text)%nat
      /\ (tag ∈ [u "auto_generated"; u "manual"; u "enhanced_description"]
          \/ exists lang, lang ∈ HybridSummarizer.languages_priority
                          /\ tag = u "transcript_" ++ lang)).
Proof.
  split.
  - unfold EnhancedSummarizer.get_transcript_with_fallback. rewrite tbind_fst.
    destruct (fst (try_languages _ _ _ _ _)) as [[text' t']|] eqn:E1.
    { intros [= <- <-]. apply try_languages_accepted in E1.
      destruct E1 as (Ha & lang & _ & ->).
      split; [apply enhanced_accept_length, Ha|apply list_elem_of_here]. }
    rewrite tbind_fst.
    destruct (fst (any_transcript _ _ _ _ _)) as [[text' t']|] eqn:E2.
    { intros [= <- <-]. apply any_transcript_accepted in E2.
      destruct E2 as (Ha & [-> | ->]); (split; [apply enhanced_accept_length, Ha|]).
      - apply list_elem_of_further, list_elem_of_here.
      - do 2 apply list_elem_of_further. apply list_elem_of_here. }
    rewrite tbind_fst.
    destruct (fst (get_video_details w video_id)) as [d|]; [|discriminate].
    destruct (truthy _ && _) eqn:Hd; [|discriminate].
    intros [= <- <-]. apply andb_true_iff in Hd. destruct Hd as [_ Hd].
    apply Nat.ltb_lt in Hd. split; [lia|].
    do 3 apply list_elem_of_further. apply list_elem_of_here.
  - assert (Hfb : fst (HybridSummarizer.description_fallback w video_id) = Some (text, tag) ->
                  (100 < len text)%nat /\ tag = u "enhanced_description").
    { unfold HybridSummarizer.description_fallback. rewrite tbind_fst.
      destruct (fst (get_video_details w video_id)) as [d|]; [|discriminate].
      destruct (truthy _ && _) eqn:Hd; [|discriminate].
      intros [= <- <-]. apply andb_true_iff in Hd. destruct Hd as [_ Hd].
      apply Nat.ltb_lt in Hd. split; [lia|reflexivity]. }
    assert (Hfb' : fst (HybridSummarizer.description_fallback w video_id) = Some (text, tag) ->
                   (100 < len text)%nat
                   /\ (tag ∈ [u "auto_generated"; u "manual"; u "enhanced_description"]
                       \/ exists lang, lang ∈ HybridSummarizer.languages_priority
                                       /\ tag = u "transcript_" ++ lang)).
    { intros H. destruct (Hfb H) as [Hl ->]. split; [exact Hl|]. left.
      do 2 apply list_elem_of_further. apply list_elem_of_here. }
    unfold HybridSummarizer.get_content_with_fallbacks. rewrite tbind_fst.
    destruct (fst (HybridSummarizer.get_transcript_smart w video_id))
      as [[content content_type]|] eqn:E; [|exact Hfb'].
    destruct (truthy content); [|exact Hfb'].
    intros [= <- <-].
    unfold HybridSummarizer.get_transcript_smart in E. rewrite tbind_fst in E.
    destruct (fst (try_languages _ _ _ _ _)) as [[text' t']|] eqn:E1.
    + injection E as <- <-. apply try_languages_accepted in E1.
      destruct E1 as (Ha & lang & Hin & ->).
      split; [apply hybrid_accept_length; auto|]. right. exists lang. auto.
    + apply any_transcript_accepted in E. destruct E as (Ha & Ht).
      split; [apply hybrid_accept_length; auto|]. left.
      destruct Ht as [-> | ->];
        [apply list_elem_of_here|apply list_elem_of_further, list_elem_of_here].
Qed.

Lemma resolved_text_is_long_witness :
  (50 < len (repeat 99%N 150))%nat
  /\ (100 < len (HybridSummarizer.enhanced_content (item_with (repeat 99%N 150))))%nat.
Proof.
  split.
  - refine (proj1 (proj1 (resolved_text_is_long (captionless (repeat 99 150)) (u "vid")
                            (repeat 99 150) (u "description")) _)).
    vm_compute. reflexivity.
  - refine (proj1 (proj2 (resolved_text_is_long (captionless (repeat 99 150)) (u "vid")
                            (HybridSummarizer.enhanced_content (item_with (repeat 99 150)))
                            (u "enhanced_description")) _)).
    vm_compute. reflexivity.
Defined.

(** ** The caller of the resolvers *)

(** A video without an identifier, or with an empty one, is not
    processed: [process_video] returns [None] and calls nothing, neither
    the transcript service nor the details service nor the endpoint. *)
Theorem process_video_without_id (str_exc : exc -> pystr) (api_key model_name : pystr)
    (w : World) (video_info : VideoInfo) :
  get_videoId video_info = None \/ get_videoId video_info = Some [] ->
  EnhancedSummarizer.process_video str_exc api_key model_name w video_info = (None, [])
  /\ HybridSummarizer.process_video str_exc api_key model_name w video_info = (None, []).
Proof.
  intros [H|H]; unfold EnhancedSummarizer.process_video, HybridSummarizer.process_video;
    rewrite H; split; reflexivity.
Qed.

Lemma process_video_without_id_witness :
  EnhancedSummarizer.process_video sample_str_exc (u "key") (u "m") (captionless [])
    {| vi_id := Some {| videoId := None |}; vi_snippet := None |} = (None, []).
Proof.
  refine (proj1 (process_video_without_id sample_str_exc (u "key") (u "m") (captionless [])
                   {| vi_id := Some {| videoId := None |}; vi_snippet := None |} _)).
  left. reflexivity.
Defined.

Lemma posted_app a b : posted (a ++ b) = posted a ++ posted b.
Proof.
  induction a as [|e a IH]; [reflexivity|].
  destruct e; simpl; rewrite IH; reflexivity.
Qed.

Lemma no_post_posted trace : no_post trace -> posted trace = [].
Proof.
  induction 1 as [|e trace He _ IH]; [reflexivity|].
  destruct e; simpl in *; try exact IH. discriminate He.
Qed.

Lemma enhanced_resolved_is_truthy w video_id content tag :
  fst (EnhancedSummarizer.get_transcript_with_fallback w video_id) = Some (content, tag) ->
  truthy content = true.
Proof.
  unfold EnhancedSummarizer.get_transcript_with_fallback. rewrite tbind_fst.
  destruct (fst (try_languages _ _ _ _ _)) as [[text' t']|] eqn:E1.
  { intros [= <- <-]. apply try_languages_accepted in E1. destruct E1 as [Ha _].
    apply andb_true_iff in Ha. apply Ha. }
  rewrite tbind_fst.
  destruct (fst (any_transcript _ _ _ _ _)) as [[text' t']|] eqn:E2.
  { intros [= <- <-]. apply any_transcript_accepted in E2. destruct E2 as [Ha _].
    apply andb_true_iff in Ha. apply Ha. }
  rewrite tbind_fst.
  destruct (fst (get_video_details w video_id)) as [d|]; [|discriminate].
  destruct (truthy _ && _) eqn:Hd; [|discriminate].
  intros [= <- <-]. apply andb_true_iff in Hd. apply Hd.
Qed.

(** When the resolver returns a text, [process_video] sends exactly one
    request to the endpoint, after the last call of the resolver, built
    from that text and its tag; the result carries the resolver's tag as
    content type and what [summarize_content] returned as body. *)
Theorem process_video_posts_once (str_exc : exc -> pystr) (api_key model_name : pystr)
    (w : World) (video_info : VideoInfo) (video_id content tag : pystr) :
  get_videoId video_info = Some video_id ->
  video_id <> [] ->
  fst (EnhancedSummarizer.get_transcript_with_fallback w video_id) = Some (content, tag) ->
  let title := default (u "") (get_title video_info) in
  let channel := default (u "") (get_channelTitle video_info) in
  let rq := EnhancedSummarizer.build_request api_key model_name
              (EnhancedSummarizer.create_enhanced_prompt content title channel tag) in
  let out := EnhancedSummarizer.process_video str_exc api_key model_name w video_info in
  snd out = snd (EnhancedSummarizer.get_transcript_with_fallback w video_id) ++ [EvPost rq]
  /\ posted (snd out) = [rq]
  /\ exists r, fst out = Some r
       /\ r_content_type r = tag
       /\ r_title r = title
       /\ r_summary r
          = fst (EnhancedSummarizer.summarize_content str_exc api_key model_name w
                   content title channel tag).
Proof.
  intros Hid Hne Hres title channel rq out.
  assert (Htruthy : truthy video_id = true) by (destruct video_id; [congruence|reflexivity]).
  assert (Hcontent : truthy content = true).
  { apply (enhanced_resolved_is_truthy w video_id content tag Hres). }
  assert (Hsnd : snd out
                 = snd (EnhancedSummarizer.get_transcript_with_fallback w video_id)
                   ++ [EvPost rq]).
  { unfold out, EnhancedSummarizer.process_video.
    rewrite Hid, Htruthy. cbn [negb]. rewrite tbind_snd, Hres, Hcontent. cbn [negb].
    rewrite tbind_snd. cbn [tret snd]. rewrite app_nil_r. f_equal.
    unfold EnhancedSummarizer.summarize_content. rewrite Hcontent. reflexivity. }
  split; [exact Hsnd|]. split.
  - rewrite Hsnd, posted_app, (no_post_posted _ (enhanced_resolver_no_post w video_id)).
    reflexivity.
  - unfold out, EnhancedSummarizer.process_video.
    rewrite Hid, Htruthy. cbn [negb]. rewrite tbind_fst, Hres, Hcontent. cbn [negb].
    rewrite tbind_fst. eexists. split; [reflexivity|]. repeat split.
Qed.

Lemma process_video_posts_once_witness :
  let w := captionless (repeat 99 150) in
  let v := video "vid" "A talk" "ch" in
  length (posted (snd (EnhancedSummarizer.process_video sample_str_exc (u "key") (u "m") w v)))
  = 1%nat.
Proof.
  intros w v.
  destruct (process_video_posts_once sample_str_exc (u "key") (u "m") w v (u "vid")
              (repeat 99 150) (u "description")) as (_ & Hposted & _).
  - reflexivity.
  - vm_compute. discriminate.
  - vm_compute. reflexivity.
  - rewrite Hposted. reflexivity.
Defined.

(** ** What reaches the endpoint *)

(** Only the first 8000 characters of the content (10000 in the hybrid
    client) reach the endpoint: two contents that agree on them give the
    same request and the same result. *)
Theorem content_is_truncated_before_sending (str_exc : exc -> pystr)
    (api_key model_name : pystr) (w : World)
    (c1 c2 title channel_name content_type : pystr) :
  c1 <> [] -> c2 <> [] ->
  (take 8000%nat c1 = take 8000%nat c2 ->
   EnhancedSummarizer.summarize_content str_exc api_key model_name w
     c1 title channel_name content_type
   = EnhancedSummarizer.summarize_content str_exc api_key model_name w
       c2 title channel_name content_type)
  /\ (take 10000%nat c1 = take 10000%nat c2 ->
      HybridSummarizer.summarize_content str_exc api_key model_name w
        c1 title channel_name content_type
      = HybridSummarizer.summarize_content str_exc api_key model_name w
          c2 title channel_name content_type).
Proof.
  intros H1 H2.
  assert (T1 : truthy c1 = true) by (destruct c1; [congruence|reflexivity]).
  assert (T2 : truthy c2 = true) by (destruct c2; [congruence|reflexivity]).
  split; intros Htake.
  - unfold EnhancedSummarizer.summarize_content. rewrite T1, T2. cbn [negb].
    assert (Hp : EnhancedSummarizer.create_enhanced_prompt c1 title channel_name content_type
                 = EnhancedSummarizer.create_enhanced_prompt c2 title channel_name content_type).
    { unfold EnhancedSummarizer.create_enhanced_prompt, slice_to. rewrite Htake. reflexivity. }
    rewrite Hp. reflexivity.
  - unfold HybridSummarizer.summarize_content. rewrite T1, T2. cbn [negb].
    assert (Hp : HybridSummarizer.create_smart_prompt c1 title channel_name content_type
                 = HybridSummarizer.create_smart_prompt c2 title channel_name content_type).
    { unfold HybridSummarizer.create_smart_prompt, slice_to. rewrite Htake. reflexivity. }
    rewrite Hp. reflexivity.
Qed.

Lemma content_is_truncated_before_sending_witness :
  EnhancedSummarizer.summarize_content sample_str_exc (u "key") (u "m") rate_limited
    (repeat 97%N 8000 ++ u "tail one") (u "T") (u "ch") (u "transcript")
  = EnhancedSummarizer.summarize_content sample_str_exc (u "key") (u "m") rate_limited
      (repeat 97%N 8000 ++ u "another tail") (u "T") (u "ch") (u "transcript").
Proof.
  refine (proj1 (content_is_truncated_before_sending sample_str_exc (u "key") (u "m")
                   rate_limited (repeat 97%N 8000 ++ u "tail one")
                   (repeat 97%N 8000 ++ u "another tail")
                   (u "T") (u "ch") (u "transcript") _ _) _).
  - vm_compute. discriminate.
  - vm_compute. discriminate.
  - vm_compute. reflexivity.
Defined.

(** ** The order of the transcript requests *)

Lemma tbind_emit {A B} (e : event) (a : A) (k : A -> T B) :
  tbind (emit e a) k = (fst (k a), e :: snd (k a)).
Proof. unfold tbind, emit. destruct (k a). reflexivity. Qed.

(** The language loop stops at the first usable language, or goes
    through the whole list. *)
Lemma try_languages_exact w accept tag video_id langs :
  (exists pre lang post text,
      langs = pre ++ lang :: post
      /\ Forall (language_unusable w accept video_id) pre
      /\ usable accept (get_transcript w video_id lang) = Some text
      /\ try_languages w accept tag video_id langs
         = (Some (text, tag lang), map (EvGetTranscript video_id) (pre ++ [lang])))
  \/ (Forall (language_unusable w accept video_id) langs
      /\ try_languages w accept tag video_id langs
         = (None, map (EvGetTranscript video_id) langs)).
Proof.
  induction langs as [|lang rest IH].
  - right. split; [constructor|reflexivity].
  - cbn [try_languages]. rewrite tbind_emit.
    assert (Hskip : language_unusable w accept video_id lang ->
              (exists pre lang' post text,
                  lang :: rest = pre ++ lang' :: post
                  /\ Forall (language_unusable w accept video_id) pre
                  /\ usable accept (get_transcript w video_id lang') = Some text
                  /\ (fst (try_languages w accept tag video_id rest),
                      EvGetTranscript video_id lang
                        :: snd (try_languages w accept tag video_id rest))
                     = (Some (text, tag lang'),
                        map (EvGetTranscript video_id) (pre ++ [lang'])))
              \/ (Forall (language_unusable w accept video_id) (lang :: rest)
                  /\ (fst (try_languages w accept tag video_id rest),
                      EvGetTranscript video_id lang
                        :: snd (try_languages w accept tag video_id rest))
                     = (None, map (EvGetTranscript video_id) (lang :: rest)))).
    { intros Hbad.
      destruct IH as [(pre & l & post & text & -> & Hpre & Hl & Ht)|[Hall Ht]]; rewrite Ht.
      - left. exists (lang :: pre), l, post, text.
        split; [reflexivity|]. split; [constructor; assumption|]. split; [exact Hl|].
        reflexivity.
      - right. split; [constructor; assumption|reflexivity]. }
    destruct (get_transcript w video_id lang) as [e|parts] eqn:Hg.
    + apply Hskip. unfold language_unusable. rewrite Hg. reflexivity.
    + destruct (accept (join (u " ") parts)) eqn:Ha.
      * left. exists [], lang, rest, (join (u " ") parts).
        split; [reflexivity|]. split; [constructor|]. split; [|reflexivity].
        rewrite Hg. unfold usable. rewrite Ha. reflexivity.
      * apply Hskip. unfold language_unusable, usable. rewrite Hg, Ha. reflexivity.
Qed.

Lemma fetch_first_after_listing accept g tag video_id listed :
  after_listing (snd (fetch_first accept g tag video_id listed)).
Proof.
  unfold after_listing.
  induction listed as [|t rest IH]; [constructor|].
  cbn [fetch_first]. destruct (bool_decide _); [|exact IH].
  rewrite tbind_emit. cbn [snd]. constructor; [exact I|].
  destruct (fetch t) as [e|parts]; [exact IH|].
  destruct (accept _); [constructor|exact IH].
Qed.

Lemma any_transcript_after_listing w accept tag_g tag_m video_id :
  exists later,
    snd (any_transcript w accept tag_g tag_m video_id) = EvListTranscripts video_id :: later
    /\ after_listing later.
Proof.
  unfold any_transcript. rewrite tbind_emit. cbn [snd].
  eexists. split; [reflexivity|].
  destruct (list_transcripts w video_id) as [e|listed]; [constructor|].
  rewrite tbind_snd. apply Forall_app. split; [apply fetch_first_after_listing|].
  destruct (fst (fetch_first _ _ _ _ _)); [constructor|apply fetch_first_after_listing].
Qed.

Lemma get_video_details_after_listing w video_id :
  after_listing (snd (get_video_details w video_id)).
Proof.
  unfold get_video_details, after_listing.
  destruct (youtube_service w); cbn [emit tret snd]; repeat constructor.
Qed.

(** Both resolvers go through their preference list in order and stop
    asking at the first language whose transcript is acceptable: the
    languages before it, and then that one, are the only calls made, and
    its transcript is returned under its tag.  Only when no language of
    the list has an acceptable transcript, and then always, do they list
    the transcripts of the video, right after the last language request;
    no language is asked for after the listing.  No language occurs twice
    in either list, so none is asked for twice. *)
Theorem languages_are_tried_in_order (w : World) (video_id : pystr) :
  tried_in_order w EnhancedSummarizer.accept (fun _ => u "transcript")
    EnhancedSummarizer.languages_to_try video_id
    (EnhancedSummarizer.get_transcript_with_fallback w video_id)
  /\ tried_in_order w HybridSummarizer.accept_lang (fun lang => u "transcript_" ++ lang)
       HybridSummarizer.languages_priority video_id
       (HybridSummarizer.get_content_with_fallbacks w video_id)
  /\ NoDup EnhancedSummarizer.languages_to_try
  /\ NoDup HybridSummarizer.languages_priority.
Proof.
  split; [|split; [|split]].
  - unfold tried_in_order, EnhancedSummarizer.get_transcript_with_fallback.
    destruct (try_languages_exact w EnhancedSummarizer.accept (fun _ => u "transcript")
                video_id EnhancedSummarizer.languages_to_try)
      as [(pre & lang & post & text & Hsplit & Hpre & Hlang & Hrun)|[Hall Hrun]];
      rewrite Hrun.
    + left. exists pre, lang, post, text.
      split; [exact Hsplit|]. split; [exact Hpre|]. split; [exact Hlang|].
      cbn [tbind tret]. rewrite app_nil_r. reflexivity.
    + right. split; [exact Hall|].
      destruct (any_transcript_after_listing w EnhancedSummarizer.accept
                  (u "auto_transcript") (u "manual_transcript") video_id)
        as (later & Hlater & Hafter).
      rewrite tbind_snd. cbn [fst snd].
      rewrite tbind_snd, Hlater.
      eexists. split; [rewrite <- app_comm_cons; reflexivity|].
      apply Forall_app. split; [exact Hafter|].
      destruct (fst (any_transcript _ _ _ _ _)); [constructor|].
      rewrite tbind_snd. apply Forall_app.
      split; [apply get_video_details_after_listing|].
      destruct (fst (get_video_details w video_id)) as [d|]; [|constructor].
      destruct (truthy _ && _); constructor.
  - unfold tried_in_order, HybridSummarizer.get_content_with_fallbacks,
      HybridSummarizer.get_transcript_smart.
    destruct (try_languages_exact w HybridSummarizer.accept_lang
                (fun lang => u "transcript_" ++ lang)
                video_id HybridSummarizer.languages_priority)
      as [(pre & lang & post & text & Hsplit & Hpre & Hlang & Hrun)|[Hall Hrun]];
      rewrite Hrun.
    + left. exists pre, lang, post, text.
      split; [exact Hsplit|]. split; [exact Hpre|]. split; [exact Hlang|].
      apply usable_accepted in Hlang.
      apply andb_true_iff in Hlang. destruct Hlang as [Htruthy _].
      cbn [tbind tret]. rewrite Htruthy. cbn [tret]. rewrite !app_nil_r. reflexivity.
    + right. split; [exact Hall|].
      destruct (any_transcript_after_listing w HybridSummarizer.accept_listed
                  (u "auto_generated") (u "manual") video_id)
        as (later & Hlater & Hafter).
      rewrite tbind_snd, tbind_snd. cbn [fst snd]. rewrite Hlater.
      eexists. split; [rewrite <- app_assoc, <- app_comm_cons; reflexivity|].
      apply Forall_app. split; [exact Hafter|].
      assert (Hfb : after_listing (snd (HybridSummarizer.description_fallback w video_id))).
      { unfold HybridSummarizer.description_fallback. rewrite tbind_snd.
        apply Forall_app. split; [apply get_video_details_after_listing|].
        destruct (fst (get_video_details w video_id)) as [d|]; [|constructor].
        destruct (truthy _ && _); constructor. }
      rewrite tbind_fst. cbn [fst].
      destruct (fst (any_transcript _ _ _ _ _)) as [[content ct]|]; [|exact Hfb].
      destruct (truthy content); [constructor|exact Hfb].
  - apply (bool_decide_unpack _). vm_compute. reflexivity.
  - apply (bool_decide_unpack _). vm_compute. reflexivity.
Qed.

(** The British English transcript is the third of both lists: three
    languages are asked for, and nothing else. *)
Example third_language_is_taken :
  snd (EnhancedSummarizer.get_transcript_with_fallback british_captions (u "vid"))
  = [EvGetTranscript (u "vid") (u "en"); EvGetTranscript (u "vid") (u "en-US");
     EvGetTranscript (u "vid") (u "en-GB")]
  /\ snd <$> fst (EnhancedSummarizer.get_transcript_with_fallback british_captions (u "vid"))
     = Some (u "transcript")
  /\ snd (HybridSummarizer.get_content_with_fallbacks british_captions (u "vid"))
     = [EvGetTranscript (u "vid") (u "en"); EvGetTranscript (u "vid") (u "en-US");
        EvGetTranscript (u "vid") (u "en-GB")]
  /\ snd <$> fst (HybridSummarizer.get_content_with_fallbacks british_captions (u "vid"))
     = Some (u "transcript_en-GB").
Proof. repeat split; vm_compute; reflexivity. Qed.

(** ** The paragraphs of the report *)

Lemma endswith_app (t p : pystr) : endswith t (p ++ t) = true.
Proof. unfold endswith. rewrite rev_app_distr. apply startswith_app. Qed.

Lemma paragraphs_in_concat st
    (g : nat -> FixedPDFGenerator.Entry -> list FixedPDFGenerator.flowable)
    (h : FixedPDFGenerator.Entry -> list pystr) (l : list FixedPDFGenerator.Entry) :
  (forall i s, paragraphs_in st (g i s) = h s) ->
  paragraphs_in st (concat (imap g l)) = flat_map h l.
Proof.
  revert g. induction l as [|s l IH]; intros g Hg; [reflexivity|].
  rewrite imap_cons. cbn [concat flat_map].
  rewrite paragraphs_in_app, Hg.
  rewrite (IH (g ∘ S)) by (intros i s'; apply Hg). reflexivity.
Qed.

Lemma body_of_section_at lower n i (s : FixedPDFGenerator.Entry) :
  body_of (FixedPDFGenerator.section_at lower n i s)
  = body_of (FixedPDFGenerator.section_of lower s).
Proof.
  unfold body_of, FixedPDFGenerator.section_at. rewrite paragraphs_in_app.
  destruct (i <? n)%nat; cbn [paragraphs_in]; apply app_nil_r.
Qed.

Lemma body_paragraphs_are_sentences (content : pystr) :
  Forall (fun para => para <> []
                      /\ existsb (fun t => endswith t para) FixedPDFGenerator.terminators = true)
         (FixedPDFGenerator.body_paragraphs content).
Proof.
  unfold FixedPDFGenerator.body_paragraphs.
  apply List.Forall_flat_map, Forall_forall. intros para _.
  destruct (truthy (strip para)) eqn:Hp; [|constructor].
  constructor; [|constructor].
  destruct (existsb _ _) eqn:He; cbn [negb].
  - split; [|exact He]. destruct (strip para); [discriminate|discriminate].
  - split; [destruct (strip para); discriminate|].
    unfold FixedPDFGenerator.terminators. cbn [existsb].
    rewrite endswith_app. reflexivity.
Qed.

(** Every paragraph of summary text in the report is a non-empty
    sentence: it ends with one of 。 ！ ？ . ! ? (a 。 is appended to a
    paragraph that does not), whatever the bodies of the results are. *)
Theorem body_paragraphs_end_with_a_terminator (lower : pystr -> pystr)
    (lib : FixedPDFGenerator.Lib) (summaries : list FixedPDFGenerator.Entry) :
  Forall (fun para => para <> []
                      /\ existsb (fun t => endswith t para) FixedPDFGenerator.terminators = true)
         (body_of (FixedPDFGenerator.build_story lower lib summaries)).
Proof.
  unfold FixedPDFGenerator.build_story.
  change (body_of (?p :: ?rest)) with (body_of rest).
  unfold body_of.
  rewrite (paragraphs_in_concat _ _
             (fun s => body_of (FixedPDFGenerator.section_of lower s)))
    by (intros i s; apply body_of_section_at).
  apply List.Forall_flat_map, Forall_forall. intros s _.
  rewrite body_of_section.
  assert (Hplace : Forall (fun para => para <> []
                      /\ existsb (fun t => endswith t para)
                           FixedPDFGenerator.terminators = true)
                     [FixedPDFGenerator.placeholder]).
  { constructor; [|constructor]. split; vm_compute; [discriminate|reflexivity]. }
  destruct (default _ (FixedPDFGenerator.e_summary s)) as [text|]; [|exact Hplace].
  destruct (truthy text && _); [apply body_paragraphs_are_sentences|exact Hplace].
Qed.

Lemma count_spacers_app a b : count_spacers (a ++ b) = (count_spacers a + count_spacers b)%nat.
Proof. unfold count_spacers. rewrite List.filter_app, length_app. reflexivity. Qed.

Lemma count_spacers_section lower (s : FixedPDFGenerator.Entry) :
  count_spacers (FixedPDFGenerator.section_of lower s) = 0%nat.
Proof.
  unfold FixedPDFGenerator.section_of. rewrite !count_spacers_app.
  assert (H1 : count_spacers
                 (if truthy (default (u "") (FixedPDFGenerator.e_url s))
                  then [FixedPDFGenerator.Paragraph
                          (FixedPDFGenerator.link_text (default (u "") (FixedPDFGenerator.e_url s)))
                          FixedPDFGenerator.link_style]
                  else []) = 0%nat).
  { destruct (truthy _); reflexivity. }
  rewrite H1.
  assert (H2 : forall texts : list pystr,
             count_spacers (map (fun para => FixedPDFGenerator.Paragraph para
                                               FixedPDFGenerator.summary_style) texts) = 0%nat).
  { induction texts as [|t texts IH]; [reflexivity|exact IH]. }
  destruct (default _ (FixedPDFGenerator.e_summary s)) as [text|]; [|reflexivity].
  destruct (truthy text && _); [rewrite H2|]; reflexivity.
Qed.

Lemma count_spacers_sections lower (l : list FixedPDFGenerator.Entry) (k : nat) :
  count_spacers
    (concat (imap (fun i s => FixedPDFGenerator.section_at lower (k + length l) (S (k + i)) s) l))
  = pred (length l).
Proof.
  revert k. induction l as [|s l IH]; intros k; [reflexivity|].
  rewrite imap_cons. cbn [concat length]. rewrite count_spacers_app.
  unfold FixedPDFGenerator.section_at at 1.
  rewrite count_spacers_app, count_spacers_section.
  assert (Hrest : count_spacers
                    (concat (imap ((fun i s0 => FixedPDFGenerator.section_at lower (k + S (length l))
                                                  (S (k + i)) s0) ∘ S) l))
                  = pred (length l)).
  { rewrite <- (IH (S k)). f_equal. f_equal. apply imap_ext. intros i s' _.
    unfold compose. f_equal; lia. }
  rewrite Hrest. rewrite Nat.add_0_r.
  destruct l as [|s' l].
  - cbn [length]. replace (S k <? k + 1)%nat with false; [reflexivity|].
    symmetry. apply Nat.ltb_ge. lia.
  - cbn [length]. replace (S k <? k + S (S (length l)))%nat with true; [reflexivity|].
    symmetry. apply Nat.ltb_lt. lia.
Qed.

(** Sections are separated, not followed, by a spacer: a report on N
    results has N-1 spacers, and a report on no result is its header
    alone. *)
Theorem spacers_separate_sections (lower : pystr -> pystr)
    (lib : FixedPDFGenerator.Lib) (summaries : list FixedPDFGenerator.Entry) :
  count_spacers (FixedPDFGenerator.build_story lower lib summaries) = pred (length summaries)
  /\ (summaries = [] ->
      FixedPDFGenerator.build_story lower lib summaries
      = [FixedPDFGenerator.Paragraph (FixedPDFGenerator.header_text lib 0)
           FixedPDFGenerator.header_style])
  /\ (forall rest s, summaries = rest ++ [s] ->
      exists front, FixedPDFGenerator.build_story lower lib summaries
                    = front ++ FixedPDFGenerator.section_of lower s).
Proof.
  split; [|split].
  - unfold FixedPDFGenerator.build_story.
    change (count_spacers (?p :: ?rest)) with (count_spacers rest).
    apply (count_spacers_sections lower summaries 0).
  - intros ->. reflexivity.
  - intros rest s ->. unfold FixedPDFGenerator.build_story.
    rewrite imap_app, concat_app. cbn [imap concat].
    unfold FixedPDFGenerator.section_at at 2.
    rewrite length_app. cbn [length].
    replace (S (length rest + 0) <? length rest + 1)%nat with false
      by (symmetry; apply Nat.ltb_ge; lia).
    rewrite !app_nil_r. eexists (_ :: _). reflexivity.
Qed.

Lemma spacers_separate_sections_witness :
  let abc := [entry "A" "第一段。"; entry "B" "  "; entry "C" "第三段。"] in
  exists front, FixedPDFGenerator.build_story lower_ascii sample_lib abc
                = front ++ FixedPDFGenerator.section_of lower_ascii (entry "C" "第三段。").
Proof.
  intros abc.
  apply (proj2 (proj2 (spacers_separate_sections lower_ascii sample_lib abc))
           [entry "A" "第一段。"; entry "B" "  "]).
  reflexivity.
Defined.

(** Each section names its channel, "未知频道" when the element has
    none, and carries a link paragraph exactly when the element has a
    non-empty url; both come in the order of the list. *)
Theorem sections_show_channel_and_link (lower : pystr -> pystr)
    (lib : FixedPDFGenerator.Lib) (summaries : list FixedPDFGenerator.Entry) :
  paragraphs_in FixedPDFGenerator.meta_style (FixedPDFGenerator.build_story lower lib summaries)
  = map (fun s => u "频道：" ++ default (u "未知频道") (FixedPDFGenerator.e_channel s)) summaries
  /\ paragraphs_in FixedPDFGenerator.link_style
       (FixedPDFGenerator.build_story lower lib summaries)
     = flat_map link_of summaries.
Proof.
  assert (Hbody : forall st (s : FixedPDFGenerator.Entry),
             FixedPDFGenerator.style_eqb FixedPDFGenerator.summary_style st = false ->
             paragraphs_in st
               match default (Some (u "无内容")) (FixedPDFGenerator.e_summary s) with
               | Some text =>
                   if truthy text && (0 <? len (strip text))%nat
                   then map (fun para => FixedPDFGenerator.Paragraph para
                                           FixedPDFGenerator.summary_style)
                            (FixedPDFGenerator.body_paragraphs text)
                   else [FixedPDFGenerator.Paragraph FixedPDFGenerator.placeholder
                           FixedPDFGenerator.summary_style]
               | None => [FixedPDFGenerator.Paragraph FixedPDFGenerator.placeholder
                            FixedPDFGenerator.summary_style]
               end = []).
  { intros st s Hst.
    destruct (default _ (FixedPDFGenerator.e_summary s)) as [text|];
      [destruct (truthy text && _)|]; try (cbn [paragraphs_in]; rewrite Hst; reflexivity).
    apply paragraphs_in_other, Hst. }
  unfold FixedPDFGenerator.build_story. split.
  - change (paragraphs_in FixedPDFGenerator.meta_style (?p :: ?rest))
      with (paragraphs_in FixedPDFGenerator.meta_style rest).
    rewrite (paragraphs_in_concat _ _
               (fun s => [u "频道：" ++ default (u "未知频道") (FixedPDFGenerator.e_channel s)])).
    + induction summaries as [|s l IH]; [reflexivity|].
      cbn [flat_map map app]. rewrite IH. reflexivity.
    + intros i s. unfold FixedPDFGenerator.section_at, FixedPDFGenerator.section_of.
      rewrite !paragraphs_in_app. cbn [paragraphs_in FixedPDFGenerator.style_eqb app].
      rewrite Hbody by reflexivity.
      destruct (truthy _); destruct (_ <? _)%nat; reflexivity.
  - change (paragraphs_in FixedPDFGenerator.link_style (?p :: ?rest))
      with (paragraphs_in FixedPDFGenerator.link_style rest).
    apply paragraphs_in_concat.
    intros i s. unfold FixedPDFGenerator.section_at, FixedPDFGenerator.section_of, link_of.
    rewrite !paragraphs_in_app. cbn [paragraphs_in FixedPDFGenerator.style_eqb app].
    rewrite Hbody by reflexivity.
    destruct (truthy _); destruct (_ <? _)%nat; reflexivity.
Qed.

(** ** The range of the title translations *)

Lemma first_item_in {A} (test : pystr -> bool) (table : list (pystr * A)) (v : A) :
  FixedSummarizer.first_item test table = Some v ->
  exists k, (k, v) ∈ table /\ test k = true.
Proof.
  induction table as [|[k v'] table IH]; simpl; [discriminate|].
  destruct (test k) eqn:Hk.
  - intros [= <-]. exists k. split; [apply list_elem_of_here|exact Hk].
  - intros H. destruct (IH H) as (k' & Hin & Hk').
    exists k'. split; [apply list_elem_of_further, Hin|exact Hk'].
Qed.

Lemma exact_in title (table : list (pystr * pystr)) zh :
  FixedPDFGenerator.exact title table = Some zh -> (title, zh) ∈ table.
Proof.
  induction table as [|[en zh'] table IH]; simpl; [discriminate|].
  unfold str_eqb. case_bool_decide as Heq.
  - intros [= <-]. subst en. apply list_elem_of_here.
  - intros H. apply list_elem_of_further, IH, H.
Qed.

Lemma first_partial_in lower title (table : list (pystr * pystr)) zh :
  FixedPDFGenerator.first_partial lower title table = Some zh ->
  exists en, (en, zh) ∈ table /\ FixedPDFGenerator.partial_match lower title en = true.
Proof.
  induction table as [|[en zh'] table IH]; simpl; [discriminate|].
  destruct (FixedPDFGenerator.partial_match lower title en) eqn:Hm.
  - intros [= <-]. exists en. split; [apply list_elem_of_here|exact Hm].
  - intros H. destruct (IH H) as (en' & Hin & Hm').
    exists en'. split; [apply list_elem_of_further, Hin|exact Hm'].
Qed.

(** A translated title is never made up: both [translate_title]
    functions return the title itself or the translation of an entry of
    their table, and in the latter case the entry was matched: its key is
    the title, or its lower-cased key (for the PDF generator also one of
    its first two words) occurs in the lower-cased title. *)
Theorem translations_come_from_the_table (lower : pystr -> pystr) (title : pystr) :
  (FixedSummarizer.translate_title lower title = title
   \/ exists en, (en, FixedSummarizer.translate_title lower title)
                   ∈ FixedSummarizer.translations
                 /\ contains (lower en) (lower title) = true)
  /\ (FixedPDFGenerator.translate_title lower title = title
      \/ exists en, (en, FixedPDFGenerator.translate_title lower title)
                      ∈ FixedPDFGenerator.translations
                    /\ (en = title
                        \/ FixedPDFGenerator.partial_match lower title en = true)).
Proof.
  split.
  - unfold FixedSummarizer.translate_title.
    destruct (FixedSummarizer.first_item _ _) as [zh|] eqn:E; [|left; reflexivity].
    right. apply first_item_in in E. exact E.
  - unfold FixedPDFGenerator.translate_title.
    destruct (FixedPDFGenerator.exact _ _) as [zh|] eqn:E.
    { right. exists title. split; [apply exact_in, E|left; reflexivity]. }
    destruct (FixedPDFGenerator.first_partial _ _ _) as [zh|] eqn:E2; [|left; reflexivity].
    right. apply first_partial_in in E2. destruct E2 as (en & Hin & Hm).
    exists en. split; [exact Hin|right; exact Hm].
Qed.

(** ** The message and the SMTP session *)

(** When [pdf_path] names an existing file that can be read, the
    message has two parts, the text and then the file's bytes under the
    header "attachment; filename= " followed by the file's base name;
    when reading the file raises, [send_report] raises with it and the
    SMTP session is not started. *)
Theorem existing_report_is_attached (username : pystr) (h : EmailSender.Host)
    (smtp : EmailSender.Smtp) (to_email path : pystr) (subject : option pystr) :
  path <> [] ->
  EmailSender.exists_ h path = true ->
  (forall payload, EmailSender.read_file h path = inr payload ->
     exists msg,
       EmailSender.build_message username h to_email (Some path) subject = inr msg
       /\ EmailSender.m_parts msg
          = [EmailSender.TextPart (EmailSender.body h);
             EmailSender.Attachment (u "attachment; filename= " ++ EmailSender.basename h path)
               payload]
       /\ exists b, fst (EmailSender.send_report username h smtp to_email (Some path) subject)
                    = EmailSender.Returns b)
  /\ (forall e, EmailSender.read_file h path = inl e ->
        EmailSender.send_report username h smtp to_email (Some path) subject
        = (EmailSender.Propagates e, None)).
Proof.
  intros Hne Hex.
  assert (Ht : truthy path = true) by (destruct path; [congruence|reflexivity]).
  split.
  - intros payload Hread. unfold EmailSender.send_report, EmailSender.build_message.
    rewrite Ht, Hex, Hread. cbn [andb bind ret]. eexists. split; [reflexivity|].
    split; [reflexivity|].
    destruct (EmailSender.session username smtp to_email _); eexists; reflexivity.
  - intros e Hread. unfold EmailSender.send_report, EmailSender.build_message.
    rewrite Ht, Hex, Hread. reflexivity.
Qed.

Lemma existing_report_is_attached_witness :
  exists msg,
    EmailSender.build_message (u "me@example.com") (host_with_report [37; 80; 68; 70])
      (u "you@example.com") (Some (u "reports/summary.pdf")) None = inr msg
    /\ EmailSender.m_parts msg
       = [EmailSender.TextPart (EmailSender.body (host_with_report [37; 80; 68; 70]));
          EmailSender.Attachment (u "attachment; filename= " ++ u "summary.pdf")
            [37; 80; 68; 70]].
Proof.
  destruct (proj1 (existing_report_is_attached (u "me@example.com")
                     (host_with_report [37; 80; 68; 70]) working_smtp
                     (u "you@example.com") (u "reports/summary.pdf") None
                     ltac:(vm_compute; discriminate) ltac:(vm_compute; reflexivity))
              [37; 80; 68; 70] eq_refl) as (msg & Hmsg & Hparts & _).
  exists msg. split; [exact Hmsg|exact Hparts].
Defined.

(** A message reaches [sendmail] only after [connect], [starttls],
    [login] and the flattening of the message have all returned;
    [send_report] returns [True] only if the message was handed to
    [sendmail] and every call of the session returned.  The converse
    fails: when [quit] raises after the message was accepted,
    [send_report] returns [False] although the message was handed over.
    When the flattening of the message raises, [send_report] returns
    [False] and nothing was handed over, although the server accepted the
    login. *)
Theorem nothing_is_sent_before_login (username : pystr) (h : EmailSender.Host)
    (smtp : EmailSender.Smtp) (to_email : pystr) (pdf_path subject : option pystr) :
  (forall msg,
     snd (EmailSender.send_report username h smtp to_email pdf_path subject) = Some msg ->
     EmailSender.build_message username h to_email pdf_path subject = inr msg
     /\ EmailSender.connect smtp = None
     /\ EmailSender.starttls smtp = None
     /\ EmailSender.login smtp = None
     /\ exists text, EmailSender.as_string smtp msg = inr text)
  /\ (fst (EmailSender.send_report username h smtp to_email pdf_path subject)
      = EmailSender.Returns true ->
      exists msg,
        snd (EmailSender.send_report username h smtp to_email pdf_path subject) = Some msg
        /\ smtp_ok smtp msg)
  /\ (forall msg text e,
        EmailSender.build_message username h to_email pdf_path subject = inr msg ->
        EmailSender.connect smtp = None ->
        EmailSender.starttls smtp = None ->
        EmailSender.login smtp = None ->
        EmailSender.as_string smtp msg = inr text ->
        EmailSender.sendmail smtp username to_email text = None ->
        EmailSender.quit smtp = Some e ->
        EmailSender.send_report username h smtp to_email pdf_path subject
        = (EmailSender.Returns false, Some msg))
  /\ (forall msg e,
        EmailSender.build_message username h to_email pdf_path subject = inr msg ->
        EmailSender.as_string smtp msg = inl e ->
        EmailSender.send_report username h smtp to_email pdf_path subject
        = (EmailSender.Returns false, None)).
Proof.
  split; [|split; [|split]].
  - intros msg. unfold EmailSender.send_report.
    destruct (EmailSender.build_message username h to_email pdf_path subject)
      as [e|msg']; [discriminate|].
    assert (Hh : EmailSender.handed_over smtp msg' = Some msg ->
                 inr msg' = (inr msg : M EmailSender.message)
                 /\ EmailSender.connect smtp = None
                 /\ EmailSender.starttls smtp = None
                 /\ EmailSender.login smtp = None
                 /\ exists text, EmailSender.as_string smtp msg = inr text).
    { intros H. apply handed_over_opened in H.
      destruct H as (-> & H1 & H2 & H3 & H4). repeat split; assumption. }
    destruct (EmailSender.session username smtp to_email msg'); exact Hh.
  - unfold EmailSender.send_report.
    destruct (EmailSender.build_message username h to_email pdf_path subject)
      as [e|msg] eqn:Hmsg; [discriminate|].
    destruct (build_message_addresses _ _ _ _ _ _ Hmsg) as (Hfrom & Hto).
    destruct (EmailSender.session username smtp to_email msg) as [e|[]] eqn:Hs;
      [discriminate|].
    intros _. apply (session_ok_iff _ _ _ _ Hfrom Hto) in Hs.
    exists msg. split; [|exact Hs].
    cbn [snd]. apply handed_over_ok, Hs.
  - intros msg text e Hmsg H1 H2 H3 H4 H5 H6. unfold EmailSender.send_report.
    rewrite Hmsg. unfold EmailSender.session, EmailSender.handed_over.
    rewrite H1, H2, H3, H4, H5, H6. reflexivity.
  - intros msg e Hmsg H4. unfold EmailSender.send_report.
    rewrite Hmsg. unfold EmailSender.session, EmailSender.handed_over.
    rewrite H4.
    destruct (EmailSender.connect smtp), (EmailSender.starttls smtp),
      (EmailSender.login smtp); reflexivity.
Qed.

Lemma nothing_is_sent_before_login_witness :
  EmailSender.send_report (u "me@example.com") sample_host smtp_failing_at_quit
    (u "you@example.com") None None
  = (EmailSender.Returns false,
     Some {| EmailSender.m_from := u "me@example.com";
             EmailSender.m_to := u "you@example.com";
             EmailSender.m_subject := EmailSender.default_subject sample_host;
             EmailSender.m_parts := [EmailSender.TextPart (EmailSender.body sample_host)] |})
  /\ EmailSender.send_report (u "me@example.com") sample_host working_smtp
       (u "you@example.com") None (Some (u "Daily" ++ nl ++ u "Bcc: all@example.com"))
     = (EmailSender.Returns false, None)
  /\ snd (EmailSender.send_report (u "me@example.com") sample_host refusing_smtp
            (u "you@example.com") None None) = None.
Proof.
  destruct (nothing_is_sent_before_login (u "me@example.com") sample_host smtp_failing_at_quit
              (u "you@example.com") None None) as (_ & _ & Hquit & _).
  destruct (nothing_is_sent_before_login (u "me@example.com") sample_host working_smtp
              (u "you@example.com") None
              (Some (u "Daily" ++ nl ++ u "Bcc: all@example.com"))) as (_ & _ & _ & Hflat).
  destruct (nothing_is_sent_before_login (u "me@example.com") sample_host refusing_smtp
              (u "you@example.com") None None) as (Hhanded & _ & _).
  split; [|split].
  - eapply Hquit; reflexivity.
  - eapply Hflat; reflexivity.
  - destruct (snd (EmailSender.send_report (u "me@example.com") sample_host refusing_smtp
                     (u "you@example.com") None None)) as [msg|] eqn:E; [|reflexivity].
    destruct (Hhanded msg eq_refl) as (_ & _ & _ & Hlogin & _). discriminate Hlogin.
Defined.

(** ** Video identifiers in urls *)

Lemma span_run (p : N -> bool) (run rest : pystr) :
  Forall (fun c => p c = true) run ->
  rest = [] \/ (exists c rest', rest = c :: rest' /\ p c = false) ->
  VideoUrl.span p (run ++ rest) = run.
Proof.
  intros Hrun Hrest. induction Hrun as [|c run Hc _ IH]; cbn [app VideoUrl.span].
  - destruct Hrest as [-> |(c & rest' & -> & Hc)]; [reflexivity|].
    cbn [VideoUrl.span]. rewrite Hc. reflexivity.
  - rewrite Hc, IH. reflexivity.
Qed.

Lemma literal_then_group_run (lit run rest : pystr) :
  run <> [] ->
  Forall (fun c => VideoUrl.id_char c = true) run ->
  rest = [] \/ (exists c rest', rest = c :: rest' /\ VideoUrl.id_char c = false) ->
  VideoUrl.literal_then_group lit (lit ++ run ++ rest) = Some run.
Proof.
  intros Hne Hrun Hrest. unfold VideoUrl.literal_then_group, VideoUrl.group.
  rewrite startswith_app, drop_app_length, (span_run _ run rest Hrun Hrest).
  destruct run; [congruence|reflexivity].
Qed.

Lemma search_here (m : pystr -> option pystr) (s g : pystr) :
  m s = Some g -> VideoUrl.search m s = Some g.
Proof. intros H. destruct s; simpl; rewrite H; reflexivity. Qed.

Lemma search_skip (m : pystr -> option pystr) (pre s : pystr) :
  (forall k, (k < length pre)%nat -> m (drop k pre ++ s) = None) ->
  VideoUrl.search m (pre ++ s) = VideoUrl.search m s.
Proof.
  induction pre as [|c pre IH]; intros H; [reflexivity|].
  cbn [app VideoUrl.search].
  pose proof (H 0%nat ltac:(cbn [length]; lia)) as H0. cbn [drop app] in H0.
  rewrite H0.
  apply IH. intros k Hk. apply (H (S k)). cbn [length]. lia.
Qed.

(** The identifier put into a watch url, or into a short youtu.be url,
    is read back from it by [extract_video_id], also when parameters or a
    fragment follow it: for every non-empty identifier without [&], [?],
    [#] and line feed. *)
Theorem extract_video_id_reads_back (video_id rest : pystr) :
  video_id <> [] ->
  Forall (fun c => VideoUrl.id_char c = true) video_id ->
  rest = [] \/ (exists c rest', rest = c :: rest' /\ VideoUrl.id_char c = false) ->
  VideoUrl.extract_video_id (watch_url video_id ++ rest) = Some video_id
  /\ VideoUrl.extract_video_id (u "https://youtu.be/" ++ video_id ++ rest) = Some video_id.
Proof.
  intros Hne Hid Hrest. split.
  - unfold VideoUrl.extract_video_id, watch_url. rewrite <- app_assoc.
    change (u "https://www.youtube.com/watch?v=")
      with (u "https://www." ++ u "youtube.com/watch?v=").
    rewrite <- app_assoc.
    rewrite search_skip.
    + rewrite (search_here _ _ video_id); [reflexivity|].
      unfold VideoUrl.pattern1. cbn [VideoUrl.alternatives_then_group].
      rewrite literal_then_group_run by assumption. reflexivity.
    + intros k Hk.
      do 12 (destruct k as [|k]; [vm_compute; reflexivity|]).
      exfalso. vm_compute in Hk. lia.
  - unfold VideoUrl.extract_video_id.
    change (u "https://youtu.be/") with (u "https://" ++ u "youtu.be/").
    rewrite <- app_assoc.
    rewrite search_skip.
    + rewrite (search_here _ _ video_id); [reflexivity|].
      unfold VideoUrl.pattern1. cbn [VideoUrl.alternatives_then_group].
      assert (H1 : VideoUrl.literal_then_group (u "youtube.com/watch?v=")
                     (u "youtu.be/" ++ video_id ++ rest) = None) by (vm_compute; reflexivity).
      rewrite H1, literal_then_group_run by assumption. reflexivity.
    + intros k Hk.
      do 8 (destruct k as [|k]; [vm_compute; reflexivity|]).
      exfalso. vm_compute in Hk. lia.
Qed.

Lemma extract_video_id_reads_back_witness :
  VideoUrl.extract_video_id (watch_url (u "dQw4w9WgXcQ") ++ u "&t=42s") = Some (u "dQw4w9WgXcQ").
Proof.
  refine (proj1 (extract_video_id_reads_back (u "dQw4w9WgXcQ") (u "&t=42s") _ _ _)).
  - vm_compute. discriminate.
  - vm_compute. repeat constructor.
  - right. exists 38, (u "t=42s"). split; [vm_compute; reflexivity|reflexivity].
Defined.

Lemma span_spec (p : N -> bool) (s : pystr) :
  Forall (fun c => p c = true) (VideoUrl.span p s)
  /\ startswith (VideoUrl.span p s) s = true.
Proof.
  induction s as [|c s [IH1 IH2]]; cbn [VideoUrl.span]; [split; [constructor|reflexivity]|].
  destruct (p c) eqn:Hc; [|split; [constructor|reflexivity]].
  split; [constructor; assumption|].
  cbn [startswith]. rewrite N.eqb_refl. exact IH2.
Qed.

Lemma contains_drop (g s : pystr) (n : nat) :
  contains g (drop n s) = true -> contains g s = true.
Proof.
  intros H. rewrite <- (take_drop n s). apply contains_later, H.
Qed.

Lemma group_spec (s g : pystr) :
  VideoUrl.group s = Some g ->
  g <> [] /\ Forall (fun c => VideoUrl.id_char c = true) g /\ contains g s = true.
Proof.
  unfold VideoUrl.group. destruct (span_spec VideoUrl.id_char s) as [H1 H2].
  destruct (VideoUrl.span VideoUrl.id_char s) as [|c run]; [discriminate|].
  intros [= <-]. split; [discriminate|]. split; [exact H1|apply contains_here, H2].
Qed.

Lemma literal_then_group_spec (lit s g : pystr) :
  VideoUrl.literal_then_group lit s = Some g ->
  g <> [] /\ Forall (fun c => VideoUrl.id_char c = true) g /\ contains g s = true.
Proof.
  unfold VideoUrl.literal_then_group. destruct (startswith lit s); [|discriminate].
  intros H. apply group_spec in H. destruct H as (H1 & H2 & H3).
  split; [exact H1|]. split; [exact H2|]. eapply contains_drop, H3.
Qed.

Lemma search_spec (m : pystr -> option pystr) (P : pystr -> Prop) (s g : pystr) :
  (forall s' g', m s' = Some g' -> P g' /\ contains g' s' = true) ->
  VideoUrl.search m s = Some g -> P g /\ contains g s = true.
Proof.
  intros Hm. induction s as [|c s IH]; cbn [VideoUrl.search].
  - destruct (m []) as [g'|] eqn:E; [|discriminate]. intros [= <-]. apply Hm, E.
  - destruct (m (c :: s)) as [g'|] eqn:E.
    + intros [= <-]. apply Hm, E.
    + intros H. destruct (IH H) as [HP Hc]. split; [exact HP|].
      apply (contains_later g [c] s Hc).
Qed.

Lemma greedy_then_v_spec (s g : pystr) :
  VideoUrl.greedy_then_v s = Some g ->
  g <> [] /\ Forall (fun c => VideoUrl.id_char c = true) g /\ contains g s = true.
Proof.
  induction s as [|c s IH]; cbn [VideoUrl.greedy_then_v].
  - apply literal_then_group_spec.
  - destruct (c =? 10); [apply literal_then_group_spec|].
    destruct (VideoUrl.greedy_then_v s) as [g'|]; [|apply literal_then_group_spec].
    intros [= ->]. destruct (IH eq_refl) as (H1 & H2 & H3).
    split; [exact H1|]. split; [exact H2|]. apply (contains_later g [c] s H3).
Qed.

(** What [extract_video_id] returns is a non-empty piece of the url
    that has no [&], [?], [#] or line feed in it. *)
Theorem extracted_id_is_a_clean_piece_of_the_url (url g : pystr) :
  VideoUrl.extract_video_id url = Some g ->
  g <> []
  /\ Forall (fun c => c <> 38 /\ c <> 10 /\ c <> 63 /\ c <> 35) g
  /\ contains g url = true.
Proof.
  intros H.
  assert (Hg : (g <> [] /\ Forall (fun c => VideoUrl.id_char c = true) g)
               /\ contains g url = true).
  { unfold VideoUrl.extract_video_id in H.
    destruct (VideoUrl.search VideoUrl.pattern1 url) as [g1|] eqn:E1.
    { injection H as <-. revert E1. apply (search_spec VideoUrl.pattern1 (fun g0 => g0 <> [] /\ Forall (fun c => VideoUrl.id_char c = true) g0)). intros s' g' Hm.
      unfold VideoUrl.pattern1 in Hm. cbn [VideoUrl.alternatives_then_group] in Hm.
      repeat (destruct (VideoUrl.literal_then_group _ s') as [g0|] eqn:E;
              [injection Hm as <-; apply literal_then_group_spec in E;
               destruct E as (? & ? & ?); auto|clear E]).
      discriminate. }
    destruct (VideoUrl.search VideoUrl.pattern2 url) as [g2|] eqn:E2.
    { injection H as <-. revert E2. apply (search_spec VideoUrl.pattern2 (fun g0 => g0 <> [] /\ Forall (fun c => VideoUrl.id_char c = true) g0)). intros s' g' Hm.
      apply literal_then_group_spec in Hm. destruct Hm as (? & ? & ?). auto. }
    revert H. apply (search_spec VideoUrl.pattern3 (fun g0 => g0 <> [] /\ Forall (fun c => VideoUrl.id_char c = true) g0)). intros s' g' Hm. unfold VideoUrl.pattern3 in Hm.
    destruct (startswith _ s'); [|discriminate].
    apply greedy_then_v_spec in Hm. destruct Hm as (? & ? & Hc).
    split; [auto|]. eapply contains_drop, Hc. }
  destruct Hg as [[Hne Hchars] Hsub].
  split; [exact Hne|]. split; [|exact Hsub].
  eapply Forall_impl; [exact Hchars|].
  intros c Hc. unfold VideoUrl.id_char in Hc.
  repeat (apply andb_true_iff in Hc; destruct Hc as [Hc ?]).
  repeat match goal with
         | H : negb (_ =? _) = true |- _ => apply negb_true_iff, N.eqb_neq in H
         end.
  auto.
Qed.

Lemma extracted_id_is_a_clean_piece_of_the_url_witness :
  contains (u "ID9") (u "https://www.youtube.com/watch?feature=share&v=ID9#t=1") = true.
Proof.
  refine (proj2 (proj2 (extracted_id_is_a_clean_piece_of_the_url
                          (u "https://www.youtube.com/watch?feature=share&v=ID9#t=1")
                          (u "ID9") _))).
  vm_compute. reflexivity.
Defined.

(** ** Authentication *)

(** Finds the write in a trace that is known call by call. *)
Ltac walk_to_write H pre :=
  destruct pre as [|? pre]; cbn [app] in H;
  [ first [ discriminate H
          | injection H as -> ->;
            split; [first [left; reflexivity|right; reflexivity]|];
            split; [eexists; split; [reflexivity|];
                    first [ left; eexists; split; [reflexivity|eassumption]
                          | right; first [reflexivity|eassumption] ]|];
            first [left; reflexivity|right; reflexivity] ]
  | first [ discriminate H
          | injection H as -> H; walk_to_write H pre ] ].

Ltac auth_leaf Hleaf :=
  apply Hleaf;
  [ intros; first [reflexivity | congruence]
  | cbn [In app]; intuition discriminate
  | let H := fresh "H" in
    intros pre token post H; cbn [app] in H; symmetry in H; walk_to_write H pre
  | let H := fresh "H" in
    intros c' H; first [discriminate H | injection H as <-; reflexivity] ].

(** [authenticate] reuses a valid stored token as it is: it neither
    refreshes it, nor runs the interactive flow, nor rewrites the file.
    It never both refreshes and runs the flow.  It writes [token.json]
    only right after one of the two has returned new credentials: the
    call before the write is the refresh or the flow, what is written is
    the JSON of the credentials that call gave, and after the write only
    the service is built.  The client has a service whenever
    [authenticate] returns.  A client that was never authenticated
    answers every request by raising, without calling the API. *)
Theorem valid_token_is_reused (ah : YouTubeClient.AuthHost) (c : YouTubeClient.Client) :
  let out := YouTubeClient.authenticate ah c in
  (forall creds,
     YouTubeClient.token_exists ah = true ->
     YouTubeClient.load_token ah = inr creds ->
     YouTubeClient.valid creds = true ->
     snd out = [YouTubeClient.AuthLoad; YouTubeClient.AuthBuild])
  /\ ~ (YouTubeClient.AuthRefresh ∈ snd out /\ YouTubeClient.AuthFlow ∈ snd out)
  /\ (forall pre token post,
        snd out = pre ++ YouTubeClient.AuthWrite token :: post ->
        (last pre = Some YouTubeClient.AuthRefresh \/ last pre = Some YouTubeClient.AuthFlow)
        /\ (exists creds,
              token = YouTubeClient.to_json creds
              /\ ((exists old, YouTubeClient.load_token ah = inr old
                               /\ YouTubeClient.refresh ah old = inr creds)
                  \/ YouTubeClient.run_flow ah = inr creds))
        /\ (post = [] \/ post = [YouTubeClient.AuthBuild]))
  /\ (forall c', fst out = inr c' -> YouTubeClient.service c' = true)
  /\ (forall (A : Type) (execute : M A),
        YouTubeClient.guarded YouTubeClient.new_client execute
        = inl YouTubeClient.not_authenticated).
Proof.
  intros out.
  assert (Hin : forall (e : YouTubeClient.auth_event) l, e ∈ l -> In e l).
  { intros e l. apply list_elem_of_In. }
  assert (Hleaf : forall (r : exc + YouTubeClient.Client) (trace : list YouTubeClient.auth_event),
             (forall creds,
                YouTubeClient.token_exists ah = true ->
                YouTubeClient.load_token ah = inr creds ->
                YouTubeClient.valid creds = true ->
                trace = [YouTubeClient.AuthLoad; YouTubeClient.AuthBuild]) ->
             ~ (In YouTubeClient.AuthRefresh trace /\ In YouTubeClient.AuthFlow trace) ->
             (forall pre token post,
                trace = pre ++ YouTubeClient.AuthWrite token :: post ->
                (last pre = Some YouTubeClient.AuthRefresh
                 \/ last pre = Some YouTubeClient.AuthFlow)
                /\ (exists creds,
                      token = YouTubeClient.to_json creds
                      /\ ((exists old, YouTubeClient.load_token ah = inr old
                                       /\ YouTubeClient.refresh ah old = inr creds)
                          \/ YouTubeClient.run_flow ah = inr creds))
                /\ (post = [] \/ post = [YouTubeClient.AuthBuild])) ->
             (forall c', r = inr c' -> YouTubeClient.service c' = true) ->
             let out := (r, trace) in
             (forall creds,
                YouTubeClient.token_exists ah = true ->
                YouTubeClient.load_token ah = inr creds ->
                YouTubeClient.valid creds = true ->
                snd out = [YouTubeClient.AuthLoad; YouTubeClient.AuthBuild])
             /\ ~ (YouTubeClient.AuthRefresh ∈ snd out /\ YouTubeClient.AuthFlow ∈ snd out)
             /\ (forall pre token post,
                   snd out = pre ++ YouTubeClient.AuthWrite token :: post ->
                   (last pre = Some YouTubeClient.AuthRefresh
                    \/ last pre = Some YouTubeClient.AuthFlow)
                   /\ (exists creds,
                         token = YouTubeClient.to_json creds
                         /\ ((exists old, YouTubeClient.load_token ah = inr old
                                          /\ YouTubeClient.refresh ah old = inr creds)
                             \/ YouTubeClient.run_flow ah = inr creds))
                   /\ (post = [] \/ post = [YouTubeClient.AuthBuild]))
             /\ (forall c', fst out = inr c' -> YouTubeClient.service c' = true)
             /\ (forall (A : Type) (execute : M A),
                   YouTubeClient.guarded YouTubeClient.new_client execute
                   = inl YouTubeClient.not_authenticated)).
  { intros r trace H1 H2 H3 H4 out'. cbn [fst snd].
    split; [exact H1|]. split; [intros [Ha Hb]; apply H2; split; apply Hin; assumption|].
    split; [exact H3|]. split; [exact H4|reflexivity]. }
  unfold out, YouTubeClient.authenticate, YouTubeClient.via_flow, YouTubeClient.finish.
  destruct (YouTubeClient.token_exists ah) eqn:Hexists.
  - destruct (YouTubeClient.load_token ah) as [e|creds] eqn:Hload; [auth_leaf Hleaf|].
    destruct (YouTubeClient.valid creds) eqn:Hvalid; cbn [negb].
    { destruct (YouTubeClient.build_service ah creds); auth_leaf Hleaf. }
    destruct (YouTubeClient.expired creds && _).
    + destruct (YouTubeClient.refresh ah creds) as [e|creds'] eqn:Hrefresh;
        [auth_leaf Hleaf|].
      destruct (YouTubeClient.write_token ah _);
        [|destruct (YouTubeClient.build_service ah creds')]; auth_leaf Hleaf.
    + destruct (YouTubeClient.run_flow ah) as [e|creds'] eqn:Hflow; [auth_leaf Hleaf|].
      destruct (YouTubeClient.write_token ah _);
        [|destruct (YouTubeClient.build_service ah creds')]; auth_leaf Hleaf.
  - destruct (YouTubeClient.run_flow ah) as [e|creds'] eqn:Hflow; [auth_leaf Hleaf|].
    destruct (YouTubeClient.write_token ah _);
      [|destruct (YouTubeClient.build_service ah creds')]; auth_leaf Hleaf.
Qed.

Lemma valid_token_is_reused_witness :
  snd (YouTubeClient.authenticate signed_in YouTubeClient.new_client)
  = [YouTubeClient.AuthLoad; YouTubeClient.AuthBuild].
Proof.
  refine (proj1 (valid_token_is_reused signed_in YouTubeClient.new_client)
            stored_token _ _ _); reflexivity.
Defined.

(** ** The daily run *)

Lemma collect_videos_bound search subs t acc n :
  exists m, Main.collect_videos search subs (Some t) acc n
            = inr (acc ++ flat_map (fetched search) subs, m).
Proof.
  revert t acc n. induction subs as [|s rest IH]; intros t acc n; cbn [Main.collect_videos].
  - exists n. cbn [flat_map]. rewrite app_nil_r. reflexivity.
  - cbn [flat_map]. unfold fetched at 1.
    destruct (Main.channelId s) as [channel_id|]; [|exact (IH t acc n)].
    destruct (Main.channel_title s) as [t'|]; [|exact (IH t acc n)].
    destruct (search channel_id) as [e|videos]; [exact (IH t' acc n)|].
    destruct (IH t' (acc ++ videos) (S n)) as [m Hm]. exists m.
    rewrite Hm, app_assoc. reflexivity.
Qed.

(** A channel whose video search raises is skipped and the run goes
    on: when the first subscription item is well formed, the loop never
    aborts and collects, in the order of the subscriptions, the videos of
    every well-formed item whose search returned. *)
Theorem failing_channels_are_skipped (search : pystr -> M (list VideoInfo))
    (s : Main.Subscription) (rest : list Main.Subscription) :
  well_formed s ->
  exists processed,
    Main.collect_videos search (s :: rest) None [] 0
    = inr (flat_map (fetched search) (s :: rest), processed).
Proof.
  intros [Hid Htitle]. cbn [Main.collect_videos flat_map]. unfold fetched at 1.
  destruct (Main.channelId s) as [channel_id|]; [|congruence].
  destruct (Main.channel_title s) as [t|]; [|congruence].
  destruct (search channel_id) as [e|videos].
  - apply (collect_videos_bound search rest t [] 0%nat).
  - apply (collect_videos_bound search rest t ([] ++ videos) 1%nat).
Qed.

Lemma failing_channels_are_skipped_witness :
  exists processed,
    Main.collect_videos channel_search three_channels None [] 0
    = inr ([video "idA" "A" "One"; video "idB" "B" "One"; video "idC" "C" "Three"], processed).
Proof.
  apply (failing_channels_are_skipped channel_search (sub "c1" "One")
           [sub "c2" "Two"; sub "c3" "Three"]).
  split; discriminate.
Defined.

(** A first subscription item without channel id or title ends the
    whole run: the handler of the loop logs [channel_title] before it was
    ever assigned, so nothing is collected, summarized, rendered or
    mailed, whatever the other subscriptions are. *)
Theorem malformed_first_subscription_ends_the_run (lower : pystr -> pystr)
    (app : Main.App) (h : Main.Host) (client client' : YouTubeClient.Client)
    (s : Main.Subscription) (rest : list Main.Subscription) :
  Main.youtube_client app = Some client ->
  fst (YouTubeClient.authenticate (Main.auth h) client) = inr client' ->
  Main.subscriptions h = inr (Some (s :: rest)) ->
  ~ well_formed s ->
  Main.process_daily_summaries lower app h
  = Main.stopped (Main.Crashed (Main.UnboundLocal (u "channel_title"))) [] [] None None.
Proof.
  intros Hc Ha Hs Hbad. unfold Main.process_daily_summaries.
  rewrite Hc, Ha.
  assert (Hserv : YouTubeClient.service client' = true).
  { unfold YouTubeClient.authenticate in Ha.
    assert (Hf : forall creds trace fresh,
               fst (YouTubeClient.finish (Main.auth h) client creds trace fresh) = inr client' ->
               YouTubeClient.service client' = true).
    { intros creds trace fresh. unfold YouTubeClient.finish.
      destruct fresh; [destruct (YouTubeClient.write_token _ _); [discriminate|]|];
        (destruct (YouTubeClient.build_service _ _); [discriminate|]);
        intros [= <-]; reflexivity. }
    assert (Hv : forall trace,
               fst (YouTubeClient.via_flow (Main.auth h) client trace) = inr client' ->
               YouTubeClient.service client' = true).
    { intros trace. unfold YouTubeClient.via_flow.
      destruct (YouTubeClient.run_flow _); [discriminate|apply Hf]. }
    destruct (YouTubeClient.token_exists _); [|exact (Hv _ Ha)].
    destruct (YouTubeClient.load_token _) as [e|creds]; [discriminate|].
    destruct (negb _); [|exact (Hf _ _ _ Ha)].
    destruct (_ && _); [|exact (Hv _ Ha)].
    destruct (YouTubeClient.refresh _ _); [discriminate|exact (Hf _ _ _ Ha)]. }
  unfold YouTubeClient.guarded at 1. rewrite Hserv, Hs. cbn [negb].
  cbn [Main.collect_videos].
  unfold well_formed in Hbad.
  destruct (Main.channelId s) as [channel_id|]; [|reflexivity].
  destruct (Main.channel_title s) as [t|]; [|reflexivity].
  exfalso. apply Hbad. split; discriminate.
Qed.

Lemma malformed_first_subscription_ends_the_run_witness :
  Main.ended
    (Main.process_daily_summaries lower_ascii sample_app
       (sample_run_host ({| Main.channelId := None; Main.channel_title := Some (u "Zero") |}
                           :: three_channels)))
  = Main.Crashed (Main.UnboundLocal (u "channel_title")).
Proof.
  rewrite (malformed_first_subscription_ends_the_run lower_ascii sample_app
             (sample_run_host ({| Main.channelId := None;
                                  Main.channel_title := Some (u "Zero") |} :: three_channels))
             YouTubeClient.new_client {| YouTubeClient.service := true |}
             {| Main.channelId := None; Main.channel_title := Some (u "Zero") |}
             three_channels).
  - reflexivity.
  - reflexivity.
  - reflexivity.
  - reflexivity.
  - intros [H _]. apply H. reflexivity.
Defined.

Lemma send_report_handed username h smtp to_email pdf_path subject msg :
  snd (EmailSender.send_report username h smtp to_email pdf_path subject) = Some msg ->
  EmailSender.build_message username h to_email pdf_path subject = inr msg.
Proof.
  unfold EmailSender.send_report.
  destruct (EmailSender.build_message username h to_email pdf_path subject)
    as [e|msg']; [discriminate|].
  assert (Hh : EmailSender.handed_over smtp msg' = Some msg ->
               inr msg' = (inr msg : M EmailSender.message)).
  { intros H. apply handed_over_opened in H. destruct H as (-> & _). reflexivity. }
  destruct (EmailSender.session username smtp to_email msg'); exact Hh.
Qed.

Lemma send_report_true username h smtp to_email pdf_path subject m :
  EmailSender.send_report username h smtp to_email pdf_path subject
  = (EmailSender.Returns true, m) ->
  exists msg, m = Some msg /\ smtp_ok smtp msg.
Proof.
  unfold EmailSender.send_report.
  destruct (EmailSender.build_message username h to_email pdf_path subject)
    as [e|msg] eqn:Hmsg; [discriminate|].
  destruct (build_message_addresses _ _ _ _ _ _ Hmsg) as (Hfrom & Hto).
  destruct (EmailSender.session username smtp to_email msg) as [e|[]] eqn:Hs;
    [discriminate|].
  intros [= <-]. apply (session_ok_iff _ _ _ _ Hfrom Hto) in Hs.
  exists msg. split; [|exact Hs].
  apply handed_over_ok, Hs.
Qed.

Lemma deliver_facts lower app h videos :
  let run := Main.summarize_and_deliver lower app h videos in
  (forall msg, Main.handed_to_smtp run = Some msg ->
     exists path username,
       Main.generated_pdf run = Some path /\ path <> []
       /\ Main.email_sender app = Some username
       /\ EmailSender.build_message username (Main.mail h) (Main.email_to app)
            (Some path) None = inr msg)
  /\ (Main.ended run = Main.Completed ->
      exists msg, Main.handed_to_smtp run = Some msg /\ smtp_ok (Main.smtp h) msg)
  /\ (forall path, Main.generated_pdf run = Some path ->
        Main.summaries run <> []
        /\ Main.generate lower (Main.pdf h) (Main.summaries run)
             (Main.path_join h (Main.pdf_output_dir app)
                (u "podcast_summary_" ++ Main.timestamp h ++ u ".pdf")) = Some path).
Proof.
  intros run. unfold run, Main.summarize_and_deliver.
  set (dispatched := match videos with
                     | [] => inr []
                     | _ => _
                     end).
  destruct dispatched as [c|[|r results]];
    try (cbn [Main.stopped Main.ended Main.handed_to_smtp Main.generated_pdf];
         repeat split; discriminate).
  destruct (Main.mkdir h);
    [cbn [Main.stopped Main.ended Main.handed_to_smtp Main.generated_pdf];
     repeat split; discriminate|].
  destruct (Main.report_generator app); cbn [negb];
    [|cbn [Main.stopped Main.ended Main.handed_to_smtp Main.generated_pdf];
      repeat split; discriminate].
  destruct (Main.generate lower (Main.pdf h) (r :: results) _) as [generated|] eqn:Hg;
    [|cbn [Main.stopped Main.ended Main.handed_to_smtp Main.generated_pdf];
      repeat split; discriminate].
  destruct (truthy generated) eqn:Ht; cbn [negb].
  2:{ cbn [Main.stopped Main.ended Main.handed_to_smtp Main.generated_pdf Main.summaries].
      split; [discriminate|]. split; [discriminate|].
      intros path [= <-]. split; [discriminate|exact Hg]. }
  assert (Hne : generated <> []) by (destruct generated; [discriminate|discriminate]).
  destruct (Main.email_sender app) as [username|].
  2:{ cbn [Main.stopped Main.ended Main.handed_to_smtp Main.generated_pdf Main.summaries].
      split; [discriminate|]. split; [discriminate|].
      intros path [= <-]. split; [discriminate|exact Hg]. }
  destruct (EmailSender.send_report username (Main.mail h) (Main.smtp h)
              (Main.email_to app) (Some generated) None) as [[[|]|e] m] eqn:Hsend;
    cbn [Main.stopped Main.ended Main.handed_to_smtp Main.generated_pdf Main.summaries].
  - split; [|split].
    + intros msg ->. exists generated, username. repeat split; try assumption.
      apply send_report_handed with (Main.smtp h). rewrite Hsend. reflexivity.
    + intros _. apply send_report_true in Hsend. exact Hsend.
    + intros path [= <-]. split; [discriminate|exact Hg].
  - split; [|split].
    + intros msg ->. exists generated, username. repeat split; try assumption.
      apply send_report_handed with (Main.smtp h). rewrite Hsend. reflexivity.
    + discriminate.
    + intros path [= <-]. split; [discriminate|exact Hg].
  - split; [|split].
    + intros msg ->. exists generated, username. repeat split; try assumption.
      apply send_report_handed with (Main.smtp h). rewrite Hsend. reflexivity.
    + discriminate.
    + intros path [= <-]. split; [discriminate|exact Hg].
Qed.

(** Nothing is mailed without a report, and no report is made without
    summaries: in every run, a message is handed to the SMTP server only
    for a report that [generate_report] returned, which is its
    attachment path, and a report is generated only from a non-empty list
    of results; a run that ends well has handed its message over in a
    session whose every call returned. *)
Theorem mail_only_after_report (lower : pystr -> pystr) (app : Main.App) (h : Main.Host) :
  let run := Main.process_daily_summaries lower app h in
  (forall msg, Main.handed_to_smtp run = Some msg ->
     exists path username,
       Main.generated_pdf run = Some path /\ path <> []
       /\ Main.email_sender app = Some username
       /\ EmailSender.build_message username (Main.mail h) (Main.email_to app)
            (Some path) None = inr msg)
  /\ (Main.ended run = Main.Completed ->
      exists msg, Main.handed_to_smtp run = Some msg /\ smtp_ok (Main.smtp h) msg)
  /\ (forall path, Main.generated_pdf run = Some path ->
        Main.summaries run <> []
        /\ Main.generate lower (Main.pdf h) (Main.summaries run)
             (Main.path_join h (Main.pdf_output_dir app)
                (u "podcast_summary_" ++ Main.timestamp h ++ u ".pdf")) = Some path).
Proof.
  intros run. unfold run, Main.process_daily_summaries.
  assert (Hstop : forall e,
             e <> Main.Completed ->
             let run := Main.stopped e [] [] None None in
             (forall msg, Main.handed_to_smtp run = Some msg ->
                exists path username,
                  Main.generated_pdf run = Some path /\ path <> []
                  /\ Main.email_sender app = Some username
                  /\ EmailSender.build_message username (Main.mail h) (Main.email_to app)
                       (Some path) None = inr msg)
             /\ (Main.ended run = Main.Completed ->
                 exists msg, Main.handed_to_smtp run = Some msg /\ smtp_ok (Main.smtp h) msg)
             /\ (forall path, Main.generated_pdf run = Some path ->
                   Main.summaries run <> []
                   /\ Main.generate lower (Main.pdf h) (Main.summaries run)
                        (Main.path_join h (Main.pdf_output_dir app)
                           (u "podcast_summary_" ++ Main.timestamp h ++ u ".pdf"))
                      = Some path)).
  { intros e He. cbn. split; [discriminate|]. split; [congruence|discriminate]. }
  destruct (Main.youtube_client app) as [client|]; [|apply Hstop; discriminate].
  destruct (fst (YouTubeClient.authenticate (Main.auth h) client)) as [e|client'];
    [apply Hstop; discriminate|].
  destruct (YouTubeClient.guarded client' (Main.subscriptions h)) as [e|[[|s items]|]];
    try (apply Hstop; discriminate).
  destruct (Main.collect_videos _ _ _ _ _) as [c|[all_videos n]];
    [apply Hstop; discriminate|].
  apply deliver_facts.
Qed.

Lemma mail_only_after_report_witness :
  let run := Main.process_daily_summaries lower_ascii sample_app
               (sample_run_host three_channels) in
  exists msg path,
    Main.handed_to_smtp run = Some msg /\ smtp_ok working_smtp msg
    /\ Main.generated_pdf run = Some path /\ Main.summaries run <> [].
Proof.
  intros run.
  destruct (mail_only_after_report lower_ascii sample_app (sample_run_host three_channels))
    as (Hmail & Hdone & Hreport).
  destruct Hdone as (msg & Hhanded & Hok); [vm_compute; reflexivity|].
  destruct (Hmail msg Hhanded) as (path & username & Hpath & _).
  destruct (Hreport path Hpath) as [Hsome _].
  exists msg, path.
  split; [exact Hhanded|]. split; [exact Hok|]. split; [exact Hpath|exact Hsome].
Defined.

Lemma lstrip_head (s : pystr) c r : lstrip s = c :: r -> isspace c = false.
Proof.
  induction s as [|a s IH]; cbn [lstrip]; [discriminate|].
  destruct (isspace a) eqn:E; [exact IH|].
  intros [= <- <-]. exact E.
Qed.

Lemma lstrip_nonblank (s : pystr) c : In c s -> isspace c = false -> lstrip s <> [].
Proof.
  induction s as [|a s IH]; intros Hin Hc; [destruct Hin|].
  cbn [lstrip]. destruct (isspace a) eqn:E; [|discriminate].
  destruct Hin as [-> |Hin]; [congruence|]. apply IH; assumption.
Qed.

(** A string with a character that is not white space does not strip
    to the empty string. *)
Lemma strip_nonblank (s : pystr) :
  (exists c, In c s /\ isspace c = false) -> strip s <> [].
Proof.
  intros (c & Hin & Hc). unfold strip, rstrip.
  pose proof (lstrip_nonblank s c Hin Hc) as Hl.
  destruct (lstrip s) as [|c' r] eqn:E; [congruence|].
  pose proof (lstrip_head s c' r E) as Hc'.
  assert (Hr : lstrip (rev (c' :: r)) <> []).
  { apply (lstrip_nonblank _ c'); [|exact Hc']. apply in_rev. rewrite rev_involutive.
    left. reflexivity. }
  intros H. apply Hr. apply (f_equal (@rev N)) in H. rewrite rev_involutive in H. exact H.
Qed.

Lemma strip_has_nonspace (t : pystr) :
  strip t <> [] -> exists c, In c (strip t) /\ isspace c = false.
Proof.
  unfold strip, rstrip.
  destruct (lstrip (rev (lstrip t))) as [|c r] eqn:E; [intros H; exfalso; apply H; reflexivity|].
  intros _. exists c. split; [|exact (lstrip_head _ c r E)].
  apply in_rev. rewrite rev_involutive. left. reflexivity.
Qed.

Lemma nonblank_prefix (a b : pystr) c :
  head a = Some c -> isspace c = false -> exists c, In c (a ++ b) /\ isspace c = false.
Proof.
  intros Ha Hc. exists c. split; [|exact Hc].
  destruct a as [|c' a]; [discriminate Ha|]. injection Ha as ->. left. reflexivity.
Qed.

Lemma canned_paragraphs_are_not_blank (channel : pystr) :
  Forall (fun kv => exists c, In c (snd kv) /\ isspace c = false)
         (FixedSummarizer.summaries channel).
Proof.
  unfold FixedSummarizer.summaries.
  apply Forall_cons; split;
    [cbn [snd]; apply (nonblank_prefix _ _ 36825); vm_compute; reflexivity|].
  apply Forall_cons; split;
    [cbn [snd]; apply (nonblank_prefix _ _ 35813); vm_compute; reflexivity|].
  apply Forall_cons; split;
    [cbn [snd]; apply (nonblank_prefix _ _ 36825); vm_compute; reflexivity|].
  apply Forall_cons; split;
    [cbn [snd]; apply (nonblank_prefix _ _ 35813); vm_compute; reflexivity|].
  apply Forall_cons; split;
    [cbn [snd]; apply (nonblank_prefix _ _ 36825); vm_compute; reflexivity|].
  apply Forall_nil. exact I.
Qed.

Lemma fallback_summary_is_not_blank lower title channel :
  strip (FixedSummarizer._generate_fallback_summary lower title channel) <> [].
Proof.
  apply strip_nonblank. unfold FixedSummarizer._generate_fallback_summary.
  destruct (FixedSummarizer.first_item _ _) as [summary|] eqn:E.
  - eapply (first_item_Forall (fun s => exists c, In c s /\ isspace c = false)); [|exact E].
    apply canned_paragraphs_are_not_blank.
  - unfold FixedSummarizer.default_summary.
    apply (nonblank_prefix _ _ 35813); vm_compute; reflexivity.
Qed.

(** The result of a unit of the fixed summarizer, as the report
    generator reads it: its summary is a string of at least 100
    characters that is not blank. *)
Lemma fixed_unit_entry lower api_key post video :
  exists s,
    Main.entry_of (FixedSummarizer._make_api_call lower api_key post video)
    = Some {| FixedPDFGenerator.e_title := Some (default (u "Unknown") (get_title video));
              FixedPDFGenerator.e_channel := Some (default (u "Unknown") (get_channelTitle video));
              FixedPDFGenerator.e_summary := Some (Some s);
              FixedPDFGenerator.e_url := Some (watch_url (default (u "") (get_videoId video))) |}
    /\ (100 <= len s)%nat
    /\ strip s <> [].
Proof.
  unfold FixedSummarizer._make_api_call, Main.entry_of.
  destruct (bind (bind _ _) _) as [e|text] eqn:Hcall; cbn [r_summary r_title r_channel r_url].
  - eexists. split; [reflexivity|].
    split; [apply fallback_summary_is_long|apply fallback_summary_is_not_blank].
  - destruct (len text <? 100)%nat eqn:Hlen; cbn [orb].
    + eexists. split; [reflexivity|].
      split; [apply fallback_summary_is_long|apply fallback_summary_is_not_blank].
    + destruct (FixedSummarizer._content_matches_title lower _ text); cbn [negb].
      * exists text. split; [reflexivity|]. apply Nat.ltb_ge in Hlen.
        split; [exact Hlen|].
        assert (Hstripped : exists raw, text = strip raw).
        { destruct (bind _ first_choice_content) as [e|x]; [discriminate Hcall|].
          cbn [bind] in Hcall. unfold FixedSummarizer.strip_value in Hcall.
          destruct x; try discriminate Hcall.
          injection Hcall as <-. eexists. reflexivity. }
        destruct Hstripped as [raw ->].
        apply strip_nonblank, strip_has_nonspace.
        intros H. rewrite H in Hlen. cbn [len length] in Hlen. lia.
      * eexists. split; [reflexivity|].
        split; [apply fallback_summary_is_long|apply fallback_summary_is_not_blank].
Qed.

Lemma entries_of_Forall (results : list SummaryResult) (P : FixedPDFGenerator.Entry -> Prop) :
  Forall (fun r => exists e, Main.entry_of r = Some e /\ P e) results ->
  exists entries, Main.entries_of results = Some entries
                  /\ length entries = length results /\ Forall P entries.
Proof.
  induction 1 as [|r results (e & He & HP) _ (entries & Hes & Hlen & HPs)].
  - exists []. repeat split. constructor.
  - exists (e :: entries). cbn [Main.entries_of]. rewrite He, Hes.
    repeat split; [cbn [length]; congruence|constructor; assumption].
Qed.

(** With the fixed summarizer no collected video is lost on the way
    to the report: when every future completes, the run has one result
    per collected video, every result can be rendered, and the story of
    the report has one section per collected video.  Each section is
    rendered from a summary of at least 100 characters that is not
    blank, so the placeholder for a missing summary is never used: the
    body paragraphs of a section are the paragraphs its summary splits
    into. *)
Theorem every_collected_video_gets_a_section (lower : pystr -> pystr)
    (app : Main.App) (h : Main.Host) (videos : list VideoInfo) (api_key : pystr) :
  Main.summarizer app = Some api_key ->
  Main.order h ≡ₚ seq 0 (length videos) ->
  let run := Main.summarize_and_deliver lower app h videos in
  Main.collected run = videos
  /\ length (Main.summaries run) = length videos
  /\ exists entries,
       Main.entries_of (Main.summaries run) = Some entries
       /\ length (section_titles (FixedPDFGenerator.build_story lower (Main.pdf h) entries))
          = length videos
       /\ Forall (fun e => exists s,
                     FixedPDFGenerator.e_summary e = Some (Some s)
                     /\ (100 <= len s)%nat
                     /\ body_of (FixedPDFGenerator.section_of lower e)
                        = FixedPDFGenerator.body_paragraphs s) entries.
Proof.
  intros Hkey Horder run.
  set (results := fst (FixedSummarizer.process_videos_parallel lower api_key
                         (Main.net h) (Main.order h) videos)).
  assert (Hperm : results ≡ₚ fixed_units lower api_key (Main.net h) videos).
  { unfold results, FixedSummarizer.process_videos_parallel, FixedSummarizer.collect.
    rewrite fixed_collect_results, app_nil_l.
    rewrite completed_is_permutation.
    - unfold FixedSummarizer.submit_all, kept_fixed, fixed_units.
      rewrite (kept_of_submitted (fun _ => true)
                 (fun i v => FixedSummarizer._make_api_call lower api_key (Main.net h i) v)
                 (fun v => v)).
      generalize (imap (fun i v => FixedSummarizer._make_api_call lower api_key
                                     (Main.net h i) v) videos).
      intros l. induction l as [|r l IH]; [reflexivity|]. cbn [List.filter].
      rewrite IH at 1. reflexivity.
    - unfold FixedSummarizer.submit_all. rewrite length_imap. exact Horder. }
  assert (Hlen : length results = length videos).
  { rewrite (Permutation_length Hperm). apply length_imap. }
  assert (Hrun : Main.collected run = videos /\ Main.summaries run = results).
  { unfold run, Main.summarize_and_deliver. rewrite Hkey. fold results.
    destruct videos as [|v videos'].
    - destruct results; [|discriminate Hlen]. split; reflexivity.
    - destruct results as [|r results']; [discriminate Hlen|].
      destruct (Main.mkdir h); [split; reflexivity|].
      destruct (Main.report_generator app); cbn [negb]; [|split; reflexivity].
      destruct (Main.generate _ _ _ _) as [generated|]; [|split; reflexivity].
      destruct (truthy generated); cbn [negb]; [|split; reflexivity].
      destruct (Main.email_sender app) as [username|]; [|split; reflexivity].
      destruct (EmailSender.send_report _ _ _ _ _ _) as [[[|]|e] m]; split; reflexivity. }
  destruct Hrun as [Hcollected Hsummaries].
  split; [exact Hcollected|]. rewrite Hsummaries. split; [exact Hlen|].
  destruct (entries_of_Forall results
              (fun e => exists s,
                   FixedPDFGenerator.e_summary e = Some (Some s)
                   /\ (100 <= len s)%nat
                   /\ body_of (FixedPDFGenerator.section_of lower e)
                      = FixedPDFGenerator.body_paragraphs s))
    as (entries & Hentries & Hlen' & Hbodies).
  { rewrite Hperm. apply Forall_forall. intros r Hr.
    apply list_elem_of_lookup in Hr. destruct Hr as [i Hr].
    unfold fixed_units in Hr. rewrite list_lookup_imap in Hr.
    destruct (videos !! i) as [v|]; [|discriminate]. injection Hr as <-.
    destruct (fixed_unit_entry lower api_key (Main.net h i) v) as (s & He & Hs & Hblank).
    eexists. split; [exact He|]. exists s. split; [reflexivity|]. split; [exact Hs|].
    rewrite body_of_section. cbn [FixedPDFGenerator.e_summary from_option id].
    assert (Ht : truthy s = true) by (destruct s; [cbn [len length] in Hs; lia|reflexivity]).
    assert (Hp : (0 <? len (strip s))%nat = true).
    { apply Nat.ltb_lt. destruct (strip s); [congruence|cbn [len length]; lia]. }
    rewrite Ht, Hp. reflexivity. }
  exists entries. split; [exact Hentries|]. split; [|exact Hbodies].
  unfold FixedPDFGenerator.build_story.
  change (section_titles (?p :: ?rest)) with (section_titles rest).
  rewrite (section_titles_concat _
             (fun s => FixedPDFGenerator.title_text lower
                         (default (u "未知标题") (FixedPDFGenerator.e_title s))))
    by (intros i s; apply section_titles_of_section).
  rewrite length_map. congruence.
Qed.

Lemma every_collected_video_gets_a_section_witness :
  length (Main.summaries
            (Main.summarize_and_deliver lower_ascii sample_app
               (sample_run_host three_channels) abc))
  = 3%nat.
Proof.
  refine (proj1 (proj2 (every_collected_video_gets_a_section lower_ascii sample_app
                          (sample_run_host three_channels) abc (u "key") _ _))).
  - reflexivity.
  - vm_compute.
    apply (Permutation_trans (l' := [0; 2; 1]%nat)); [apply perm_swap|].
    apply perm_skip, perm_swap.
Defined.

(** A summary can split into no paragraph at all: one made of full
    stops only is long enough to be kept and leaves its section without
    a body. *)
Example summary_of_full_stops_has_no_paragraph :
  len (strip (repeat 12290 100)) = 100%nat
  /\ FixedPDFGenerator.body_paragraphs (repeat 12290 100) = [].
Proof. split; vm_compute; reflexivity. Qed.

(** ** Settings *)

Lemma get_set_item k k' v (d : ConfigManager.settings) :
  ConfigManager.get k (ConfigManager.set_item k' v d)
  = if str_eqb k k' then Some v else ConfigManager.get k d.
Proof.
  induction d as [|[k0 v0] d IH]; cbn [ConfigManager.set_item ConfigManager.get].
  - destruct (str_eqb k k'); reflexivity.
  - unfold str_eqb in *.
    destruct (bool_decide (k' = k0)) eqn:E0; cbn [ConfigManager.get]; unfold str_eqb.
    + apply bool_decide_eq_true in E0. subst k0.
      destruct (bool_decide (k = k')); reflexivity.
    + apply bool_decide_eq_false in E0.
      destruct (bool_decide (k = k0)) eqn:E1.
      * apply bool_decide_eq_true in E1. subst k0.
        rewrite bool_decide_eq_false_2 by congruence. reflexivity.
      * exact IH.
Qed.

Lemma get_fold_set_item k (m : list (pystr * json)) (d : ConfigManager.settings) :
  ConfigManager.get k
    (fold_left (fun acc kv => ConfigManager.set_item (fst kv) (snd kv) acc) m d)
  = match obj_get k m with
    | Some v => Some v
    | None => ConfigManager.get k d
    end.
Proof.
  revert d. induction m as [|[k' v'] m IH]; intros d; [reflexivity|].
  cbn [fold_left obj_get fst snd]. rewrite IH, get_set_item.
  destruct (obj_get k m); [reflexivity|].
  destruct (str_eqb k k'); reflexivity.
Qed.

(** A settings file that holds a JSON object overrides the defaults
    key by key: for every key, the loaded setting is the value the file
    gives it (the last one if the key is repeated) and the default when
    the file does not mention it.  A file that is missing or cannot be
    read leaves the defaults. *)
Theorem settings_file_overrides_defaults (m : list (pystr * json)) (key : pystr) (e : exc) :
  ConfigManager.get key (ConfigManager.load_settings (Some (inr (JObj m))))
  = match obj_get key m with
    | Some v => Some v
    | None => ConfigManager.get key ConfigManager.default_settings
    end
  /\ ConfigManager.load_settings None = ConfigManager.default_settings
  /\ ConfigManager.load_settings (Some (inl e)) = ConfigManager.default_settings.
Proof.
  split; [|split; reflexivity].
  unfold ConfigManager.load_settings, ConfigManager.update. cbn [fst].
  apply get_fold_set_item.
Qed.

Lemma set_item_keeps k k' v (d : ConfigManager.settings) :
  is_Some (ConfigManager.get k d) ->
  is_Some (ConfigManager.get k (ConfigManager.set_item k' v d)).
Proof.
  intros H. rewrite get_set_item. destruct (str_eqb k k'); [eexists; reflexivity|exact H].
Qed.

Lemma update_seq_keeps k items (d : ConfigManager.settings) :
  is_Some (ConfigManager.get k d) ->
  is_Some (ConfigManager.get k (fst (ConfigManager.update_seq items d))).
Proof.
  revert d. induction items as [|item items IH]; intros d H; [exact H|].
  cbn [ConfigManager.update_seq].
  destruct (ConfigManager.pair_of item) as [e|[[| | | |s| |] v]]; try exact H;
    try (apply IH; exact H).
  apply IH, set_item_keeps, H.
Qed.

(** Whatever the settings file holds, be it an object, a list of pairs
    that breaks off in the middle, or anything else, every key that has a
    default is still present in the loaded settings, so no accessor ever
    falls back on its own default. *)
Theorem loaded_settings_keep_every_default_key (file : option (M json)) (key : pystr) :
  is_Some (ConfigManager.get key ConfigManager.default_settings) ->
  is_Some (ConfigManager.get key (ConfigManager.load_settings file))
  /\ forall dflt,
       ConfigManager.get key (ConfigManager.load_settings file)
       = Some (ConfigManager.setting (ConfigManager.load_settings file) key dflt).
Proof.
  intros Hdef.
  assert (H : is_Some (ConfigManager.get key (ConfigManager.load_settings file))).
  { unfold ConfigManager.load_settings.
    destruct file as [[e|x]|]; try exact Hdef.
    unfold ConfigManager.update.
    destruct x as [| | | |[|c s]|items|m]; try exact Hdef.
    - apply update_seq_keeps, Hdef.
    - cbn [fst]. rewrite get_fold_set_item.
      destruct (obj_get key m); [eexists; reflexivity|exact Hdef]. }
  split; [exact H|].
  intros dflt. unfold ConfigManager.setting.
  destruct H as [v Hv]. rewrite Hv. reflexivity.
Qed.

Lemma loaded_settings_keep_every_default_key_witness :
  is_Some (ConfigManager.get (u "schedule_time")
             (ConfigManager.load_settings
                (Some (inr (JArr [JArr [JStr (u "schedule_time"); JStr (u "21:30")];
                                  JInt 5]))))).
Proof.
  refine (proj1 (loaded_settings_keep_every_default_key
                   (Some (inr (JArr [JArr [JStr (u "schedule_time"); JStr (u "21:30")];
                                     JInt 5])))
                   (u "schedule_time") _)).
  vm_compute. eexists. reflexivity.
Defined.

Example broken_list_is_half_applied :
  ConfigManager.get (u "schedule_time")
    (ConfigManager.load_settings
       (Some (inr (JArr [JArr [JStr (u "schedule_time"); JStr (u "21:30")]; JInt 5]))))
  = Some (JStr (u "21:30")).
Proof. vm_compute. reflexivity. Qed.

(** ** The log of the dispatchers *)

Lemma parallel_collect_log_length completed rs lg :
  length (snd (fold_left ParallelSummarizer.collect_step completed (rs, lg)))
  = (length lg + length completed)%nat.
Proof.
  revert rs lg. induction completed as [|[v o] l IH]; intros rs lg; cbn [fold_left length snd];
    [lia|].
  unfold ParallelSummarizer.collect_step at 2.
  destruct o as [r|e]; [destruct (r_success r) as [[|]|];
                        [destruct (py_len (r_summary r))| |]|];
    rewrite IH, length_app; cbn [length]; lia.
Qed.

Lemma fixed_collect_log_length completed rs lg :
  length (snd (fold_left FixedSummarizer.collect_step completed (rs, lg)))
  = (length lg + length completed)%nat.
Proof.
  revert rs lg. induction completed as [|[v o] l IH]; intros rs lg; cbn [fold_left length snd];
    [lia|].
  unfold FixedSummarizer.collect_step at 2.
  destruct o as [r|e]; [destruct (py_len (r_summary r))|];
    rewrite IH, length_app; cbn [length]; lia.
Qed.

(** Every unit leaves exactly one line in the log of the collecting
    loop, kept or dropped: when every future completes, the log of either
    dispatcher has as many lines as videos were submitted. *)
Theorem every_unit_is_logged (str_exc : exc -> pystr) (lower : pystr -> pystr)
    (api_key : pystr) (net : nat -> request -> response)
    (order : list nat) (videos : list VideoInfo) :
  order ≡ₚ seq 0 (length videos) ->
  length (snd (ParallelSummarizer.process_videos_parallel str_exc api_key net order videos))
  = length videos
  /\ length (snd (FixedSummarizer.process_videos_parallel lower api_key net order videos))
     = length videos.
Proof.
  intros Horder. split.
  - unfold ParallelSummarizer.process_videos_parallel, ParallelSummarizer.collect.
    rewrite parallel_collect_log_length. cbn [length].
    rewrite (Permutation_length
               (completed_is_permutation
                  (ParallelSummarizer.submit_all str_exc api_key net videos) order
                  ltac:(unfold ParallelSummarizer.submit_all; rewrite length_imap;
                        exact Horder))).
    unfold ParallelSummarizer.submit_all. apply length_imap.
  - unfold FixedSummarizer.process_videos_parallel, FixedSummarizer.collect.
    rewrite fixed_collect_log_length. cbn [length].
    rewrite (Permutation_length
               (completed_is_permutation
                  (FixedSummarizer.submit_all lower api_key net videos) order
                  ltac:(unfold FixedSummarizer.submit_all; rewrite length_imap;
                        exact Horder))).
    unfold FixedSummarizer.submit_all. apply length_imap.
Qed.

Lemma every_unit_is_logged_witness :
  length (snd (ParallelSummarizer.process_videos_parallel sample_str_exc (u "key")
                 b_times_out [2; 0; 1]%nat abc)) = 3%nat.
Proof.
  refine (proj1 (every_unit_is_logged sample_str_exc lower_ascii (u "key") b_times_out
                   [2; 0; 1]%nat abc _)).
  vm_compute.
  apply (Permutation_trans (l' := [0; 2; 1]%nat)); [apply perm_swap|].
  apply perm_skip, perm_swap.
Defined.

(** ** Resolvers built without a YouTube service *)

Lemma no_usable_stage w accept_lang accept_listed langs tag_lang tag_g tag_m video_id :
  ~ has_transcript w accept_lang accept_listed langs video_id ->
  fst (try_languages w accept_lang tag_lang video_id langs) = None
  /\ fst (any_transcript w accept_listed tag_g tag_m video_id) = None.
Proof.
  intros Hno. split.
  - apply try_languages_none. apply Forall_forall. intros lang Hin.
    unfold language_unusable.
    destruct (usable accept_lang (get_transcript w video_id lang)) as [text|] eqn:E;
      [|reflexivity].
    exfalso. apply Hno. left. exists lang, text. split; [exact Hin|exact E].
  - apply any_transcript_none.
    destruct (list_transcripts w video_id) as [e|listed] eqn:Hlist; [left; eexists; reflexivity|].
    right. exists listed. split; [reflexivity|].
    split; apply Forall_forall; intros t Hin Hg;
      (destruct (usable accept_listed (fetch t)) as [text|] eqn:E; [|reflexivity]);
      exfalso; apply Hno; right; exists listed, t, text;
      (split; [exact Hlist|]); (split; [exact Hin|exact E]).
Qed.

(** A summarizer built without a YouTube service, which is the default
    of both constructors, has no description fallback: its resolver
    never asks for video details and never returns a description, so it
    returns nothing exactly for the videos that have no acceptable
    transcript, be it that none exists, that none can be fetched or that
    all are too short. *)
Theorem no_service_no_description (w : World) (video_id : pystr) :
  youtube_service w = None ->
  no_details (snd (EnhancedSummarizer.get_transcript_with_fallback w video_id))
  /\ no_details (snd (HybridSummarizer.get_content_with_fallbacks w video_id))
  /\ (forall text, fst (EnhancedSummarizer.get_transcript_with_fallback w video_id)
                   <> Some (text, u "description"))
  /\ (forall text, fst (HybridSummarizer.get_content_with_fallbacks w video_id)
                   <> Some (text, u "enhanced_description"))
  /\ (fst (EnhancedSummarizer.get_transcript_with_fallback w video_id) = None
      <-> ~ has_transcript w EnhancedSummarizer.accept EnhancedSummarizer.accept
            EnhancedSummarizer.languages_to_try video_id)
  /\ (fst (HybridSummarizer.get_content_with_fallbacks w video_id) = None
      <-> ~ has_transcript w HybridSummarizer.accept_lang HybridSummarizer.accept_listed
            HybridSummarizer.languages_priority video_id).
Proof.
  intros Hs.
  assert (Hd : get_video_details w video_id = (None, [])).
  { unfold get_video_details. rewrite Hs. reflexivity. }
  assert (Hfb : HybridSummarizer.description_fallback w video_id = (None, [])).
  { unfold HybridSummarizer.description_fallback. rewrite Hd. reflexivity. }
  split; [|split; [|split; [|split; [|split]]]].
  - unfold EnhancedSummarizer.get_transcript_with_fallback, no_details.
    rewrite tbind_snd. apply Forall_app. split.
    { apply transcript_calls_no_details, try_languages_trace. }
    destruct (fst (try_languages _ _ _ _ _)); [constructor|].
    rewrite tbind_snd. apply Forall_app. split.
    { apply transcript_calls_no_details, any_transcript_trace. }
    destruct (fst (any_transcript _ _ _ _ _)); [constructor|].
    rewrite Hd. constructor.
  - unfold HybridSummarizer.get_content_with_fallbacks, no_details.
    rewrite tbind_snd. apply Forall_app. split.
    { unfold HybridSummarizer.get_transcript_smart.
      rewrite tbind_snd. apply Forall_app. split.
      { apply transcript_calls_no_details, try_languages_trace. }
      destruct (fst (try_languages _ _ _ _ _)); [constructor|].
      apply transcript_calls_no_details, any_transcript_trace. }
    rewrite Hfb.
    destruct (fst (HybridSummarizer.get_transcript_smart _ _)) as [[content ct]|];
      [destruct (truthy content)|]; constructor.
  - intros text. unfold EnhancedSummarizer.get_transcript_with_fallback.
    rewrite tbind_fst.
    destruct (fst (try_languages _ _ _ _ _)) as [[text' t']|] eqn:E1.
    { apply try_languages_accepted in E1. destruct E1 as (_ & lang & _ & ->).
      intros [= _ H]; try (vm_compute in H; discriminate H). }
    rewrite tbind_fst.
    destruct (fst (any_transcript _ _ _ _ _)) as [[text' t']|] eqn:E2.
    { apply any_transcript_accepted in E2. destruct E2 as (_ & [-> | ->]);
        intros [= _ H]; try (vm_compute in H; discriminate H). }
    rewrite Hd. discriminate.
  - intros text. unfold HybridSummarizer.get_content_with_fallbacks.
    rewrite tbind_fst, Hfb.
    destruct (fst (HybridSummarizer.get_transcript_smart w video_id))
      as [[content ct]|] eqn:E; [|discriminate].
    destruct (truthy content); [|discriminate].
    unfold HybridSummarizer.get_transcript_smart in E. rewrite tbind_fst in E.
    destruct (fst (try_languages _ _ _ _ _)) as [[text' t']|] eqn:E1.
    + injection E as <- <-. apply try_languages_accepted in E1.
      destruct E1 as (_ & lang & _ & ->).
      intros [= _ H]; try (apply (f_equal (take 11)) in H; vm_compute in H; discriminate H).
    + apply any_transcript_accepted in E. destruct E as (_ & [-> | ->]);
        intros [= _ H]; try (vm_compute in H; discriminate H).
  - split.
    + intros Hnone Hhas.
      destruct (transcript_stage w _ _ _ (fun _ => u "transcript")
                  (u "auto_transcript") (u "manual_transcript") video_id Hhas)
        as (text & tag & _ & Hcase).
      unfold EnhancedSummarizer.get_transcript_with_fallback in Hnone.
      rewrite tbind_fst in Hnone.
      destruct Hcase as [[H1 _]|(H1 & H2 & _)]; rewrite H1 in Hnone; [discriminate Hnone|].
      rewrite tbind_fst, H2 in Hnone. discriminate Hnone.
    + intros Hno.
      destruct (no_usable_stage w _ _ _ (fun _ => u "transcript")
                  (u "auto_transcript") (u "manual_transcript") video_id Hno) as [H1 H2].
      unfold EnhancedSummarizer.get_transcript_with_fallback.
      rewrite tbind_fst, H1, tbind_fst, H2, Hd. reflexivity.
  - split.
    + intros Hnone Hhas.
      destruct (transcript_stage w _ _ _ (fun lang => u "transcript_" ++ lang)
                  (u "auto_generated") (u "manual") video_id Hhas)
        as (text & tag & _ & Hcase).
      assert (Hlen : (100 < len text)%nat).
      { apply hybrid_accept_length. destruct Hcase as [[_ H]|(_ & _ & H)]; auto. }
      unfold HybridSummarizer.get_content_with_fallbacks,
        HybridSummarizer.get_transcript_smart in Hnone.
      rewrite tbind_fst, tbind_fst in Hnone.
      destruct Hcase as [[H1 _]|(H1 & H2 & _)]; rewrite H1 in Hnone;
        [|rewrite H2 in Hnone]; cbn [tret fst] in Hnone;
        rewrite (long_is_truthy text 100 Hlen) in Hnone; discriminate Hnone.
    + intros Hno.
      destruct (no_usable_stage w _ _ _ (fun lang => u "transcript_" ++ lang)
                  (u "auto_generated") (u "manual") video_id Hno) as [H1 H2].
      unfold HybridSummarizer.get_content_with_fallbacks,
        HybridSummarizer.get_transcript_smart.
      rewrite tbind_fst, tbind_fst, H1, H2, Hfb. reflexivity.
Qed.

Lemma no_service_no_description_witness :
  fst (EnhancedSummarizer.get_transcript_with_fallback short_captions_only (u "vid")) = None
  /\ fst (HybridSummarizer.get_content_with_fallbacks short_captions_only (u "vid")) = None.
Proof.
  destruct (no_service_no_description short_captions_only (u "vid") eq_refl)
    as (_ & _ & _ & _ & He & Hh).
  split.
  - apply He. intros [(lang & text & _ & H)|(listed & t & text & Hl & Hin & H)].
    + vm_compute in H. discriminate H.
    + injection Hl as <-.
      apply list_elem_of_In in Hin. destruct Hin as [<-|[<-|[]]];
        vm_compute in H; discriminate H.
  - apply Hh. intros [(lang & text & _ & H)|(listed & t & text & Hl & Hin & H)].
    + vm_compute in H. discriminate H.
    + injection Hl as <-.
      apply list_elem_of_In in Hin. destruct Hin as [<-|[<-|[]]];
        vm_compute in H; discriminate H.
Defined.
